(** * Scalable counter domains (progress64, [src/p64_counter.c])

    A shallow embedding of the counter-domain engine and the proofs of its
    specified properties.

    Conventions.
    - [uint32_t] and [uint64_t] values are integers of [Z] with the
      wrap-around written out ([u32], [u64]); the data model is LP64
      ([size_t] and [long] are 64 bits wide, as [__builtin_ctzl] on a
      [uint64_t] presupposes).
    - Arrays are lists indexed through [load] and [store]; an access outside
      the array, and the dereference of a null stash, is undefined behaviour
      in C and is the outcome [Fault] here.
    - The domain is one heap block: the header followed by the flexible
      array [free[]], whose first [nwords] words are the bitmap and whose
      remaining words are the shared accumulator ([shared = &free[nwords]]).
      The field [shared] is that offset into [free[]].
    - Every C function is executed atomically (a sequential interleaving of
      whole calls); unbounded loops take fuel and give [NoFuel] without it.
      Where two calls overlap, [p64_cntdomain_unregister] and
      [p64_counter_reset] are split at their atomic accesses.
    - The calling thread is the argument [self]; [THREAD_LOCAL pth] is a map
      from threads to their copy of [pth]. *)

From Stdlib Require Import ZArith Lia Bool.
From stdpp Require Import base option list gmap strings.

Local Open Scope Z_scope.

(** ** Outcomes of a call *)

Inductive outcome (A : Type) : Type :=
| Ok (a : A)
| Fault
| NoFuel.
Arguments Ok {A} a.
Arguments Fault {A}.
Arguments NoFuel {A}.

#[global] Instance outcome_ret : MRet outcome := @Ok.
#[global] Instance outcome_bind : MBind outcome := λ A B f m,
  match m with
  | Ok a => f a
  | Fault => Fault
  | NoFuel => NoFuel
  end.

(** ** Machine integers *)

Definition u32 (x : Z) : Z := x mod 2 ^ 32.
Definition u64 (x : Z) : Z := x mod 2 ^ 64.
(** [~x] on a [uint64_t]. *)
Definition not64 (x : Z) : Z := u64 (Z.lnot x).

Definition BITSPERWORD : Z := 64.

(** [__builtin_ctzl]: the number of trailing zero bits; undefined on 0,
    where it is never called. *)
Fixpoint pos_ctz (p : positive) : Z :=
  match p with
  | xO q => 1 + pos_ctz q
  | _ => 0
  end.

Definition builtin_ctzl (w : Z) : Z :=
  match w with
  | Zpos p => pos_ctz p
  | _ => 0
  end.

(** ** Arrays *)

Definition load {A : Type} (a : list A) (i : Z) : outcome A :=
  if 0 <=? i then
    match a !! Z.to_nat i with
    | Some v => Ok v
    | None => Fault
    end
  else Fault.

Definition store {A : Type} (a : list A) (i : Z) (v : A) : outcome (list A) :=
  if 0 <=? i then
    match a !! Z.to_nat i with
    | Some _ => Ok (<[Z.to_nat i := v]> a)
    | None => Fault
    end
  else Fault.

(** ** The domain, thread-local state and the collaborators *)

(** [struct p64_cntdomain]. *)
Record p64_cntdomain : Type := mk_cntdomain {
  ncounters : Z;                          (* uint32_t *)
  use_hp : bool;                          (* uint8_t *)
  shared : Z;                             (* uint64_t *: offset into free[] *)
  perthread : list (option (list Z));     (* uint64_t *perthread[MAXTHREADS] *)
  free : list Z                           (* uint64_t free[] *)
}.

Definition set_perthread (pt : list (option (list Z))) (c : p64_cntdomain) :=
  mk_cntdomain (ncounters c) (use_hp c) (shared c) pt (free c).
Definition set_free (f : list Z) (c : p64_cntdomain) :=
  mk_cntdomain (ncounters c) (use_hp c) (shared c) (perthread c) f.

(** [static THREAD_LOCAL struct { int32_t tidx; uint32_t count; } pth]. *)
Record pth_t : Type := mk_pth { tidx : Z; count : Z }.

Definition pth_init : pth_t := mk_pth (-1) 0.

(** One call of [report_error(module, message, context)]. *)
Record error : Type := mk_error { err_module : string; err_msg : string; err_ctx : Z }.

(** Everything outside the domain object that the functions touch. *)
Record globals : Type := mk_globals {
  pth : gmap nat pth_t;                   (* thread-local pth, per thread *)
  thr_idx : list bool;                    (* thread-index allocator: live indices *)
  hazptr_retired : list (list Z);         (* stashes retired to hazard pointers *)
  qsbr_retired : list (list Z);           (* stashes retired to QSBR *)
  refusals : nat;                         (* retire calls the collaborator will refuse *)
  errors : list error                     (* the error sink, latest first *)
}.

Definition get_pth (self : nat) (g : globals) : pth_t :=
  default pth_init (pth g !! self).

Definition set_pth (self : nat) (p : pth_t) (g : globals) : globals :=
  mk_globals (<[self := p]> (pth g)) (thr_idx g) (hazptr_retired g)
             (qsbr_retired g) (refusals g) (errors g).
Definition set_thr_idx (l : list bool) (g : globals) : globals :=
  mk_globals (pth g) l (hazptr_retired g) (qsbr_retired g) (refusals g) (errors g).

Definition report_error (module msg : string) (ctx : Z) (g : globals) : globals :=
  mk_globals (pth g) (thr_idx g) (hazptr_retired g) (qsbr_retired g) (refusals g)
             (mk_error module msg ctx :: errors g).

Definition report_invalid_counter (cntid : Z) (g : globals) : globals :=
  report_error "counter" "invalid counter" cntid g.

Definition report_thr_not_registered (g : globals) : globals :=
  report_error "counter" "thread not registered" 0 g.

(** Modelled from the spec: [p64_counter.h] is not among the sources; the
    invalid sentinel is the reserved identifier 0. *)
Definition P64_COUNTER_INVALID : Z := 0.

(** Modelled from the spec: the thread-index allocator ([thr_idx.h]) is not
    among the sources.  [allocate() -> small_integer] hands out an index
    that no live registration holds, below the fixed maximum; the lowest one
    is taken here, and -1 when every index is live. *)
Fixpoint first_free (live : list bool) (i : Z) : Z :=
  match live with
  | [] => -1
  | b :: rest => if b then first_free rest (i + 1) else i
  end.

Definition p64_idx_alloc (g : globals) : Z * globals :=
  let i := first_free (thr_idx g) 0 in
  if i <? 0 then (i, g)
  else (i, set_thr_idx (<[Z.to_nat i := true]> (thr_idx g)) g).

(** Modelled from the spec: [release(small_integer)] of the thread-index
    allocator. *)
Definition p64_idx_free (i : Z) (g : globals) : globals :=
  set_thr_idx (<[Z.to_nat i := false]> (thr_idx g)) g.

(** Modelled from the spec: [retire(pointer, destructor) -> accepted] of the
    two reclamation engines ([p64_hazardptr.h], [p64_qsbr.h]).  The engine
    refuses [refusals g] calls and then accepts; an accepted stash is owned
    by the engine. *)
Definition p64_hazptr_retire (counters : list Z) (g : globals) : bool * globals :=
  match refusals g with
  | O => (true, mk_globals (pth g) (thr_idx g) (counters :: hazptr_retired g)
                           (qsbr_retired g) O (errors g))
  | S n => (false, mk_globals (pth g) (thr_idx g) (hazptr_retired g)
                              (qsbr_retired g) n (errors g))
  end.

Definition p64_qsbr_retire (counters : list Z) (g : globals) : bool * globals :=
  match refusals g with
  | O => (true, mk_globals (pth g) (thr_idx g) (hazptr_retired g)
                           (counters :: qsbr_retired g) O (errors g))
  | S n => (false, mk_globals (pth g) (thr_idx g) (hazptr_retired g)
                              (qsbr_retired g) n (errors g))
  end.

(** Modelled from the spec: [acquire(slotAddress, guard) -> pointer_or_null]
    of the hazard-pointer engine returns the slot's current content. *)
Definition p64_hazptr_acquire (slot : option (list Z)) : option (list Z) := slot.

(** [while (!retire(counters, p64_mfree)) doze();] *)
Fixpoint retire_until_accepted (fuel : nat)
    (retire : list Z → globals → bool * globals)
    (counters : list Z) (g : globals) : outcome globals :=
  match fuel with
  | O => NoFuel
  | S fuel' =>
      let '(accepted, g') := retire counters g in
      if accepted then Ok g' else retire_until_accepted fuel' retire counters g'
  end.

(** ** The functions of [p64_counter.c] *)

Section Counter.

(** [build_config.h] and [p64_counter.h] are not among the sources: the table
    size and the hazard-pointer flag are parameters. *)
Variable MAXTHREADS : nat.
Variable P64_COUNTER_F_HP : Z.

Definition VALID_FLAGS : Z := P64_COUNTER_F_HP.

Definition globals_init : globals :=
  mk_globals ∅ (replicate MAXTHREADS false) [] [] O [].

(** The loop of [p64_cntdomain_alloc] that marks all counters as free. *)
Fixpoint mark_free (fuel : nat) (ncounters b : Z) (free : list Z) : outcome (list Z) :=
  match fuel with
  | O => NoFuel
  | S fuel' =>
      if b <? ncounters then
        if u32 (b + BITSPERWORD) <=? ncounters then
          free' ← store free (b / BITSPERWORD) (not64 0);
          mark_free fuel' ncounters (u32 (b + BITSPERWORD)) free'
        else
          w ← load free (b / BITSPERWORD);
          free' ← store free (b / BITSPERWORD)
                    (Z.lor w (u64 (Z.shiftl 1 (b mod BITSPERWORD))));
          mark_free fuel' ncounters (u32 (b + 1)) free'
      else Ok free
  end.

(** The result is the handle, [None] for [NULL].  [malloc_ok] tells whether
    [p64_malloc] succeeds. *)
Definition p64_cntdomain_alloc (fuel : nat) (ncounters flags : Z)
    (malloc_ok : bool) (g : globals) : outcome (option p64_cntdomain * globals) :=
  if negb (Z.land flags (Z.lnot VALID_FLAGS) =? 0) then
    Ok (None, report_error "counter" "invalid flags" flags g)
  else
    let ncounters := u32 (ncounters + 1) in
    let nwords := u32 (ncounters + BITSPERWORD - 1) / BITSPERWORD in
    (* nbytes = sizeof(p64_cntdomain_t) + (nwords + ncounters) * 8 *)
    let nelems := u32 (nwords + ncounters) in
    if malloc_ok then
      let free0 := replicate (Z.to_nat nelems) 0 in
      free1 ← mark_free fuel ncounters 0 free0;
      w ← load free1 0;
      free2 ← store free1 0 (Z.land w (not64 1));
      Ok (Some (mk_cntdomain ncounters (negb (Z.land flags P64_COUNTER_F_HP =? 0))
                             nwords (replicate MAXTHREADS None) free2), g)
    else Ok (None, g).

(** The loop of [p64_cntdomain_free] over the per-thread table: is any slot
    occupied? *)
Fixpoint any_registered (n : nat) (i : Z) (pt : list (option (list Z))) : outcome bool :=
  match n with
  | O => Ok false
  | S n' =>
      slot ← load pt i;
      match slot with
      | Some _ => Ok true
      | None => any_registered n' (i + 1) pt
      end
  end.

(** The result is what is left of the domain: [None] once it is released. *)
Definition p64_cntdomain_free (cntd : p64_cntdomain) (g : globals)
    : outcome (option p64_cntdomain * globals) :=
  busy ← any_registered MAXTHREADS 0 (perthread cntd);
  if busy : bool then Ok (Some cntd, report_error "counter" "threads still registered" 0 g)
  else Ok (None, g).

Definition p64_cntdomain_register (self : nat) (malloc_ok : bool)
    (cntd : p64_cntdomain) (g : globals) : outcome (p64_cntdomain * globals) :=
  let p := get_pth self g in
  (* pth.count++ == 0 *)
  let g1 := set_pth self (mk_pth (tidx p) (u32 (count p + 1))) g in
  let g2 :=
    if count p =? 0 then
      let '(i, g') := p64_idx_alloc g1 in
      set_pth self (mk_pth i (count (get_pth self g'))) g'
    else g1 in
  slot ← load (perthread cntd) (tidx (get_pth self g2));
  match slot with
  | Some _ => Ok (cntd, report_thr_not_registered g2)
  | None =>
      if malloc_ok then
        let counters := replicate (Z.to_nat (ncounters cntd)) 0 in
        pt ← store (perthread cntd) (tidx (get_pth self g2)) (Some counters);
        Ok (set_perthread pt cntd, g2)
      else
        (* the context is the domain pointer, which has no value here: 0 *)
        Ok (cntd, report_error "counter" "failed to allocate private stash" 0 g2)
  end.

(** The loop of [p64_cntdomain_unregister] that moves the private counters
    to the shared locations; [n] iterations are left, [i] is the index. *)
Fixpoint merge (n : nat) (i : Z) (shared : Z) (counters free : list Z)
    : outcome (list Z * list Z) :=
  match n with
  | O => Ok (counters, free)
  | S n' =>
      c ← load counters i;
      (* uint32_t val = counters[i]; *)
      let val := u32 c in
      if negb (val =? 0) then
        counters' ← store counters i 0;
        old ← load free (shared + i);
        free' ← store free (shared + i) (u64 (old + val));
        merge n' (i + 1) shared counters' free'
      else merge n' (i + 1) shared counters free
  end.

Definition p64_cntdomain_unregister (self : nat)
    (cntd : p64_cntdomain) (g : globals) : outcome (p64_cntdomain * globals) :=
  let p := get_pth self g in
  if count p =? 0 then Ok (cntd, report_thr_not_registered g)
  else
    slot ← load (perthread cntd) (tidx p);
    match slot with
    | None => Ok (cntd, report_thr_not_registered g)
    | Some counters =>
        '(counters', free') ← merge (Z.to_nat (ncounters cntd)) 0 (shared cntd)
                                    counters (free cntd);
        (* unpublish *)
        pt ← store (perthread cntd) (tidx p) None;
        (* retire *)
        g1 ← retire_until_accepted (S (refusals g))
               (if use_hp cntd then p64_hazptr_retire else p64_qsbr_retire)
               counters' g;
        (* --pth.count == 0 *)
        let c := u32 (count p - 1) in
        let g2 :=
          if c =? 0 then set_pth self (mk_pth (-1) c) (p64_idx_free (tidx p) g1)
          else set_pth self (mk_pth (tidx p) c) g1 in
        Ok (set_perthread pt (set_free free' cntd), g2)
    end.

(** The [while (w != 0)] loop of [p64_counter_alloc] on word [i]: [None]
    when the word is observed fully used. *)
Fixpoint claim_bit (fuel : nat) (i w : Z) (cntd : p64_cntdomain)
    : outcome (option (Z * p64_cntdomain)) :=
  match fuel with
  | O => NoFuel
  | S fuel' =>
      if negb (w =? 0) then
        let b := builtin_ctzl w in
        (* __atomic_compare_exchange_n(&free[i], &w, w & ~(1 << b)) *)
        cur ← load (free cntd) i;
        if cur =? w then
          free1 ← store (free cntd) i (Z.land w (not64 (Z.shiftl 1 b)));
          let cntid := u32 (i * BITSPERWORD + b) in
          free2 ← store free1 (shared cntd + cntid) 0;
          Ok (Some (cntid, set_free free2 cntd))
        else claim_bit fuel' i cur cntd
      else Ok None
  end.

(** The [for] loop of [p64_counter_alloc] over the bitmap words. *)
Fixpoint scan_words (fuel : nat) (n : nat) (i : Z) (cntd : p64_cntdomain)
    : outcome (Z * p64_cntdomain) :=
  match n with
  | O => Ok (P64_COUNTER_INVALID, cntd)
  | S n' =>
      w ← load (free cntd) i;
      r ← claim_bit fuel i w cntd;
      match r with
      | Some res => Ok res
      | None => scan_words fuel n' (i + 1) cntd
      end
  end.

Definition p64_counter_alloc (fuel : nat) (cntd : p64_cntdomain)
    : outcome (Z * p64_cntdomain) :=
  let nwords := u32 (ncounters cntd + BITSPERWORD - 1) / BITSPERWORD in
  scan_words fuel (Z.to_nat nwords) 0 cntd.

Definition invalid_cntid (cntd : p64_cntdomain) (cntid : Z) : bool :=
  (cntid =? P64_COUNTER_INVALID) || (ncounters cntd <=? cntid).

Definition p64_counter_free (cntid : Z) (cntd : p64_cntdomain) (g : globals)
    : outcome (p64_cntdomain * globals) :=
  if invalid_cntid cntd cntid then Ok (cntd, report_invalid_counter cntid g)
  else
    w ← load (free cntd) (cntid / BITSPERWORD);
    if negb (Z.land w (u64 (Z.shiftl 1 (cntid mod BITSPERWORD))) =? 0) then
      Ok (cntd, report_error "counter" "counter already free" cntid g)
    else
      free' ← store (free cntd) (cntid / BITSPERWORD)
                (Z.lor w (u64 (Z.shiftl 1 (cntid mod BITSPERWORD))));
      Ok (set_free free' cntd, g).

Definition p64_counter_add (self : nat) (cntid val : Z)
    (cntd : p64_cntdomain) (g : globals) : outcome (p64_cntdomain * globals) :=
  if count (get_pth self g) =? 0 then Ok (cntd, report_thr_not_registered g)
  else if invalid_cntid cntd cntid then Ok (cntd, report_invalid_counter cntid g)
  else
    slot ← load (perthread cntd) (tidx (get_pth self g));
    match slot with
    | None => Fault                          (* counters == NULL *)
    | Some counters =>
        old ← load counters cntid;
        counters' ← store counters cntid (u64 (old + val));
        pt ← store (perthread cntd) (tidx (get_pth self g)) (Some counters');
        Ok (set_perthread pt cntd, g)
    end.

(** The loop of [p64_counter_read] over the per-thread table. *)
Fixpoint sum_private (n : nat) (t : Z) (cntid : Z) (cntd : p64_cntdomain) (sum : Z)
    : outcome Z :=
  match n with
  | O => Ok sum
  | S n' =>
      slot ← load (perthread cntd) t;
      let counters :=
        if negb (use_hp cntd) then slot else p64_hazptr_acquire slot in
      match counters with
      | Some c =>
          v ← load c cntid;
          sum_private n' (t + 1) cntid cntd (u64 (sum + v))
      | None => sum_private n' (t + 1) cntid cntd sum
      end
  end.

(** One traversal of the [do ... while] body: the values [sh0], [sum] and
    [sh1] it ends with. *)
Definition read_pass (cntd : p64_cntdomain) (cntid : Z) : outcome (Z * Z * Z) :=
  sh0 ← load (free cntd) (shared cntd + cntid);
  sum ← sum_private MAXTHREADS 0 cntid cntd sh0;
  sh1 ← load (free cntd) (shared cntd + cntid);
  Ok (sh0, sum, sh1).

(** [do { ... } while (sh0 != sh1);] *)
Fixpoint read_loop (fuel : nat) (cntd : p64_cntdomain) (cntid : Z) : outcome Z :=
  match fuel with
  | O => NoFuel
  | S fuel' =>
      '(sh0, sum, sh1) ← read_pass cntd cntid;
      if negb (sh0 =? sh1) then read_loop fuel' cntd cntid else Ok sum
  end.

Definition p64_counter_read (fuel : nat) (cntid : Z)
    (cntd : p64_cntdomain) (g : globals) : outcome (Z * globals) :=
  if invalid_cntid cntd cntid then Ok (0, report_invalid_counter cntid g)
  else
    sum ← read_loop fuel cntd cntid;
    Ok (sum, g).

Definition p64_counter_reset (fuel : nat) (cntid : Z)
    (cntd : p64_cntdomain) (g : globals) : outcome (p64_cntdomain * globals) :=
  if invalid_cntid cntd cntid then Ok (cntd, report_invalid_counter cntid g)
  else
    '(cur, g') ← p64_counter_read fuel cntid cntd g;
    old ← load (free cntd) (shared cntd + cntid);
    free' ← store (free cntd) (shared cntd + cntid) (u64 (old - cur));
    Ok (set_free free' cntd, g').

End Counter.

(** ** Sequences of calls on one domain *)

Inductive call : Type :=
| CRegister (self : nat) (malloc_ok : bool)
| CUnregister (self : nat)
| CAlloc
| CFree (cntid : Z)
| CAdd (self : nat) (cntid val : Z)
| CRead (cntid : Z)
| CReset (cntid : Z).

Definition state : Type := p64_cntdomain * globals.

Section Run.

Variable MAXTHREADS : nat.
Variable fuel : nat.

(** One call and the value it returns (0 for a [void] function). *)
Definition exec (c : call) (s : state) : outcome (Z * state) :=
  let '(cntd, g) := s in
  match c with
  | CRegister self malloc_ok =>
      s' ← p64_cntdomain_register self malloc_ok cntd g; Ok (0, s')
  | CUnregister self =>
      s' ← p64_cntdomain_unregister self cntd g; Ok (0, s')
  | CAlloc =>
      '(cntid, cntd') ← p64_counter_alloc fuel cntd; Ok (cntid, (cntd', g))
  | CFree cntid =>
      s' ← p64_counter_free cntid cntd g; Ok (0, s')
  | CAdd self cntid val =>
      s' ← p64_counter_add self cntid val cntd g; Ok (0, s')
  | CRead cntid =>
      '(v, g') ← p64_counter_read MAXTHREADS fuel cntid cntd g; Ok (v, (cntd, g'))
  | CReset cntid =>
      s' ← p64_counter_reset MAXTHREADS fuel cntid cntd g; Ok (0, s')
  end.

Fixpoint run (cs : list call) (s : state) : outcome (list Z * state) :=
  match cs with
  | [] => Ok ([], s)
  | c :: cs' =>
      '(v, s1) ← exec c s;
      '(vs, s2) ← run cs' s1;
      Ok (v :: vs, s2)
  end.

(** The calls run on the domain that [p64_cntdomain_alloc] creates. *)
Definition run_fresh (P64_COUNTER_F_HP capacity flags : Z) (cs : list call)
    : outcome (list Z * state) :=
  '(h, g) ← p64_cntdomain_alloc MAXTHREADS P64_COUNTER_F_HP fuel capacity flags true
              (globals_init MAXTHREADS);
  match h with
  | Some cntd => run cs (cntd, g)
  | None => Fault
  end.

End Run.

(** ** Calls that overlap

    [p64_cntdomain_unregister] and [p64_counter_reset] are sequences of
    atomic accesses, and a stash stays published while its owner moves it to
    the shared locations.  These are the accesses between which another
    thread can run. *)

(** Lines 155-160 at index [i], by the owner [self] of the stash: the entry
    is loaded and truncated, and zeroed in place if [val] is not 0.  The
    result is [val] and the domain with the stash as the other threads see
    it from now on. *)
Definition unregister_zero (self : nat) (i : Z) (cntd : p64_cntdomain) (g : globals)
    : outcome (Z * p64_cntdomain) :=
  slot ← load (perthread cntd) (tidx (get_pth self g));
  match slot with
  | None => Fault
  | Some counters =>
      c ← load counters i;
      (* uint32_t val = counters[i]; *)
      let val := u32 c in
      if negb (val =? 0) then
        counters' ← store counters i 0;
        pt ← store (perthread cntd) (tidx (get_pth self g)) (Some counters');
        Ok (val, set_perthread pt cntd)
      else Ok (val, cntd)
  end.

(** Line 161: [__atomic_fetch_add(&cntd->shared[i], val, __ATOMIC_RELAXED)]. *)
Definition fetch_add_shared (i val : Z) (cntd : p64_cntdomain) : outcome p64_cntdomain :=
  old ← load (free cntd) (shared cntd + i);
  free' ← store (free cntd) (shared cntd + i) (u64 (old + val));
  Ok (set_free free' cntd).

(** Lines 153-186 from index [i] on, by the owner of a published stash: the
    iterations of the loop that are left, then unpublish, retire and
    decrement as in [p64_cntdomain_unregister]. *)
Definition unregister_from (self : nat) (i : Z) (cntd : p64_cntdomain) (g : globals)
    : outcome (p64_cntdomain * globals) :=
  let p := get_pth self g in
  slot ← load (perthread cntd) (tidx p);
  match slot with
  | None => Fault
  | Some counters =>
      '(counters', free') ← merge (Z.to_nat (ncounters cntd - i)) i (shared cntd)
                                  counters (free cntd);
      pt ← store (perthread cntd) (tidx p) None;
      g1 ← retire_until_accepted (S (refusals g))
             (if use_hp cntd then p64_hazptr_retire else p64_qsbr_retire)
             counters' g;
      let c := u32 (count p - 1) in
      let g2 :=
        if c =? 0 then set_pth self (mk_pth (-1) c) (p64_idx_free (tidx p) g1)
        else set_pth self (mk_pth (tidx p) c) g1 in
      Ok (set_perthread pt (set_free free' cntd), g2)
  end.

(** Line 317: [__atomic_fetch_sub(&cntd->shared[cntid], cur, __ATOMIC_RELAXED)]. *)
Definition fetch_sub_shared (cntid cur : Z) (cntd : p64_cntdomain) : outcome p64_cntdomain :=
  old ← load (free cntd) (shared cntd + cntid);
  free' ← store (free cntd) (shared cntd + cntid) (u64 (old - cur));
  Ok (set_free free' cntd).


(** ** Predicates on domains *)

Definition word64 (w : Z) : Prop := 0 ≤ w < 2 ^ 64.

(** The number of bitmap words of a domain with [nc] identifiers, as both
    [p64_cntdomain_alloc] and [p64_counter_alloc] compute it. *)
Definition nwords_of (nc : Z) : Z := u32 (nc + BITSPERWORD - 1) / BITSPERWORD.

(** Bit [p] of the array of words [f]: is identifier [p] free? *)
Definition freebit (f : list Z) (p : Z) : bool :=
  Z.testbit (default 0 (f !! Z.to_nat (p / BITSPERWORD))) (p mod BITSPERWORD).

(** The word of the shared accumulator for identifier [cntid]. *)
Definition shared_at (cntd : p64_cntdomain) (cntid : Z) : Z :=
  default 0 (free cntd !! Z.to_nat (shared cntd + cntid)).

(** What the published stashes hold for identifier [cntid], summed. *)
Fixpoint private_total (pt : list (option (list Z))) (cntid : Z) : Z :=
  match pt with
  | [] => 0
  | Some c :: rest => default 0 (c !! Z.to_nat cntid) + private_total rest cntid
  | None :: rest => private_total rest cntid
  end.

(** The stash as the loop of [p64_cntdomain_unregister] leaves it (lines
    155-160): an entry is zeroed unless its low 32 bits are 0. *)
Definition merged (counters : list Z) : list Z :=
  (λ c, if u32 c =? 0 then c else 0) <$> counters.

(** The total a read reports. *)
Definition total (cntd : p64_cntdomain) (cntid : Z) : Z :=
  u64 (shared_at cntd cntid + private_total (perthread cntd) cntid).

(** The layout that [p64_cntdomain_alloc] sets up and every call keeps. *)
Record wf_cntdomain (MAXTHREADS : nat) (cntd : p64_cntdomain) : Prop := mk_wf {
  wf_ncounters : 0 < ncounters cntd ≤ 2 ^ 32 - 64;
  wf_shared : shared cntd = nwords_of (ncounters cntd);
  wf_length : Z.of_nat (length (free cntd)) = shared cntd + ncounters cntd;
  wf_words : Forall word64 (free cntd);
  wf_table : length (perthread cntd) = MAXTHREADS;
  wf_stash : ∀ t c, perthread cntd !! t = Some (Some c) →
               Z.of_nat (length c) = ncounters cntd ∧ Forall word64 c
}.

(** In the bitmap only identifiers from 1 to [ncounters - 1] are marked
    free: bit 0 is clear and no bit at or beyond [ncounters] is set. *)
Definition bitmap_ok (cntd : p64_cntdomain) : Prop :=
  ∀ p, 0 ≤ p < BITSPERWORD * shared cntd →
       freebit (free cntd) p = true → 1 ≤ p < ncounters cntd.

(** The bitmap marks exactly the identifiers from [lo] to [hi] as free. *)
Definition bitmap_is (cntd : p64_cntdomain) (lo hi : Z) : Prop :=
  ∀ p, 0 ≤ p < BITSPERWORD * shared cntd →
       (freebit (free cntd) p = true ↔ lo ≤ p ≤ hi).

(** The invariant of the marking loop on a domain of [nc] identifiers whose
    block has [len] words: exactly the bits below [b] are set. *)
Definition marked (nc len b : Z) (f : list Z) : Prop :=
  0 ≤ b ≤ nc ∧
  Z.of_nat (length f) = len ∧
  (b + 63) / 64 ≤ len ∧
  Forall word64 f ∧
  (∀ p, 0 ≤ p → freebit f p = (p <? b)) ∧
  (b mod 64 = 0 ∨ nc < b + 64).

(** [p64_counter_alloc] takes [cntid] out of the bitmap of [cntd]: it was
    the lowest free identifier, only its bit and its accumulator word
    change. *)
Definition claims (cntd : p64_cntdomain) (cntid : Z) (cntd' : p64_cntdomain) : Prop :=
  1 ≤ cntid < ncounters cntd ∧
  freebit (free cntd) cntid = true ∧
  (∀ p, 0 ≤ p < cntid → freebit (free cntd) p = false) ∧
  ncounters cntd' = ncounters cntd ∧
  use_hp cntd' = use_hp cntd ∧
  shared cntd' = shared cntd ∧
  perthread cntd' = perthread cntd ∧
  length (free cntd') = length (free cntd) ∧
  Forall word64 (free cntd') ∧
  (∀ p, 0 ≤ p < BITSPERWORD * shared cntd →
        freebit (free cntd') p = freebit (free cntd) p && negb (p =? cntid)) ∧
  shared_at cntd' cntid = 0 ∧
  (∀ j, 0 ≤ j → j ≠ cntid → shared_at cntd' j = shared_at cntd j).

(** [p64_counter_free] puts [cntid] back: it was in use, only its bit
    changes. *)
Definition releases (cntd : p64_cntdomain) (cntid : Z) (cntd' : p64_cntdomain) : Prop :=
  1 ≤ cntid < ncounters cntd ∧
  freebit (free cntd) cntid = false ∧
  ncounters cntd' = ncounters cntd ∧
  use_hp cntd' = use_hp cntd ∧
  shared cntd' = shared cntd ∧
  perthread cntd' = perthread cntd ∧
  length (free cntd') = length (free cntd) ∧
  Forall word64 (free cntd') ∧
  (∀ p, 0 ≤ p < BITSPERWORD * shared cntd →
        freebit (free cntd') p = freebit (free cntd) p || (p =? cntid)) ∧
  (∀ j, 0 ≤ j → shared_at cntd' j = shared_at cntd j).

(** The domains reached from creation by [p64_counter_alloc] and
    [p64_counter_free] calls. *)
Inductive reachable (MAXTHREADS : nat) (P64_COUNTER_F_HP : Z) : p64_cntdomain → Prop :=
| reach_create fuel capacity flags g cntd g' :
    0 ≤ capacity < 2 ^ 32 →
    p64_cntdomain_alloc MAXTHREADS P64_COUNTER_F_HP fuel capacity flags true g
      = Ok (Some cntd, g') →
    reachable MAXTHREADS P64_COUNTER_F_HP cntd
| reach_alloc fuel cntd cntid cntd' :
    reachable MAXTHREADS P64_COUNTER_F_HP cntd →
    p64_counter_alloc fuel cntd = Ok (cntid, cntd') →
    reachable MAXTHREADS P64_COUNTER_F_HP cntd'
| reach_free cntid cntd g cntd' g' :
    reachable MAXTHREADS P64_COUNTER_F_HP cntd →
    p64_counter_free cntid cntd g = Ok (cntd', g') →
    reachable MAXTHREADS P64_COUNTER_F_HP cntd'.

(** A call that is neither [p64_counter_alloc] nor [p64_counter_free] of
    another identifier than [cntid] is excluded. *)
Definition keeps_claimed (cntid : Z) (c : call) : Prop :=
  match c with
  | CAlloc => True
  | CFree x => x ≠ cntid
  | _ => False
  end.

(** The arguments of a call fit their C types. *)
Definition call_ok (c : call) : Prop :=
  match c with
  | CFree cntid | CRead cntid | CReset cntid => 0 ≤ cntid < 2 ^ 32
  | CAdd _ cntid val => 0 ≤ cntid < 2 ^ 32 ∧ 0 ≤ val < 2 ^ 64
  | _ => True
  end.

(** What every call keeps: the layout and the bounds of the bitmap. *)
Definition invariant (MAXTHREADS : nat) (s : state) : Prop :=
  wf_cntdomain MAXTHREADS s.1 ∧ bitmap_ok s.1.

(** ** Concrete domains and call sequences *)

Definition tA : nat := 0%nat.
Definition tB : nat := 1%nat.

(** The domain of capacity 4 as [p64_cntdomain_alloc] leaves it. *)
Definition fresh4 : p64_cntdomain :=
  mk_cntdomain 5 false 1 [None; None; None; None] [30; 0; 0; 0; 0; 0].

(** Threads A and B registered, with 5 and 7 on counter 1. *)
Definition two_threads : state :=
  (mk_cntdomain 5 false 1 [Some [0; 5; 0; 0; 0]; Some [0; 7; 0; 0; 0]; None; None]
                [28; 0; 0; 0; 0; 0],
   mk_globals (<[tB := mk_pth 1 1]> (<[tA := mk_pth 0 1]> ∅))
              [true; true; false; false] [] [] O []).

(** Thread A registered twice on the domain, with 5 on counter 1. *)
Definition nested : state :=
  (mk_cntdomain 5 false 1 [Some [0; 5; 0; 0; 0]; None; None; None]
                [28; 0; 0; 0; 0; 0],
   mk_globals (<[tA := mk_pth 0 2]> ∅) [true; false; false; false] [] [] O
              [mk_error "counter" "thread not registered" 0]).

(** The end-to-end scenario: allocate, two threads add 5 and 7, read, A
    unregisters, read, reset, read, free, allocate again, read. *)
Definition scenario : list call :=
  [CAlloc; CRegister tA true; CAdd tA 1 5; CRegister tB true; CAdd tB 1 7;
   CRead 1; CUnregister tA; CRead 1; CReset 1; CRead 1; CFree 1; CAlloc; CRead 1].

(** A domain of capacity 4 with [2 + n] thread slots, of which at most the
    first two are occupied, and the state around it. *)
Definition with_threads (n : nat) (a b : option (list Z)) (f : list Z) : p64_cntdomain :=
  mk_cntdomain 5 false 1 (a :: b :: replicate n None) f.

Definition globals_of (n : nat) (p : gmap nat pth_t) (a b : bool)
    (retired : list (list Z)) : globals :=
  mk_globals p (a :: b :: replicate n false) [] retired O [].

Definition slot_ok (s : option (list Z)) : Prop :=
  ∀ c, s = Some c → length c = 5%nat ∧ Forall word64 c.

(** What a slot holds for counter 1. *)
Definition stash_at (s : option (list Z)) : Z :=
  from_option (λ c, default 0 (c !! 1%nat)) 0 s.

(** What a slot of the per-thread table holds for identifier [cntid]. *)
Definition slot_value (s : option (list Z)) (cntid : Z) : Z :=
  from_option (λ c, default 0 (c !! Z.to_nat cntid)) 0 s.

(** * Proofs *)

(** ** Bits of machine words *)

Section Bits.

Lemma word64_bits w : word64 w ↔ ∀ i, 64 ≤ i → Z.testbit w i = false.
Proof.
  split.
  - intros Hw i Hi. rewrite <- (Z.mod_small w (2 ^ 64)) by exact Hw.
    apply Z.mod_pow2_bits_high. lia.
  - intros Hhi. assert (w = w mod 2 ^ 64) as ->.
    { apply Z.bits_inj'. intros i Hi. rewrite Z.testbit_mod_pow2 by lia.
      destruct (Z.ltb_spec i 64); [reflexivity|]. now rewrite Hhi by lia. }
    apply Z.mod_pos_bound. lia.
Qed.

Lemma word64_u64 x : word64 (u64 x).
Proof. apply Z.mod_pos_bound. lia. Qed.

Lemma u64_word64 w : word64 w → u64 w = w.
Proof. apply Z.mod_small. Qed.

Lemma word64_0 : word64 0.
Proof. unfold word64. lia. Qed.

Lemma testbit_not64_0 i : 0 ≤ i → Z.testbit (not64 0) i = (i <? 64).
Proof.
  intros Hi. unfold not64, u64. rewrite Z.testbit_mod_pow2 by lia.
  rewrite Z.lnot_spec, Z.bits_0 by lia. apply andb_true_r.
Qed.

Lemma testbit_bit64 k i : 0 ≤ k < 64 → 0 ≤ i →
  Z.testbit (u64 (Z.shiftl 1 k)) i = (k =? i).
Proof.
  intros Hk Hi. unfold u64. rewrite Z.testbit_mod_pow2 by lia.
  rewrite Z.shiftl_1_l, Z.pow2_bits_eqb by lia.
  destruct (Z.eqb_spec k i); destruct (Z.ltb_spec i 64); try reflexivity; lia.
Qed.

Lemma testbit_clear64 k i : 0 ≤ k → 0 ≤ i →
  Z.testbit (not64 (Z.shiftl 1 k)) i = (i <? 64) && negb (k =? i).
Proof.
  intros Hk Hi. unfold not64, u64. rewrite Z.testbit_mod_pow2 by lia.
  now rewrite Z.lnot_spec, Z.shiftl_1_l, Z.pow2_bits_eqb by lia.
Qed.

Lemma word64_lor a b : word64 a → word64 b → word64 (Z.lor a b).
Proof.
  rewrite !word64_bits. intros Ha Hb i Hi.
  now rewrite Z.lor_spec, Ha, Hb.
Qed.

Lemma word64_land_l a b : word64 a → word64 (Z.land a b).
Proof.
  rewrite !word64_bits. intros Ha i Hi. now rewrite Z.land_spec, Ha.
Qed.

Lemma word64_zero_bits w :
  word64 w → (∀ i, 0 ≤ i < 64 → Z.testbit w i = false) → w = 0.
Proof.
  intros Hw Hlo. apply Z.bits_inj_0. intros i.
  destruct (Z.lt_ge_cases i 0); [now apply Z.testbit_neg_r|].
  destruct (Z.lt_ge_cases i 64); [apply Hlo; lia|].
  now apply word64_bits.
Qed.

Lemma pos_ctz_nonneg p : 0 ≤ pos_ctz p.
Proof. induction p; simpl; lia. Qed.

Lemma pos_ctz_set p : Z.testbit (Zpos p) (pos_ctz p) = true.
Proof.
  induction p as [q _|q IH|]; simpl pos_ctz; try reflexivity.
  replace (1 + pos_ctz q) with (Z.succ (pos_ctz q)) by lia.
  change (Zpos q~0) with (2 * Zpos q).
  rewrite Z.testbit_even_succ; [exact IH|apply pos_ctz_nonneg].
Qed.

Lemma pos_ctz_lowest p i : 0 ≤ i < pos_ctz p → Z.testbit (Zpos p) i = false.
Proof.
  revert i. induction p as [q _|q IH|]; simpl pos_ctz; intros i Hi; try lia.
  change (Zpos q~0) with (2 * Zpos q).
  destruct (Z.eq_dec i 0) as [->|Hne]; [apply Z.testbit_even_0|].
  replace i with (Z.succ (i - 1)) by lia.
  rewrite Z.testbit_even_succ by lia. apply IH. lia.
Qed.

(** [__builtin_ctzl] finds the lowest set bit of a nonzero word. *)
Lemma builtin_ctzl_spec w :
  word64 w → w ≠ 0 →
  0 ≤ builtin_ctzl w < 64 ∧
  Z.testbit w (builtin_ctzl w) = true ∧
  ∀ i, 0 ≤ i < builtin_ctzl w → Z.testbit w i = false.
Proof.
  intros Hw Hne. destruct w as [|p|p]; [congruence| |unfold word64 in Hw; lia].
  simpl builtin_ctzl. pose proof (pos_ctz_nonneg p) as Hnn.
  pose proof (pos_ctz_set p) as Hset.
  repeat split; [exact Hnn| |exact Hset|apply pos_ctz_lowest].
  destruct (Z.lt_ge_cases (pos_ctz p) 64) as [|Hge]; [assumption|].
  apply word64_bits with (i := pos_ctz p) in Hw; [congruence|exact Hge].
Qed.

End Bits.

(** ** Arrays *)

Ltac Zify.zify_post_hook ::= Z.to_euclidean_division_equations.

Lemma bind_Ok {A B : Type} (m : outcome A) (f : A → outcome B) (b : B) :
  m ≫= f = Ok b ↔ ∃ a, m = Ok a ∧ f a = Ok b.
Proof.
  destruct m as [a| |]; simpl; split; try discriminate.
  - intros H. now exists a.
  - now intros (a' & [= <-] & H).
  - intros (a' & [=] & _).
  - intros (a' & [=] & _).
Qed.

Section Arrays.

Context {A : Type}.
Implicit Types (a : list A) (i : Z) (v : A).

Lemma load_Ok a i v :
  load a i = Ok v ↔ 0 ≤ i < Z.of_nat (length a) ∧ a !! Z.to_nat i = Some v.
Proof.
  unfold load. destruct (Z.leb_spec 0 i) as [Hi|Hi].
  - destruct (a !! Z.to_nat i) as [x|] eqn:Hx.
    + apply lookup_lt_Some in Hx as Hlt. split.
      * intros [= ->]. split; [lia|reflexivity].
      * intros [_ [= ->]]. reflexivity.
    + split; [discriminate|]. intros [_ [=]].
  - split; [discriminate|]. lia.
Qed.

Lemma load_in_range a i :
  0 ≤ i < Z.of_nat (length a) → ∃ v, load a i = Ok v ∧ a !! Z.to_nat i = Some v.
Proof.
  intros Hi. destruct (lookup_lt_is_Some_2 a (Z.to_nat i)) as [v Hv]; [lia|].
  exists v. split; [apply load_Ok; auto|exact Hv].
Qed.

Lemma store_Ok a i v a' :
  store a i v = Ok a' ↔ 0 ≤ i < Z.of_nat (length a) ∧ a' = <[Z.to_nat i := v]> a.
Proof.
  unfold store. destruct (Z.leb_spec 0 i) as [Hi|Hi].
  - destruct (a !! Z.to_nat i) as [x|] eqn:Hx.
    + apply lookup_lt_Some in Hx. split.
      * intros [= <-]. split; [lia|reflexivity].
      * intros [_ ->]. reflexivity.
    + apply lookup_ge_None in Hx. split; [discriminate|lia].
  - split; [discriminate|lia].
Qed.

Lemma store_in_range a i v :
  0 ≤ i < Z.of_nat (length a) → store a i v = Ok (<[Z.to_nat i := v]> a).
Proof. intros Hi. apply store_Ok. auto. Qed.

End Arrays.

Lemma Forall_word64_insert (f : list Z) (k : nat) (w : Z) :
  Forall word64 f → word64 w → Forall word64 (<[k := w]> f).
Proof. intros Hf Hw. now apply Forall_insert. Qed.

Lemma freebit_insert_ne (f : list Z) (k : nat) (w p : Z) :
  Z.to_nat (p / BITSPERWORD) ≠ k → freebit (<[k := w]> f) p = freebit f p.
Proof.
  intros Hne. unfold freebit. now rewrite list_lookup_insert_ne by congruence.
Qed.

Lemma freebit_insert_eq (f : list Z) (k : nat) (w p : Z) :
  (k < length f)%nat → Z.to_nat (p / BITSPERWORD) = k →
  freebit (<[k := w]> f) p = Z.testbit w (p mod BITSPERWORD).
Proof.
  intros Hk <-. unfold freebit. now rewrite list_lookup_insert_eq by exact Hk.
Qed.

Lemma freebit_lookup (f : list Z) (p w : Z) :
  f !! Z.to_nat (p / BITSPERWORD) = Some w →
  freebit f p = Z.testbit w (p mod BITSPERWORD).
Proof. intros Hw. unfold freebit. now rewrite Hw. Qed.

(** ** Domain creation *)

Section Creation.

Lemma mark_free_marked nc len fuel : ∀ b f f',
  nc ≤ 2 ^ 32 - 64 →
  marked nc len b f →
  mark_free fuel nc b f = Ok f' →
  marked nc len nc f'.
Proof.
  induction fuel as [|fuel IH]; intros b f f' Hnc Hm Hrun; [discriminate|].
  destruct Hm as (Hb & Hlen & Hceil & Hw & Hbits & Hphase).
  simpl in Hrun. destruct (Z.ltb_spec b nc) as [Hlt|Hge].
  - assert (u32 (b + BITSPERWORD) = b + 64) as Hwrap
      by (unfold u32, BITSPERWORD; apply Z.mod_small; lia).
    rewrite Hwrap in Hrun.
    destruct (Z.leb_spec (b + 64) nc) as [Hfull|Hpart].
    + destruct (store f (b / BITSPERWORD) (not64 0)) as [f1| |] eqn:Hst;
        try discriminate.
      apply store_Ok in Hst as [Hin ->]. simpl in Hrun.
      assert (b mod 64 = 0) as Hal by lia. unfold BITSPERWORD in *.
      apply (IH _ _ _ Hnc) in Hrun; [exact Hrun|].
      repeat split; try lia.
      * now rewrite length_insert.
      * apply Forall_word64_insert; [exact Hw|apply word64_u64].
      * intros p Hp.
        destruct (Z.eq_dec (p / 64) (b / 64)) as [Heq|Hne].
        -- rewrite freebit_insert_eq by (unfold BITSPERWORD; lia).
           unfold BITSPERWORD. rewrite testbit_not64_0 by lia.
           destruct (Z.ltb_spec (p mod 64) 64), (Z.ltb_spec p (b + 64)); try reflexivity; lia.
        -- rewrite freebit_insert_ne by (unfold BITSPERWORD; lia).
           rewrite Hbits by lia.
           destruct (Z.ltb_spec p b), (Z.ltb_spec p (b + 64)); try reflexivity; lia.
    + destruct (load f (b / BITSPERWORD)) as [w| |] eqn:Hld; try discriminate.
      simpl in Hrun.
      destruct (store f (b / BITSPERWORD) _) as [f1| |] eqn:Hst; try discriminate.
      apply store_Ok in Hst as [Hin ->]. apply load_Ok in Hld as [_ Hld].
      simpl in Hrun. unfold BITSPERWORD in *.
      assert (u32 (b + 1) = b + 1) as Hwrap1
        by (unfold u32; apply Z.mod_small; lia).
      rewrite Hwrap1 in Hrun.
      assert (word64 w) as Hww.
      { rewrite Forall_lookup in Hw. exact (Hw _ _ Hld). }
      apply (IH _ _ _ Hnc) in Hrun; [exact Hrun|].
      repeat split; try lia.
      * now rewrite length_insert.
      * apply Forall_word64_insert; [exact Hw|].
        apply word64_lor; [exact Hww|apply word64_u64].
      * intros p Hp.
        destruct (Z.eq_dec (p / 64) (b / 64)) as [Heq|Hne].
        -- rewrite freebit_insert_eq by (unfold BITSPERWORD; lia).
           unfold BITSPERWORD. rewrite Z.lor_spec, testbit_bit64 by lia.
           specialize (Hbits p Hp). rewrite (freebit_lookup f p w) in Hbits
             by (unfold BITSPERWORD; rewrite Heq; exact Hld).
           unfold BITSPERWORD in Hbits. rewrite Hbits.
           destruct (Z.ltb_spec p b), (Z.ltb_spec p (b + 1)),
             (Z.eqb_spec (b mod 64) (p mod 64)); try reflexivity; lia.
        -- rewrite freebit_insert_ne by (unfold BITSPERWORD; lia).
           rewrite Hbits by lia.
           destruct (Z.ltb_spec p b), (Z.ltb_spec p (b + 1)); try reflexivity; lia.
  - injection Hrun as <-. assert (b = nc) as -> by lia.
    repeat split; try assumption; lia.
Qed.

(** The block as [memset] leaves it: no bit is set. *)
Lemma marked_cleared nc len :
  0 ≤ nc → 0 ≤ len → marked nc len 0 (replicate (Z.to_nat len) 0).
Proof.
  intros Hnc Hlen. repeat split; try lia.
  - rewrite length_replicate. lia.
  - apply Forall_replicate, word64_0.
  - intros p Hp. unfold freebit. destruct (Z.ltb_spec p 0); [lia|].
    destruct (replicate _ _ !! _) as [x|] eqn:Hx; simpl.
    + apply lookup_replicate in Hx as [-> _]. apply Z.bits_0.
    + apply Z.bits_0.
Qed.

(** Beyond [2^32 - 64] identifiers the index [b] wraps around to 0 before it
    reaches [nc]: the loop never ends. *)
Lemma mark_free_cycles nc fuel : ∀ b f f',
  2 ^ 32 - 64 < nc →
  0 ≤ b ≤ 2 ^ 32 - 64 → b mod 64 = 0 →
  mark_free fuel nc b f ≠ Ok f'.
Proof.
  induction fuel as [|fuel IH]; intros b f f' Hnc Hb Hal; [discriminate|].
  simpl. destruct (Z.ltb_spec b nc) as [_|Hge]; [|lia].
  assert (0 ≤ u32 (b + BITSPERWORD) ≤ 2 ^ 32 - 64 ∧ u32 (b + BITSPERWORD) mod 64 = 0)
    as [Hb' Hal'] by (unfold u32, BITSPERWORD; lia).
  destruct (Z.leb_spec (u32 (b + BITSPERWORD)) nc) as [_|Hgt]; [|lia].
  destruct (store f (b / BITSPERWORD) (not64 0)) as [f1| |]; try discriminate.
  simpl. now apply IH.
Qed.

Lemma testbit_not64_1 i : 0 ≤ i → Z.testbit (not64 1) i = (i <? 64) && negb (0 =? i).
Proof. intros Hi. exact (testbit_clear64 0 i (Z.le_refl 0) Hi). Qed.

Section Created.

Variable MAXTHREADS : nat.
Variable P64_COUNTER_F_HP : Z.

(** What [p64_cntdomain_alloc] returns when it returns a domain. *)
Lemma p64_cntdomain_alloc_Some fuel capacity flags ok g cntd g' :
  0 ≤ capacity < 2 ^ 32 →
  p64_cntdomain_alloc MAXTHREADS P64_COUNTER_F_HP fuel capacity flags ok g
    = Ok (Some cntd, g') →
  wf_cntdomain MAXTHREADS cntd ∧
  ncounters cntd = capacity + 1 ∧
  bitmap_is cntd 1 capacity ∧
  perthread cntd = replicate MAXTHREADS None ∧
  g' = g.
Proof.
  intros Hcap. unfold p64_cntdomain_alloc.
  destruct (negb _); [discriminate|]. destruct ok; [|discriminate].
  set (nc := u32 (capacity + 1)).
  set (nw := u32 (nc + BITSPERWORD - 1) / BITSPERWORD).
  set (len := u32 (nw + nc)).
  destruct (mark_free fuel nc 0 (replicate (Z.to_nat len) 0)) as [f1| |] eqn:Hmark;
    try discriminate.
  simpl. destruct (load f1 0) as [w| |] eqn:Hld; try discriminate. simpl.
  destruct (store f1 0 _) as [f2| |] eqn:Hst; try discriminate. simpl.
  intros [= <- <-].
  apply load_Ok in Hld as [Hlen0 Hld]. apply store_Ok in Hst as [_ ->].
  assert (0 ≤ nc < 2 ^ 32) as Hnc by (unfold nc, u32; lia).
  assert (0 ≤ len) as Hlen by (unfold len, u32; lia).
  destruct (Z.lt_ge_cases (2 ^ 32 - 64) nc) as [Hbig|Hsmall].
  { exfalso. revert Hmark. apply mark_free_cycles; [exact Hbig|lia|reflexivity]. }
  pose proof (marked_cleared nc len (proj1 Hnc) Hlen) as Hm0.
  apply (mark_free_marked _ _ _ _ _ _ Hsmall Hm0) in Hmark
    as (_ & Hlen1 & Hceil & Hw1 & Hbits & _).
  assert (nw = (nc + 63) / 64) as Hnw
    by (unfold nw, u32, BITSPERWORD; rewrite Z.mod_small; [f_equal|]; lia).
  assert (nc ≠ 0) as Hnc0.
  { intros H0. rewrite H0 in *. change ((0 + 63) / 64) with 0 in *.
    unfold len, u32 in Hlen1. rewrite Hnw in Hlen1. simpl in Hlen1. lia. }
  assert (len = nw + nc) as Hlen2 by (unfold len, u32 in *; lia).
  assert (nc = capacity + 1) as Hcapnc by (unfold nc, u32 in *; lia).
  assert (word64 w) as Hww by (rewrite Forall_lookup in Hw1; exact (Hw1 _ _ Hld)).
  split.
  { constructor; simpl.
    - lia.
    - reflexivity.
    - rewrite length_insert. lia.
    - apply Forall_word64_insert; [exact Hw1|]. now apply word64_land_l.
    - apply length_replicate.
    - intros t c [[=] _]%lookup_replicate. }
  split; [simpl; lia|]. split; [|split; reflexivity].
  intros p Hp. simpl in Hp |- *.
  assert (freebit (<[Z.to_nat 0 := Z.land w (not64 1)]> f1) p
          = (1 <=? p) && (p <? nc)) as ->.
  { destruct (Z.eq_dec (p / 64) 0) as [Heq|Hne].
    - rewrite freebit_insert_eq by (unfold BITSPERWORD; lia).
      rewrite Z.land_spec, testbit_not64_1 by (unfold BITSPERWORD; lia).
      rewrite <- (freebit_lookup f1 p w)
        by (unfold BITSPERWORD; rewrite Heq; exact Hld).
      rewrite Hbits by lia. unfold BITSPERWORD.
      destruct (Z.ltb_spec p nc), (Z.ltb_spec (p mod 64) 64),
        (Z.eqb_spec 0 (p mod 64)), (Z.leb_spec 1 p); try reflexivity; lia.
    - rewrite freebit_insert_ne by (unfold BITSPERWORD; lia).
      rewrite Hbits by lia.
      destruct (Z.leb_spec 1 p); [reflexivity|lia]. }
  rewrite andb_true_iff, Z.leb_le, Z.ltb_lt. lia.
Qed.

End Created.

(** With room for every bitmap word the marking loop ends. *)
Lemma mark_free_total nc fuel : ∀ b f,
  nc ≤ 2 ^ 32 - 64 →
  0 ≤ b ≤ nc → b mod 64 = 0 ∨ nc < b + 64 →
  (nc + 63) / 64 ≤ Z.of_nat (length f) →
  (Z.to_nat (nc - b) < fuel)%nat →
  ∃ f', mark_free fuel nc b f = Ok f'.
Proof.
  induction fuel as [|fuel IH]; intros b f Hnc Hb Hphase Hlen Hfuel; [lia|].
  cbn [mark_free]. destruct (Z.ltb_spec b nc) as [Hlt|Hge]; [|eauto].
  assert (u32 (b + BITSPERWORD) = b + 64) as ->
    by (unfold u32, BITSPERWORD; apply Z.mod_small; lia).
  unfold BITSPERWORD.
  destruct (Z.leb_spec (b + 64) nc) as [Hfull|Hpart].
  - rewrite store_in_range by lia. cbn [mbind outcome_bind].
    apply IH; rewrite ?length_insert; lia.
  - destruct (load_in_range f (b / 64)) as (w & -> & _); [lia|].
    cbn [mbind outcome_bind]. rewrite store_in_range by lia.
    cbn [mbind outcome_bind].
    assert (u32 (b + 1) = b + 1) as -> by (unfold u32; apply Z.mod_small; lia).
    apply IH; rewrite ?length_insert; lia.
Qed.

(** Creation returns a domain whenever the flags are valid, the allocation
    succeeds and the words of bitmap and accumulator together are fewer than
    [2^32]. *)
Lemma p64_cntdomain_alloc_total MAXTHREADS P64_COUNTER_F_HP capacity flags g :
  0 ≤ capacity →
  capacity + 1 + (capacity + 64) / 64 < 2 ^ 32 →
  Z.land flags (Z.lnot P64_COUNTER_F_HP) = 0 →
  ∃ cntd,
    p64_cntdomain_alloc MAXTHREADS P64_COUNTER_F_HP (S (Z.to_nat (capacity + 1))) capacity flags true g
      = Ok (Some cntd, g).
Proof.
  intros Hcap Hroom Hflags. unfold p64_cntdomain_alloc, VALID_FLAGS.
  rewrite Hflags. cbn [Z.eqb negb].
  assert (u32 (capacity + 1) = capacity + 1) as ->
    by (unfold u32; apply Z.mod_small; lia).
  assert (u32 (capacity + 1 + BITSPERWORD - 1) / BITSPERWORD = (capacity + 64) / 64) as ->
    by (unfold u32, BITSPERWORD; rewrite Z.mod_small; [f_equal|]; lia).
  assert (u32 ((capacity + 64) / 64 + (capacity + 1)) = (capacity + 64) / 64 + (capacity + 1))
    as -> by (unfold u32; apply Z.mod_small; lia).
  destruct (mark_free_total (capacity + 1) (S (Z.to_nat (capacity + 1))) 0
              (replicate (Z.to_nat ((capacity + 64) / 64 + (capacity + 1))) 0))
    as (f1 & Hmark); try lia.
  { rewrite length_replicate. lia. }
  rewrite Hmark. cbn [mbind outcome_bind].
  assert (Z.of_nat (length f1) = (capacity + 64) / 64 + (capacity + 1)) as Hlen.
  { eapply mark_free_marked in Hmark as (_ & Hlen & _);
      [exact Hlen|lia|apply marked_cleared; lia]. }
  destruct (load_in_range f1 0) as (w & -> & _); [lia|].
  cbn [mbind outcome_bind]. rewrite store_in_range by lia.
  cbn [mbind outcome_bind]. eauto.
Qed.

End Creation.

(** ** The slot allocator *)

Section Allocator.

Variable MAXTHREADS : nat.

Lemma wf_shared_bounds cntd :
  wf_cntdomain MAXTHREADS cntd →
  0 < shared cntd ∧ ncounters cntd ≤ BITSPERWORD * shared cntd ∧
  shared cntd ≤ 2 ^ 26.
Proof.
  intros [Hnc Hsh _ _ _ _]. rewrite Hsh.
  unfold nwords_of, u32, BITSPERWORD. lia.
Qed.

Lemma wf_word cntd i w :
  wf_cntdomain MAXTHREADS cntd → free cntd !! i = Some w → word64 w.
Proof.
  intros Hwf Hw. pose proof (wf_words _ _ Hwf) as Hall.
  rewrite Forall_lookup in Hall. exact (Hall _ _ Hw).
Qed.

(** The compare-and-swap on a word just loaded succeeds at once and claims
    the word's lowest set bit. *)
Lemma claim_bit_claims fuel cntd i w :
  wf_cntdomain MAXTHREADS cntd → bitmap_ok cntd →
  0 ≤ i < shared cntd →
  free cntd !! Z.to_nat i = Some w → w ≠ 0 →
  (∀ p, 0 ≤ p < BITSPERWORD * i → freebit (free cntd) p = false) →
  ∃ cntid cntd',
    claim_bit (S fuel) i w cntd = Ok (Some (cntid, cntd')) ∧ claims cntd cntid cntd'.
Proof.
  intros Hwf Hok Hi Hw Hne Hlow.
  pose proof (wf_shared_bounds _ Hwf) as (Hsh0 & Hcover & Hsh26).
  pose proof (wf_ncounters _ _ Hwf) as Hnc.
  pose proof (wf_length _ _ Hwf) as Hlen.
  pose proof (wf_word _ _ _ Hwf Hw) as Hww.
  destruct (builtin_ctzl_spec w Hww Hne) as (Hb & Hset & Hlowest).
  set (b := builtin_ctzl w) in *.
  assert (Hdiv : (i * 64 + b) / 64 = i) by lia.
  assert (Hmod : (i * 64 + b) mod 64 = b) by lia.
  assert (Hfree : freebit (free cntd) (i * 64 + b) = true).
  { rewrite (freebit_lookup _ _ w) by (unfold BITSPERWORD; rewrite Hdiv; exact Hw).
    unfold BITSPERWORD. now rewrite Hmod. }
  assert (Hid : 1 ≤ i * 64 + b < ncounters cntd).
  { apply Hok; [unfold BITSPERWORD; lia|exact Hfree]. }
  exists (i * 64 + b),
    (set_free (<[Z.to_nat (shared cntd + (i * 64 + b)) := 0]>
                 (<[Z.to_nat i := Z.land w (not64 (Z.shiftl 1 b))]> (free cntd))) cntd).
  split.
  - simpl. destruct (Z.eqb_spec w 0) as [|_]; [contradiction|]. simpl.
    assert (load (free cntd) i = Ok w) as -> by (apply load_Ok; split; [lia|exact Hw]).
    simpl. rewrite Z.eqb_refl. fold b.
    rewrite store_in_range by lia. simpl.
    assert (u32 (i * BITSPERWORD + b) = i * 64 + b) as ->
      by (unfold u32, BITSPERWORD; apply Z.mod_small; lia).
    rewrite store_in_range by (rewrite length_insert; lia). reflexivity.
  - unfold claims. simpl. rewrite !length_insert.
    split; [exact Hid|]. split; [exact Hfree|]. split.
    { intros p Hp. destruct (Z.lt_ge_cases p (64 * i)) as [Hlt|Hge].
      - apply Hlow. unfold BITSPERWORD. lia.
      - rewrite (freebit_lookup _ _ w)
          by (unfold BITSPERWORD; replace (p / 64) with i by lia; exact Hw).
        apply Hlowest. unfold BITSPERWORD. lia. }
    do 5 (split; [reflexivity|]). split.
    { apply Forall_word64_insert; [|apply word64_0].
      apply Forall_word64_insert; [exact (wf_words _ _ Hwf)|now apply word64_land_l]. }
    split.
    { intros p Hp. unfold BITSPERWORD in Hp.
      rewrite freebit_insert_ne by (unfold BITSPERWORD; lia).
      destruct (Z.eq_dec (p / 64) i) as [Heq|Hneq].
      - rewrite freebit_insert_eq by (unfold BITSPERWORD; lia).
        rewrite (freebit_lookup _ p w) by (unfold BITSPERWORD; rewrite Heq; exact Hw).
        rewrite Z.land_spec, testbit_clear64 by (unfold BITSPERWORD; lia).
        unfold BITSPERWORD. f_equal.
        destruct (Z.ltb_spec (p mod 64) 64), (Z.eqb_spec b (p mod 64)),
          (Z.eqb_spec p (i * 64 + b)); try reflexivity; lia.
      - rewrite freebit_insert_ne by (unfold BITSPERWORD; lia).
        destruct (Z.eqb_spec p (i * 64 + b)); [lia|]. now rewrite andb_true_r. }
    unfold shared_at. simpl. split.
    + rewrite list_lookup_insert_eq by (rewrite length_insert; lia). reflexivity.
    + intros j Hj Hjne. now rewrite !list_lookup_insert_ne by lia.
Qed.

Lemma scan_words_spec fuel cntd :
  wf_cntdomain MAXTHREADS cntd → bitmap_ok cntd →
  ∀ n i, 0 ≤ i → i + Z.of_nat n = shared cntd →
  (∀ p, 0 ≤ p < BITSPERWORD * i → freebit (free cntd) p = false) →
  (scan_words (S fuel) n i cntd = Ok (P64_COUNTER_INVALID, cntd) ∧
   ∀ p, 0 ≤ p < BITSPERWORD * shared cntd → freebit (free cntd) p = false) ∨
  (∃ cntid cntd',
     scan_words (S fuel) n i cntd = Ok (cntid, cntd') ∧ claims cntd cntid cntd').
Proof.
  intros Hwf Hok. induction n as [|n IH]; intros i Hi Hsum Hlow.
  - left. split; [reflexivity|]. intros p Hp. apply Hlow.
    replace i with (shared cntd) by lia. exact Hp.
  - pose proof (wf_shared_bounds _ Hwf) as (Hsh0 & Hcover & _).
    pose proof (wf_ncounters _ _ Hwf) as Hnc.
    pose proof (wf_length _ _ Hwf) as Hlen.
    destruct (load_in_range (free cntd) i) as (w & Hld & Hw); [lia|].
    cbn [scan_words]. rewrite Hld. cbn [mbind outcome_bind].
    destruct (Z.eq_dec w 0) as [->|Hne].
    + cbn [claim_bit]. simpl negb. cbn [mbind outcome_bind].
      apply IH; [lia|lia|].
      intros p Hp. destruct (Z.lt_ge_cases p (64 * i)) as [Hlt|Hge].
      * apply Hlow. unfold BITSPERWORD. lia.
      * rewrite (freebit_lookup _ _ 0)
          by (unfold BITSPERWORD in *; replace (p / 64) with i by lia; exact Hw).
        apply Z.bits_0.
    + right. destruct (claim_bit_claims fuel cntd i w) as (cntid & cntd' & Hrun & Hcl);
        try assumption; [lia|].
      exists cntid, cntd'. rewrite Hrun. split; [reflexivity|exact Hcl].
Qed.

(** [p64_counter_alloc] on a well-formed domain: it reports exhaustion and
    changes nothing, or claims the lowest free identifier. *)
Lemma p64_counter_alloc_spec fuel cntd :
  wf_cntdomain MAXTHREADS cntd → bitmap_ok cntd →
  (p64_counter_alloc (S fuel) cntd = Ok (P64_COUNTER_INVALID, cntd) ∧
   ∀ p, 0 ≤ p < BITSPERWORD * shared cntd → freebit (free cntd) p = false) ∨
  (∃ cntid cntd',
     p64_counter_alloc (S fuel) cntd = Ok (cntid, cntd') ∧ claims cntd cntid cntd').
Proof.
  intros Hwf Hok. unfold p64_counter_alloc.
  pose proof (wf_shared_bounds _ Hwf) as (Hsh0 & _ & _).
  fold (nwords_of (ncounters cntd)). rewrite <- (wf_shared _ _ Hwf).
  apply scan_words_spec; try assumption; lia.
Qed.

Lemma scan_words_no_fuel n i cntd r :
  scan_words 0 n i cntd = Ok r → n = 0%nat.
Proof.
  destruct n as [|n]; [reflexivity|]. simpl.
  destruct (load (free cntd) i); discriminate.
Qed.

(** Whatever the fuel, a call that returns has reported exhaustion or
    claimed an identifier. *)
Lemma p64_counter_alloc_Ok fuel cntd cntid cntd' :
  wf_cntdomain MAXTHREADS cntd → bitmap_ok cntd →
  p64_counter_alloc fuel cntd = Ok (cntid, cntd') →
  (cntid = P64_COUNTER_INVALID ∧ cntd' = cntd ∧
   ∀ p, 0 ≤ p < BITSPERWORD * shared cntd → freebit (free cntd) p = false) ∨
  claims cntd cntid cntd'.
Proof.
  intros Hwf Hok Hrun. destruct fuel as [|fuel].
  - apply scan_words_no_fuel in Hrun. exfalso.
    pose proof (wf_shared_bounds _ Hwf) as (Hsh0 & _ & _).
    rewrite (wf_shared _ _ Hwf) in Hsh0. unfold nwords_of in Hsh0. lia.
  - destruct (p64_counter_alloc_spec fuel cntd Hwf Hok)
      as [[Hrun' Hnone]|(id & c' & Hrun' & Hcl)];
      rewrite Hrun' in Hrun; injection Hrun as <- <-; auto.
Qed.

Lemma claims_wf cntd cntid cntd' :
  wf_cntdomain MAXTHREADS cntd → claims cntd cntid cntd' →
  wf_cntdomain MAXTHREADS cntd'.
Proof.
  intros [Hnc Hsh Hlen Hw Ht Hs] (_ & _ & _ & Enc & _ & Esh & Ept & Elen & Hw' & _).
  constructor; rewrite ?Enc, ?Esh, ?Ept, ?Elen; assumption.
Qed.

Lemma claims_bitmap_ok cntd cntid cntd' :
  bitmap_ok cntd → claims cntd cntid cntd' → bitmap_ok cntd'.
Proof.
  intros Hok (_ & _ & _ & Enc & _ & Esh & _ & _ & _ & Hbits & _) p Hp Hset.
  rewrite Esh in Hp. rewrite Hbits in Hset by exact Hp.
  apply andb_prop in Hset as [Hset _]. rewrite Enc. now apply Hok.
Qed.

Lemma claims_taken cntd cntid cntd' :
  wf_cntdomain MAXTHREADS cntd → claims cntd cntid cntd' →
  freebit (free cntd') cntid = false.
Proof.
  intros Hwf (Hid & _ & _ & _ & _ & _ & _ & _ & _ & Hbits & _).
  pose proof (wf_shared_bounds _ Hwf) as (_ & Hcover & _).
  rewrite Hbits by lia. rewrite Z.eqb_refl. apply andb_false_r.
Qed.

Lemma land_bit64_zero w k :
  0 ≤ k < 64 → (Z.land w (u64 (Z.shiftl 1 k)) =? 0) = negb (Z.testbit w k).
Proof.
  intros Hk. destruct (Z.testbit w k) eqn:Hbit; simpl.
  - apply Z.eqb_neq. intros H0.
    assert (Z.testbit (Z.land w (u64 (Z.shiftl 1 k))) k = true) as Hset
      by (rewrite Z.land_spec, testbit_bit64, Hbit, Z.eqb_refl by lia; reflexivity).
    rewrite H0, Z.bits_0 in Hset. discriminate.
  - apply Z.eqb_eq, Z.bits_inj_0. intros n.
    destruct (Z.lt_ge_cases n 0); [now apply Z.testbit_neg_r|].
    rewrite Z.land_spec, testbit_bit64 by lia.
    destruct (Z.eqb_spec k n) as [<-|]; [now rewrite Hbit|apply andb_false_r].
Qed.

(** A call of [p64_counter_free] that returns has reported an error and
    changed nothing, or has set the bit of an identifier in use. *)
Lemma p64_counter_free_Ok cntid cntd g cntd' g' :
  wf_cntdomain MAXTHREADS cntd →
  p64_counter_free cntid cntd g = Ok (cntd', g') →
  cntd' = cntd ∨ (releases cntd cntid cntd' ∧ g' = g).
Proof.
  intros Hwf. unfold p64_counter_free, invalid_cntid, P64_COUNTER_INVALID.
  destruct (Z.eqb_spec cntid 0) as [|Hne0]; [intros [= <- _]; now left|].
  destruct (Z.leb_spec (ncounters cntd) cntid) as [|Hlt]; [intros [= <- _]; now left|].
  simpl. destruct (load (free cntd) (cntid / BITSPERWORD)) as [w| |] eqn:Hld;
    try discriminate.
  apply load_Ok in Hld as [Hin Hw]. simpl. unfold BITSPERWORD in *.
  assert (0 ≤ cntid) as Hnn by lia.
  rewrite land_bit64_zero by lia. rewrite negb_involutive.
  destruct (Z.testbit w (cntid mod 64)) eqn:Hbit; [intros [= <- _]; now left|].
  rewrite store_in_range by lia. simpl. intros [= <- <-]. right.
  split; [|reflexivity].
  pose proof (wf_shared_bounds _ Hwf) as (Hsh0 & Hcover & _).
  pose proof (wf_length _ _ Hwf) as Hlen.
  unfold releases. simpl. rewrite length_insert.
  split; [lia|]. split.
  { rewrite (freebit_lookup _ _ w) by exact Hw. exact Hbit. }
  do 5 (split; [reflexivity|]). split.
  { apply Forall_word64_insert; [exact (wf_words _ _ Hwf)|].
    apply word64_lor; [exact (wf_word _ _ _ Hwf Hw)|apply word64_u64]. }
  split.
  - intros p Hp. destruct (Z.eq_dec (p / 64) (cntid / 64)) as [Heq|Hneq].
    + rewrite freebit_insert_eq by (unfold BITSPERWORD; lia).
      rewrite (freebit_lookup _ p w) by (unfold BITSPERWORD; rewrite Heq; exact Hw).
      rewrite Z.lor_spec, testbit_bit64 by (unfold BITSPERWORD; lia).
      unfold BITSPERWORD. f_equal.
      destruct (Z.eqb_spec (cntid mod 64) (p mod 64)), (Z.eqb_spec p cntid);
        try reflexivity; lia.
    + rewrite freebit_insert_ne by (unfold BITSPERWORD; lia).
      destruct (Z.eqb_spec p cntid); [subst; lia|]. now rewrite orb_false_r.
  - intros j Hj. unfold shared_at. simpl.
    unfold BITSPERWORD in Hcover. now rewrite list_lookup_insert_ne by lia.
Qed.

(** On a well-formed domain [p64_counter_free] returns for every identifier
    of its argument type. *)
Lemma p64_counter_free_total cntid cntd g :
  wf_cntdomain MAXTHREADS cntd → 0 ≤ cntid →
  ∃ cntd' g', p64_counter_free cntid cntd g = Ok (cntd', g').
Proof.
  intros Hwf Hnn. unfold p64_counter_free, invalid_cntid.
  destruct (_ || _) eqn:Hinv; [eauto|].
  apply orb_false_elim in Hinv as [_ Hlt%Z.leb_gt].
  pose proof (wf_shared_bounds _ Hwf) as (Hsh0 & Hcover & _).
  pose proof (wf_length _ _ Hwf) as Hlen. unfold BITSPERWORD in *.
  destruct (load_in_range (free cntd) (cntid / 64)) as (w & -> & _); [lia|].
  simpl. destruct (negb _); [eauto|].
  rewrite store_in_range by lia. simpl. eauto.
Qed.

Lemma releases_wf cntd cntid cntd' :
  wf_cntdomain MAXTHREADS cntd → releases cntd cntid cntd' →
  wf_cntdomain MAXTHREADS cntd'.
Proof.
  intros [Hnc Hsh Hlen Hw Ht Hs] (_ & _ & Enc & _ & Esh & Ept & Elen & Hw' & _).
  constructor; rewrite ?Enc, ?Esh, ?Ept, ?Elen; assumption.
Qed.

Lemma releases_bitmap_ok cntd cntid cntd' :
  bitmap_ok cntd → releases cntd cntid cntd' → bitmap_ok cntd'.
Proof.
  intros Hok (Hid & _ & Enc & _ & Esh & _ & _ & _ & Hbits & _) p Hp Hset.
  rewrite Esh in Hp. rewrite Hbits in Hset by exact Hp. rewrite Enc.
  apply orb_prop in Hset as [Hset|Heq%Z.eqb_eq]; [now apply Hok|lia].
Qed.

End Allocator.

(** ** Reachable bitmaps *)

Section Reachable.

Variable MAXTHREADS : nat.
Variable P64_COUNTER_F_HP : Z.

Lemma bitmap_is_ok cntd lo hi :
  1 ≤ lo → hi < ncounters cntd → bitmap_is cntd lo hi → bitmap_ok cntd.
Proof. intros Hlo Hhi His p Hp Hset. apply His in Hset; [lia|exact Hp]. Qed.

Lemma reachable_wf cntd :
  reachable MAXTHREADS P64_COUNTER_F_HP cntd →
  wf_cntdomain MAXTHREADS cntd ∧ bitmap_ok cntd.
Proof.
  induction 1 as [fuel capacity flags g cntd g' Hcap Hrun
                 |fuel cntd cntid cntd' _ [Hwf Hok] Hrun
                 |cntid cntd g cntd' g' _ [Hwf Hok] Hrun].
  - apply p64_cntdomain_alloc_Some in Hrun as (Hwf & Hnc & His & _); [|exact Hcap].
    split; [exact Hwf|]. apply (bitmap_is_ok _ 1 capacity); [lia|lia|exact His].
  - apply (p64_counter_alloc_Ok MAXTHREADS) in Hrun as [(_ & -> & _)|Hcl];
      try assumption; [now split|].
    split; [eapply claims_wf|eapply claims_bitmap_ok]; eassumption.
  - apply (p64_counter_free_Ok MAXTHREADS) in Hrun as [->|[Hrel _]];
      try assumption; [now split|].
    split; [eapply releases_wf|eapply releases_bitmap_ok]; eassumption.
Qed.

(** While [cntid] stays claimed, no [p64_counter_alloc] returns it. *)
Lemma run_keeps_claimed fuel cntid : ∀ calls cntd g vs s',
  wf_cntdomain MAXTHREADS cntd → bitmap_ok cntd →
  1 ≤ cntid < ncounters cntd →
  freebit (free cntd) cntid = false →
  Forall (keeps_claimed cntid) calls →
  run MAXTHREADS fuel calls (cntd, g) = Ok (vs, s') →
  ∀ k, calls !! k = Some CAlloc → vs !! k ≠ Some cntid.
Proof.
  induction calls as [|c calls IH]; intros cntd g vs s' Hwf Hok Hid Hclr Hall Hrun k Hk;
    [discriminate|].
  apply Forall_cons in Hall as [Hc Hall]. cbn [run] in Hrun.
  apply bind_Ok in Hrun as ([v s1] & Hexec & Hrun).
  apply bind_Ok in Hrun as ([vs1 s2] & Hrest & [= <- <-]).
  pose proof (wf_shared_bounds _ _ Hwf) as (_ & Hcover & _).
  destruct c; try contradiction; cbn [exec] in Hexec.
  - apply bind_Ok in Hexec as ([x cntd1] & Halloc & [= <- <-]).
    apply (p64_counter_alloc_Ok MAXTHREADS) in Halloc
      as [(-> & -> & _)|Hcl]; try assumption.
    + destruct k as [|k]; simpl.
      * unfold P64_COUNTER_INVALID. intros [=]. lia.
      * eapply IH; eassumption.
    + pose proof Hcl as (_ & Hx & _ & Enc & _ & Esh & _ & _ & _ & Hbits & _).
      destruct k as [|k]; simpl.
      * intros [= ->]. congruence.
      * eapply (IH cntd1); try eassumption.
        -- eapply claims_wf; eassumption.
        -- eapply claims_bitmap_ok; eassumption.
        -- now rewrite Enc.
        -- rewrite Hbits by lia. now rewrite Hclr.
  - simpl in Hc. apply bind_Ok in Hexec as ([cntd1 g1] & Hfree & [= <- <-]).
    destruct k as [|k]; [discriminate|]. simpl.
    apply (p64_counter_free_Ok MAXTHREADS) in Hfree as [->|[Hrel _]]; try assumption.
    + eapply IH; eassumption.
    + pose proof Hrel as (_ & _ & Enc & _ & Esh & _ & _ & _ & Hbits & _).
      eapply (IH cntd1); try eassumption.
      * eapply releases_wf; eassumption.
      * eapply releases_bitmap_ok; eassumption.
      * now rewrite Enc.
      * rewrite Hbits by lia. rewrite Hclr.
        destruct (Z.eqb_spec cntid cntid0); [congruence|reflexivity].
Qed.

End Reachable.

(** ** Aggregated read and reset *)

Section ReadReset.

Variable MAXTHREADS : nat.

Lemma sum_private_spec cntd cntid :
  (∀ t c, perthread cntd !! t = Some (Some c) → 0 ≤ cntid < Z.of_nat (length c)) →
  ∀ n t sum, 0 ≤ t →
  (Z.to_nat t + n)%nat = length (perthread cntd) →
  word64 sum →
  sum_private n t cntid cntd sum
    = Ok (u64 (sum + private_total (drop (Z.to_nat t) (perthread cntd)) cntid)).
Proof.
  intros Hstash. induction n as [|n IH]; intros t sum Ht Hlen Hsum.
  - simpl. rewrite drop_ge by lia. simpl.
    rewrite Z.add_0_r, u64_word64 by exact Hsum. reflexivity.
  - destruct (load_in_range (perthread cntd) t) as (slot & Hld & Hslot); [lia|].
    cbn [sum_private]. rewrite Hld. cbn [mbind outcome_bind].
    rewrite (drop_S _ _ _ Hslot).
    assert ((if negb (use_hp cntd) then slot else p64_hazptr_acquire slot) = slot)
      as -> by (unfold p64_hazptr_acquire; now destruct (use_hp cntd)).
    replace (S (Z.to_nat t)) with (Z.to_nat (t + 1)) by lia.
    destruct slot as [c|].
    + destruct (load_in_range c cntid) as (v & -> & Hv); [eauto|].
      cbn [mbind outcome_bind private_total].
      rewrite IH; [|lia|lia|apply word64_u64]. rewrite Hv. simpl.
      f_equal. unfold u64. lia.
    + cbn [private_total]. apply IH; [lia|lia|exact Hsum].
Qed.

Lemma wf_stash_index cntd cntid :
  wf_cntdomain MAXTHREADS cntd → 0 ≤ cntid < ncounters cntd →
  ∀ t c, perthread cntd !! t = Some (Some c) → 0 ≤ cntid < Z.of_nat (length c).
Proof. intros Hwf Hid t c Hc. destruct (wf_stash _ _ Hwf t c Hc). lia. Qed.

Lemma wf_shared_at cntd cntid :
  wf_cntdomain MAXTHREADS cntd → 0 ≤ cntid < ncounters cntd →
  load (free cntd) (shared cntd + cntid) = Ok (shared_at cntd cntid) ∧
  word64 (shared_at cntd cntid).
Proof.
  intros Hwf Hid.
  pose proof (wf_shared_bounds _ _ Hwf) as (Hsh0 & _ & _).
  pose proof (wf_length _ _ Hwf) as Hlen.
  destruct (load_in_range (free cntd) (shared cntd + cntid)) as (v & Hld & Hv); [lia|].
  unfold shared_at. rewrite Hv. simpl. split; [exact Hld|].
  exact (wf_word _ _ _ _ Hwf Hv).
Qed.

Lemma read_pass_spec cntd cntid :
  wf_cntdomain MAXTHREADS cntd → 0 ≤ cntid < ncounters cntd →
  read_pass MAXTHREADS cntd cntid
    = Ok (shared_at cntd cntid, total cntd cntid, shared_at cntd cntid).
Proof.
  intros Hwf Hid. unfold read_pass.
  destruct (wf_shared_at _ _ Hwf Hid) as [-> Hw]. cbn [mbind outcome_bind].
  rewrite (sum_private_spec cntd cntid (wf_stash_index _ _ Hwf Hid));
    [reflexivity|lia| |exact Hw].
  rewrite (wf_table _ _ Hwf). reflexivity.
Qed.

Lemma read_pass_unchanged cntd cntid sh0 sum sh1 :
  read_pass MAXTHREADS cntd cntid = Ok (sh0, sum, sh1) → sh0 = sh1.
Proof.
  unfold read_pass. intros H.
  apply bind_Ok in H as (a & Ha & H). apply bind_Ok in H as (s & _ & H).
  rewrite Ha in H. simpl in H. congruence.
Qed.

Lemma load_terminates {A : Type} (a : list A) i : load a i ≠ NoFuel.
Proof.
  unfold load. destruct (0 <=? i); [|discriminate].
  destruct (a !! Z.to_nat i); discriminate.
Qed.

Lemma sum_private_terminates cntd cntid : ∀ n t sum,
  sum_private n t cntid cntd sum ≠ NoFuel.
Proof.
  induction n as [|n IH]; intros t sum; cbn [sum_private]; [discriminate|].
  destruct (load (perthread cntd) t) as [slot| |] eqn:Hld; cbn [mbind outcome_bind];
    [|discriminate|now apply load_terminates in Hld].
  destruct (if negb (use_hp cntd) then slot else p64_hazptr_acquire slot) as [c|];
    [|apply IH].
  destruct (load c cntid) as [v| |] eqn:Hv; cbn [mbind outcome_bind];
    [apply IH|discriminate|now apply load_terminates in Hv].
Qed.

Lemma read_pass_terminates cntd cntid : read_pass MAXTHREADS cntd cntid ≠ NoFuel.
Proof.
  unfold read_pass.
  destruct (load (free cntd) (shared cntd + cntid)) as [sh0| |] eqn:Hld;
    cbn [mbind outcome_bind]; [|discriminate|now apply load_terminates in Hld].
  destruct (sum_private MAXTHREADS 0 cntid cntd sh0) as [sum| |] eqn:Hsum;
    cbn [mbind outcome_bind]; [|discriminate|now apply sum_private_terminates in Hsum].
  discriminate.
Qed.

(** The first traversal decides: more fuel changes nothing. *)
Lemma read_loop_once fuel cntd cntid :
  read_loop MAXTHREADS (S fuel) cntd cntid = read_loop MAXTHREADS 1 cntd cntid ∧
  read_loop MAXTHREADS 1 cntd cntid ≠ NoFuel.
Proof.
  cbn [read_loop].
  destruct (read_pass MAXTHREADS cntd cntid) as [[[sh0 sum] sh1]| |] eqn:Hp;
    cbn [mbind outcome_bind].
  - apply read_pass_unchanged in Hp as ->. rewrite Z.eqb_refl. simpl.
    split; [reflexivity|discriminate].
  - split; [reflexivity|discriminate].
  - now apply read_pass_terminates in Hp.
Qed.

Lemma p64_counter_read_spec fuel cntid cntd g :
  wf_cntdomain MAXTHREADS cntd → 1 ≤ cntid < ncounters cntd →
  p64_counter_read MAXTHREADS (S fuel) cntid cntd g = Ok (total cntd cntid, g).
Proof.
  intros Hwf Hid. unfold p64_counter_read, invalid_cntid, P64_COUNTER_INVALID.
  destruct (Z.eqb_spec cntid 0); [lia|].
  destruct (Z.leb_spec (ncounters cntd) cntid); [lia|]. simpl.
  rewrite read_pass_spec by (try assumption; lia). simpl.
  rewrite Z.eqb_refl. reflexivity.
Qed.

Lemma p64_counter_reset_spec fuel cntid cntd g :
  wf_cntdomain MAXTHREADS cntd → 1 ≤ cntid < ncounters cntd →
  p64_counter_reset MAXTHREADS (S fuel) cntid cntd g
    = Ok (set_free (<[Z.to_nat (shared cntd + cntid) :=
                        u64 (shared_at cntd cntid - total cntd cntid)]> (free cntd))
                   cntd, g).
Proof.
  intros Hwf Hid. unfold p64_counter_reset.
  rewrite p64_counter_read_spec by assumption.
  unfold invalid_cntid, P64_COUNTER_INVALID.
  destruct (Z.eqb_spec cntid 0); [lia|].
  destruct (Z.leb_spec (ncounters cntd) cntid); [lia|]. simpl.
  destruct (wf_shared_at cntd cntid Hwf) as [-> _]; [lia|]. simpl.
  pose proof (wf_shared_bounds _ _ Hwf) as (Hsh0 & _ & _).
  pose proof (wf_length _ _ Hwf) as Hlen.
  rewrite store_in_range by lia. reflexivity.
Qed.

(** A read of a well-formed domain returns, whatever the fuel beyond one
    unit. *)
Lemma p64_counter_read_total cntid cntd g :
  wf_cntdomain MAXTHREADS cntd → 0 ≤ cntid →
  ∃ v g', ∀ fuel, p64_counter_read MAXTHREADS (S fuel) cntid cntd g = Ok (v, g').
Proof.
  intros Hwf Hnn. destruct (invalid_cntid cntd cntid) eqn:Hinv.
  - exists 0, (report_invalid_counter cntid g).
    intros fuel. unfold p64_counter_read. now rewrite Hinv.
  - exists (total cntd cntid), g. intros fuel. apply p64_counter_read_spec; [exact Hwf|].
    unfold invalid_cntid, P64_COUNTER_INVALID in Hinv.
    apply orb_false_elim in Hinv as [Hne%Z.eqb_neq Hlt%Z.leb_gt]. lia.
Qed.

Lemma set_free_wf cntd f :
  wf_cntdomain MAXTHREADS cntd → length f = length (free cntd) → Forall word64 f →
  wf_cntdomain MAXTHREADS (set_free f cntd).
Proof.
  intros [Hnc Hsh Hlen Hw Ht Hs] Elen Hf.
  constructor; simpl; try assumption. now rewrite Elen.
Qed.

End ReadReset.


(** ** Registration, merge and the calls as a whole *)

Section Lifecycle.

Variable MAXTHREADS : nat.

Lemma merge_spec sh : ∀ n i counters f,
  0 ≤ i → 0 ≤ sh →
  i + Z.of_nat n ≤ Z.of_nat (length counters) →
  sh + i + Z.of_nat n ≤ Z.of_nat (length f) →
  ∃ counters' f',
    merge n i sh counters f = Ok (counters', f') ∧
    length counters' = length counters ∧ length f' = length f ∧
    (Forall word64 counters → Forall word64 counters') ∧
    (Forall word64 f → Forall word64 f') ∧
    (∀ k, (k < Z.to_nat i)%nat → counters' !! k = counters !! k) ∧
    (∀ k, (k < Z.to_nat (sh + i))%nat → f' !! k = f !! k) ∧
    (∀ k, (Z.to_nat (sh + i) + n ≤ k)%nat → f' !! k = f !! k) ∧
    (∀ j c x, i ≤ j < i + Z.of_nat n →
       counters !! Z.to_nat j = Some c → f !! Z.to_nat (sh + j) = Some x →
       f' !! Z.to_nat (sh + j) = Some (if u32 c =? 0 then x else u64 (x + u32 c)) ∧
       counters' !! Z.to_nat j = Some (if u32 c =? 0 then c else 0)).
Proof.
  induction n as [|n IH]; intros i counters f Hi Hsh Hc Hf.
  - exists counters, f. repeat split; auto; intros; lia.
  - destruct (load_in_range counters i) as (c & Hld & Hci); [lia|].
    cbn [merge]. rewrite Hld. cbn [mbind outcome_bind].
    destruct (Z.eqb_spec (u32 c) 0) as [Hz|Hnz]; cbn [negb].
    + destruct (IH (i + 1) counters f)
        as (c' & f' & Hrun & Hlc & Hlf & Hwc & Hwf & Hclo & Hlo & Hhi & Hin); try lia.
      exists c', f'. rewrite Hrun.
      split; [reflexivity|]. do 4 (split; [assumption|]).
      split; [intros k Hk; apply Hclo; lia|].
      split; [intros k Hk; apply Hlo; lia|].
      split; [intros k Hk; apply Hhi; lia|].
      intros j c0 x Hj Hc0 Hx. destruct (Z.eq_dec j i) as [->|Hne].
      * assert (c0 = c) as -> by congruence.
        destruct (Z.eqb_spec (u32 c) 0); [|contradiction].
        rewrite Hlo, Hclo by lia. auto.
      * apply Hin; [lia|assumption|assumption].
    + rewrite store_in_range by lia. cbn [mbind outcome_bind].
      destruct (load_in_range f (sh + i)) as (x0 & -> & Hx0); [lia|].
      cbn [mbind outcome_bind]. rewrite store_in_range by lia.
      cbn [mbind outcome_bind].
      destruct (IH (i + 1) (<[Z.to_nat i := 0]> counters)
                  (<[Z.to_nat (sh + i) := u64 (x0 + u32 c)]> f))
        as (c' & f' & Hrun & Hlc & Hlf & Hwc & Hwf & Hclo & Hlo & Hhi & Hin);
        rewrite ?length_insert; try lia.
      exists c', f'. rewrite Hrun. rewrite length_insert in Hlc, Hlf.
      split; [reflexivity|]. do 2 (split; [assumption|]).
      split; [intros H; apply Hwc, Forall_insert; [exact H|apply word64_0]|].
      split; [intros H; apply Hwf, Forall_insert; [exact H|apply word64_u64]|].
      split; [intros k Hk; rewrite Hclo by lia; apply list_lookup_insert_ne; lia|].
      split; [intros k Hk; rewrite Hlo by lia; apply list_lookup_insert_ne; lia|].
      split; [intros k Hk; rewrite Hhi by lia; apply list_lookup_insert_ne; lia|].
      intros j c0 x Hj Hc0 Hx. destruct (Z.eq_dec j i) as [->|Hne].
      * assert (c0 = c) as -> by congruence. assert (x = x0) as -> by congruence.
        destruct (Z.eqb_spec (u32 c) 0); [contradiction|].
        rewrite Hlo, Hclo by lia.
        rewrite !list_lookup_insert_eq by lia. auto.
      * apply Hin; [lia| |]; rewrite list_lookup_insert_ne by lia; assumption.
Qed.

Lemma retire_until_accepted_spec (hp : bool) counters g :
  retire_until_accepted (S (refusals g))
      (if hp then p64_hazptr_retire else p64_qsbr_retire) counters g
    = Ok (mk_globals (pth g) (thr_idx g)
            (if hp then counters :: hazptr_retired g else hazptr_retired g)
            (if hp then qsbr_retired g else counters :: qsbr_retired g)
            O (errors g)).
Proof.
  destruct g as [p t h q r e]. simpl refusals.
  induction r as [|r IH]; destruct hp; simpl; try reflexivity; exact IH.
Qed.

Lemma get_set_pth self p g : get_pth self (set_pth self p g) = p.
Proof. unfold get_pth, set_pth. simpl. now rewrite lookup_insert_eq. Qed.

Lemma set_perthread_wf cntd pt :
  wf_cntdomain MAXTHREADS cntd →
  length pt = length (perthread cntd) →
  (∀ t c, pt !! t = Some (Some c) →
          Z.of_nat (length c) = ncounters cntd ∧ Forall word64 c) →
  wf_cntdomain MAXTHREADS (set_perthread pt cntd).
Proof.
  intros [Hnc Hsh Hlen Hw Ht Hs] Elen Hpt.
  constructor; simpl; try assumption. now rewrite Elen.
Qed.

Lemma insert_stash_ok cntd (i : nat) slot :
  wf_cntdomain MAXTHREADS cntd →
  (∀ c, slot = Some c → Z.of_nat (length c) = ncounters cntd ∧ Forall word64 c) →
  ∀ t c, <[i := slot]> (perthread cntd) !! t = Some (Some c) →
         Z.of_nat (length c) = ncounters cntd ∧ Forall word64 c.
Proof.
  intros Hwf Hslot t c Hc. destruct (decide (t = i)) as [->|Hne].
  - destruct (decide (i < length (perthread cntd))%nat).
    + rewrite list_lookup_insert_eq in Hc by assumption.
      injection Hc as ->. now apply Hslot.
    + rewrite list_insert_ge in Hc by lia. exact (wf_stash _ _ Hwf _ _ Hc).
  - rewrite list_lookup_insert_ne in Hc by congruence.
    exact (wf_stash _ _ Hwf _ _ Hc).
Qed.

Lemma bitmap_ok_set_free cntd f :
  bitmap_ok cntd →
  (∀ k, (k < Z.to_nat (shared cntd))%nat → f !! k = free cntd !! k) →
  bitmap_ok (set_free f cntd).
Proof.
  intros Hok Hsame p Hp. simpl in *. unfold freebit.
  rewrite Hsame by (unfold BITSPERWORD in *; lia). now apply Hok.
Qed.

Lemma p64_cntdomain_register_Ok self ok cntd g cntd' g' :
  wf_cntdomain MAXTHREADS cntd →
  p64_cntdomain_register self ok cntd g = Ok (cntd', g') →
  wf_cntdomain MAXTHREADS cntd' ∧ free cntd' = free cntd ∧
  shared cntd' = shared cntd ∧ ncounters cntd' = ncounters cntd.
Proof.
  intros Hwf. unfold p64_cntdomain_register.
  set (g2 := if count (get_pth self g) =? 0 then _ else _).
  intros H. apply bind_Ok in H as (slot & _ & H).
  destruct slot as [c|]; [injection H as <- _; auto|].
  destruct ok; [|injection H as <- _; auto].
  apply bind_Ok in H as (pt & [_ ->]%store_Ok & [= <- _]).
  split; [|auto]. apply set_perthread_wf; [exact Hwf|apply length_insert|].
  apply insert_stash_ok; [exact Hwf|]. intros c [= <-].
  pose proof (wf_ncounters _ _ Hwf).
  rewrite length_replicate. split; [lia|apply Forall_replicate, word64_0].
Qed.

Lemma p64_counter_add_Ok self cntid val cntd g cntd' g' :
  wf_cntdomain MAXTHREADS cntd →
  p64_counter_add self cntid val cntd g = Ok (cntd', g') →
  wf_cntdomain MAXTHREADS cntd' ∧ free cntd' = free cntd ∧
  shared cntd' = shared cntd ∧ ncounters cntd' = ncounters cntd.
Proof.
  intros Hwf. unfold p64_counter_add.
  destruct (_ =? 0); [intros [= <- _]; auto|].
  destruct (invalid_cntid _ _); [intros [= <- _]; auto|].
  intros H. apply bind_Ok in H as (slot & [_ Hslot]%load_Ok & H).
  destruct slot as [c|]; [|discriminate].
  apply bind_Ok in H as (old & _ & H).
  apply bind_Ok in H as (c' & [_ ->]%store_Ok & H).
  apply bind_Ok in H as (pt & [_ ->]%store_Ok & [= <- _]).
  split; [|auto]. apply set_perthread_wf; [exact Hwf|apply length_insert|].
  apply insert_stash_ok; [exact Hwf|]. intros ? [= <-].
  destruct (wf_stash _ _ Hwf _ _ Hslot) as [Hl Hw].
  rewrite length_insert. split; [exact Hl|].
  apply Forall_insert; [exact Hw|apply word64_u64].
Qed.

Lemma p64_cntdomain_unregister_Ok self cntd g cntd' g' :
  wf_cntdomain MAXTHREADS cntd →
  p64_cntdomain_unregister self cntd g = Ok (cntd', g') →
  wf_cntdomain MAXTHREADS cntd' ∧
  (∀ k, (k < Z.to_nat (shared cntd))%nat → free cntd' !! k = free cntd !! k) ∧
  shared cntd' = shared cntd ∧ ncounters cntd' = ncounters cntd.
Proof.
  intros Hwf. unfold p64_cntdomain_unregister.
  destruct (_ =? 0); [intros [= <- _]; auto|].
  intros H. apply bind_Ok in H as (slot & [_ Hslot]%load_Ok & H).
  destruct slot as [c|]; [|injection H as <- _; auto].
  apply bind_Ok in H as ([c' f'] & Hmerge & H).
  apply bind_Ok in H as (pt & [_ ->]%store_Ok & H).
  apply bind_Ok in H as (g1 & _ & [= <- _]).
  destruct (wf_stash _ _ Hwf _ _ Hslot) as [Hl Hw].
  pose proof (wf_shared_bounds _ _ Hwf) as (Hsh0 & _ & _).
  pose proof (wf_length _ _ Hwf) as Hlen.
  pose proof (wf_ncounters _ _ Hwf) as Hnc.
  destruct (merge_spec (shared cntd) (Z.to_nat (ncounters cntd)) 0 c (free cntd))
    as (c2 & f2 & Hrun & _ & Hlf & _ & Hwf' & _ & Hlo & _); try lia.
  rewrite Hrun in Hmerge. injection Hmerge as <- <-.
  split; [|split; [|auto]].
  - apply set_perthread_wf; [|apply length_insert|].
    + apply set_free_wf; [exact Hwf|exact Hlf|apply Hwf', (wf_words _ _ Hwf)].
    + simpl. intros t c0 Hc0.
      apply (insert_stash_ok cntd (Z.to_nat (tidx (get_pth self g))) None Hwf) in Hc0;
        [exact Hc0|discriminate].
  - simpl. intros k Hk. apply Hlo. lia.
Qed.

Lemma p64_counter_reset_Ok fuel cntid cntd g cntd' g' :
  wf_cntdomain MAXTHREADS cntd → 0 ≤ cntid →
  p64_counter_reset MAXTHREADS fuel cntid cntd g = Ok (cntd', g') →
  wf_cntdomain MAXTHREADS cntd' ∧
  (∀ k, (k < Z.to_nat (shared cntd))%nat → free cntd' !! k = free cntd !! k) ∧
  shared cntd' = shared cntd ∧ ncounters cntd' = ncounters cntd.
Proof.
  intros Hwf Hnn. unfold p64_counter_reset.
  destruct (invalid_cntid cntd cntid) eqn:Hinv; [intros [= <- _]; auto|].
  intros H. apply bind_Ok in H as ([cur g1] & _ & H).
  apply bind_Ok in H as (old & _ & H).
  apply bind_Ok in H as (f' & [_ ->]%store_Ok & [= <- _]).
  pose proof (wf_shared_bounds _ _ Hwf) as (Hsh0 & _ & _).
  split; [|split; [|auto]].
  - apply set_free_wf; [exact Hwf|apply length_insert|].
    apply Forall_insert; [exact (wf_words _ _ Hwf)|apply word64_u64].
  - simpl. intros k Hk. apply list_lookup_insert_ne. lia.
Qed.


(** An unregistration that finds the stash published. *)
Lemma p64_cntdomain_unregister_published self cntd g counters :
  wf_cntdomain MAXTHREADS cntd →
  count (get_pth self g) ≠ 0 →
  0 ≤ tidx (get_pth self g) →
  perthread cntd !! Z.to_nat (tidx (get_pth self g)) = Some (Some counters) →
  ∃ counters' f',
    merge (Z.to_nat (ncounters cntd)) 0 (shared cntd) counters (free cntd)
      = Ok (counters', f') ∧
    p64_cntdomain_unregister self cntd g
      = Ok (set_perthread (<[Z.to_nat (tidx (get_pth self g)) := None]> (perthread cntd))
                          (set_free f' cntd),
            let p := get_pth self g in
            let g1 := mk_globals (pth g) (thr_idx g)
                        (if use_hp cntd then counters' :: hazptr_retired g
                         else hazptr_retired g)
                        (if use_hp cntd then qsbr_retired g
                         else counters' :: qsbr_retired g)
                        O (errors g) in
            let c := u32 (count p - 1) in
            if c =? 0 then set_pth self (mk_pth (-1) c) (p64_idx_free (tidx p) g1)
            else set_pth self (mk_pth (tidx p) c) g1).
Proof.
  intros Hwf Hcount Hidx Hslot.
  destruct (wf_stash _ _ Hwf _ _ Hslot) as [Hl Hw].
  pose proof (wf_shared_bounds _ _ Hwf) as (Hsh0 & _ & _).
  pose proof (wf_length _ _ Hwf) as Hlen.
  pose proof (wf_ncounters _ _ Hwf) as Hnc.
  destruct (merge_spec (shared cntd) (Z.to_nat (ncounters cntd)) 0 counters (free cntd))
    as (c2 & f2 & Hrun & _); try lia.
  exists c2, f2. split; [exact Hrun|].
  unfold p64_cntdomain_unregister.
  destruct (Z.eqb_spec (count (get_pth self g)) 0) as [|_]; [contradiction|].
  assert (load (perthread cntd) (tidx (get_pth self g)) = Ok (Some counters)) as ->.
  { apply load_Ok. split; [|exact Hslot]. apply lookup_lt_Some in Hslot. lia. }
  cbn [mbind outcome_bind]. rewrite Hrun. cbn [mbind outcome_bind].
  rewrite store_in_range by (apply lookup_lt_Some in Hslot; lia).
  cbn [mbind outcome_bind]. rewrite retire_until_accepted_spec.
  reflexivity.
Qed.

(** An addition that finds the stash published. *)
Lemma p64_counter_add_published self cntid val cntd g counters :
  wf_cntdomain MAXTHREADS cntd →
  count (get_pth self g) ≠ 0 →
  0 ≤ tidx (get_pth self g) →
  perthread cntd !! Z.to_nat (tidx (get_pth self g)) = Some (Some counters) →
  1 ≤ cntid < ncounters cntd →
  ∃ old, counters !! Z.to_nat cntid = Some old ∧
    p64_counter_add self cntid val cntd g
      = Ok (set_perthread
              (<[Z.to_nat (tidx (get_pth self g)) :=
                   Some (<[Z.to_nat cntid := u64 (old + val)]> counters)]>
                 (perthread cntd)) cntd, g).
Proof.
  intros Hwf Hcount Hidx Hslot Hid.
  destruct (wf_stash _ _ Hwf _ _ Hslot) as [Hl _].
  destruct (load_in_range counters cntid) as (old & Hld & Hold); [lia|].
  exists old. split; [exact Hold|].
  unfold p64_counter_add, invalid_cntid, P64_COUNTER_INVALID.
  destruct (Z.eqb_spec (count (get_pth self g)) 0) as [|_]; [contradiction|].
  destruct (Z.eqb_spec cntid 0); [lia|].
  destruct (Z.leb_spec (ncounters cntd) cntid); [lia|]. cbn [orb].
  assert (load (perthread cntd) (tidx (get_pth self g)) = Ok (Some counters)) as ->.
  { apply load_Ok. split; [|exact Hslot]. apply lookup_lt_Some in Hslot. lia. }
  cbn [mbind outcome_bind]. rewrite Hld. cbn [mbind outcome_bind].
  rewrite store_in_range by lia. cbn [mbind outcome_bind].
  rewrite store_in_range by (apply lookup_lt_Some in Hslot; lia).
  reflexivity.
Qed.

(** Every call keeps the layout and the bitmap bounds. *)
Lemma exec_invariant fuel c s v s' :
  call_ok c → invariant MAXTHREADS s →
  exec MAXTHREADS fuel c s = Ok (v, s') →
  invariant MAXTHREADS s'.
Proof.
  destruct s as [cntd g]. intros Hc [Hwf Hok] Hexec. simpl in Hwf, Hok.
  destruct c; cbn [exec] in Hexec.
  - apply bind_Ok in Hexec as ([cntd1 g1] & Hrun & [= _ <-]).
    apply p64_cntdomain_register_Ok in Hrun as (Hwf1 & Ef & Esh & Enc);
      [|exact Hwf].
    split; [exact Hwf1|]. simpl. intros p Hp. rewrite Ef, Enc.
    rewrite Esh in Hp. now apply Hok.
  - apply bind_Ok in Hexec as ([cntd1 g1] & Hrun & [= _ <-]).
    apply p64_cntdomain_unregister_Ok in Hrun as (Hwf1 & Ef & Esh & Enc);
      [|exact Hwf].
    split; [exact Hwf1|]. simpl. intros p Hp. rewrite Enc.
    rewrite Esh in Hp. unfold freebit.
    rewrite Ef by (unfold BITSPERWORD in *; lia). now apply Hok.
  - apply bind_Ok in Hexec as ([cntid cntd1] & Hrun & [= _ <-]).
    apply (p64_counter_alloc_Ok MAXTHREADS) in Hrun as [(_ & -> & _)|Hcl];
      try assumption; [now split|].
    split; [eapply claims_wf|eapply claims_bitmap_ok]; eassumption.
  - apply bind_Ok in Hexec as ([cntd1 g1] & Hrun & [= _ <-]).
    apply (p64_counter_free_Ok MAXTHREADS) in Hrun as [->|[Hrel _]];
      try assumption; [now split|].
    split; [eapply releases_wf|eapply releases_bitmap_ok]; eassumption.
  - apply bind_Ok in Hexec as ([cntd1 g1] & Hrun & [= _ <-]).
    apply p64_counter_add_Ok in Hrun as (Hwf1 & Ef & Esh & Enc); [|exact Hwf].
    split; [exact Hwf1|]. simpl. intros p Hp. rewrite Ef, Enc.
    rewrite Esh in Hp. now apply Hok.
  - apply bind_Ok in Hexec as ([x g1] & _ & [= _ <-]). now split.
  - apply bind_Ok in Hexec as ([cntd1 g1] & Hrun & [= _ <-]).
    apply p64_counter_reset_Ok in Hrun as (Hwf1 & Ef & Esh & Enc);
      [|exact Hwf|simpl in Hc; lia].
    split; [exact Hwf1|]. simpl. intros p Hp. rewrite Enc.
    rewrite Esh in Hp. unfold freebit.
    rewrite Ef by (unfold BITSPERWORD in *; lia). now apply Hok.
Qed.

Lemma run_invariant fuel : ∀ cs s vs s',
  Forall call_ok cs → invariant MAXTHREADS s →
  run MAXTHREADS fuel cs s = Ok (vs, s') →
  invariant MAXTHREADS s'.
Proof.
  induction cs as [|c cs IH]; intros s vs s' Hcs Hinv Hrun.
  - injection Hrun as _ <-. exact Hinv.
  - apply Forall_cons in Hcs as [Hc Hcs]. cbn [run] in Hrun.
    apply bind_Ok in Hrun as ([v s1] & Hexec & Hrun).
    apply bind_Ok in Hrun as ([vs1 s2] & Hrest & [= _ <-]).
    eapply IH; [exact Hcs| |exact Hrest].
    eapply exec_invariant; eassumption.
Qed.

Lemma run_fresh_invariant fuel F_HP capacity flags cs vs s' :
  0 ≤ capacity < 2 ^ 32 → Forall call_ok cs →
  run_fresh MAXTHREADS fuel F_HP capacity flags cs = Ok (vs, s') →
  invariant MAXTHREADS s'.
Proof.
  intros Hcap Hcs Hrun. unfold run_fresh in Hrun.
  apply bind_Ok in Hrun as ([h g] & Hcreate & Hrun).
  destruct h as [cntd|]; [|discriminate].
  apply p64_cntdomain_alloc_Some in Hcreate as (Hwf & Hnc & His & _); [|exact Hcap].
  eapply run_invariant; [exact Hcs| |exact Hrun].
  split; [exact Hwf|]. simpl.
  apply (bitmap_is_ok _ 1 capacity); [lia|lia|exact His].
Qed.

End Lifecycle.

(** ** The identifier count under calls *)

Section Sizes.

Variable MAXTHREADS : nat.

Lemma exec_ncounters fuel c s v s' :
  call_ok c → invariant MAXTHREADS s →
  exec MAXTHREADS fuel c s = Ok (v, s') →
  ncounters s'.1 = ncounters s.1.
Proof.
  destruct s as [cntd g]. intros Hc [Hwf Hok] H. simpl in Hwf, Hok.
  destruct c; cbn [exec] in H.
  - apply bind_Ok in H as ([c1 g1] & Hrun & [= _ <-]).
    now apply (p64_cntdomain_register_Ok MAXTHREADS) in Hrun as (_ & _ & _ & ?).
  - apply bind_Ok in H as ([c1 g1] & Hrun & [= _ <-]).
    now apply (p64_cntdomain_unregister_Ok MAXTHREADS) in Hrun as (_ & _ & _ & ?).
  - apply bind_Ok in H as ([x c1] & Hrun & [= _ <-]).
    apply (p64_counter_alloc_Ok MAXTHREADS) in Hrun as [(_ & -> & _)|Hcl];
      try assumption; [reflexivity|].
    now destruct Hcl as (_ & _ & _ & ? & _).
  - apply bind_Ok in H as ([c1 g1] & Hrun & [= _ <-]).
    apply (p64_counter_free_Ok MAXTHREADS) in Hrun as [->|[Hrel _]];
      try assumption; [reflexivity|].
    now destruct Hrel as (_ & _ & ? & _).
  - apply bind_Ok in H as ([c1 g1] & Hrun & [= _ <-]).
    now apply (p64_counter_add_Ok MAXTHREADS) in Hrun as (_ & _ & _ & ?).
  - apply bind_Ok in H as ([x g1] & _ & [= _ <-]). reflexivity.
  - apply bind_Ok in H as ([c1 g1] & Hrun & [= _ <-]).
    apply (p64_counter_reset_Ok MAXTHREADS) in Hrun as (_ & _ & _ & ?);
      [assumption|assumption|simpl in Hc; lia].
Qed.

Lemma run_ncounters fuel : ∀ cs s vs s',
  Forall call_ok cs → invariant MAXTHREADS s →
  run MAXTHREADS fuel cs s = Ok (vs, s') →
  ncounters s'.1 = ncounters s.1.
Proof.
  induction cs as [|c cs IH]; intros s vs s' Hcs Hinv Hrun.
  - now injection Hrun as _ <-.
  - apply Forall_cons in Hcs as [Hc Hcs]. cbn [run] in Hrun.
    apply bind_Ok in Hrun as ([v s1] & Hexec & Hrun).
    apply bind_Ok in Hrun as ([vs1 s2] & Hrest & [= _ <-]).
    rewrite (IH _ _ _ Hcs (exec_invariant _ _ _ _ _ _ Hc Hinv Hexec) Hrest).
    eapply exec_ncounters; eassumption.
Qed.

End Sizes.

(** ** Allocation until exhaustion *)

Section Exhaustion.

Variable MAXTHREADS : nat.

Lemma run_app fuel cs1 cs2 s :
  run MAXTHREADS fuel (cs1 ++ cs2) s
    = '(vs1, s1) ← run MAXTHREADS fuel cs1 s;
      '(vs2, s2) ← run MAXTHREADS fuel cs2 s1;
      Ok (vs1 ++ vs2, s2).
Proof.
  revert s. induction cs1 as [|c cs1 IH]; intros s.
  - simpl. destruct (run MAXTHREADS fuel cs2 s) as [[vs2 s2]| |]; reflexivity.
  - cbn [app run]. destruct (exec MAXTHREADS fuel c s) as [[v s1]| |]; try reflexivity.
    cbn [mbind outcome_bind]. rewrite IH.
    destruct (run MAXTHREADS fuel cs1 s1) as [[vs1 s2]| |]; try reflexivity.
    cbn [mbind outcome_bind].
    destruct (run MAXTHREADS fuel cs2 s2) as [[vs2 s3]| |]; reflexivity.
Qed.

(** With the identifiers from [lo] to [hi] free, the lowest is claimed. *)
Lemma p64_counter_alloc_lowest fuel cntd lo hi :
  wf_cntdomain MAXTHREADS cntd → bitmap_is cntd lo hi →
  1 ≤ lo ≤ hi → hi < ncounters cntd →
  ∃ cntd',
    p64_counter_alloc (S fuel) cntd = Ok (lo, cntd') ∧
    wf_cntdomain MAXTHREADS cntd' ∧ bitmap_is cntd' (lo + 1) hi ∧
    ncounters cntd' = ncounters cntd ∧ shared cntd' = shared cntd ∧
    perthread cntd' = perthread cntd ∧
    load (free cntd') (shared cntd' + lo) = Ok 0.
Proof.
  intros Hwf His Hlo Hhi.
  pose proof (wf_shared_bounds _ _ Hwf) as (_ & Hcover & _).
  assert (bitmap_ok cntd) as Hok by (apply (bitmap_is_ok _ lo hi); [lia|lia|exact His]).
  destruct (p64_counter_alloc_spec MAXTHREADS fuel cntd Hwf Hok)
    as [[_ Hnone]|(id & c' & Hrun & Hcl)].
  - assert (freebit (free cntd) lo = true) as Hset by (apply His; lia).
    rewrite Hnone in Hset by lia. discriminate.
  - pose proof Hcl as (Hid & Hfree & Hlowest & Enc & _ & Esh & Ept & _ & _ & Hbits & Hz & _).
    assert (id = lo) as ->.
    { apply His in Hfree; [|lia].
      destruct (Z.lt_ge_cases lo id) as [Hlt|]; [|lia].
      assert (freebit (free cntd) lo = true) as Hset by (apply His; lia).
      rewrite Hlowest in Hset by lia. discriminate. }
    exists c'. split; [exact Hrun|].
    assert (wf_cntdomain MAXTHREADS c') as Hwf' by (eapply claims_wf; eassumption).
    split; [exact Hwf'|]. split.
    { intros p Hp. rewrite Esh in Hp. rewrite Hbits by exact Hp.
      rewrite andb_true_iff, negb_true_iff, Z.eqb_neq, (His p Hp). lia. }
    do 3 (split; [assumption|]).
    destruct (wf_shared_at MAXTHREADS c' lo Hwf') as [-> _]; [lia|]. now rewrite Hz.
Qed.

(** With no identifier free, the call reports exhaustion. *)
Lemma p64_counter_alloc_exhausted fuel cntd lo hi :
  wf_cntdomain MAXTHREADS cntd → bitmap_is cntd lo hi →
  1 ≤ lo → hi < lo → hi < ncounters cntd →
  p64_counter_alloc (S fuel) cntd = Ok (P64_COUNTER_INVALID, cntd).
Proof.
  intros Hwf His Hlo Hemp Hhi.
  pose proof (wf_shared_bounds _ _ Hwf) as (_ & Hcover & _).
  assert (bitmap_ok cntd) as Hok by (apply (bitmap_is_ok _ lo hi); [lia|lia|exact His]).
  destruct (p64_counter_alloc_spec MAXTHREADS fuel cntd Hwf Hok)
    as [[Hrun _]|(id & c' & _ & Hcl)]; [exact Hrun|].
  destruct Hcl as (Hid & Hfree & _). apply His in Hfree; lia.
Qed.

Lemma run_allocs fuel cntd g hi :
  wf_cntdomain MAXTHREADS cntd → bitmap_is cntd 1 hi → hi < ncounters cntd →
  ∀ k : nat, Z.of_nat k ≤ hi →
  ∃ cntd',
    run MAXTHREADS (S fuel) (replicate k CAlloc) (cntd, g)
      = Ok (seqZ 1 (Z.of_nat k), (cntd', g)) ∧
    wf_cntdomain MAXTHREADS cntd' ∧ bitmap_is cntd' (1 + Z.of_nat k) hi ∧
    ncounters cntd' = ncounters cntd ∧ shared cntd' = shared cntd ∧
    perthread cntd' = perthread cntd ∧
    ((0 < k)%nat → load (free cntd') (shared cntd' + Z.of_nat k) = Ok 0).
Proof.
  intros Hwf His Hhi. induction k as [|k IH]; intros Hk.
  - exists cntd. split; [reflexivity|]. split; [exact Hwf|]. split; [exact His|].
    do 3 (split; [reflexivity|]). lia.
  - destruct IH as (c1 & Hrun & Hwf1 & His1 & Enc1 & Esh1 & Ept1 & _); [lia|].
    destruct (p64_counter_alloc_lowest fuel c1 (1 + Z.of_nat k) hi)
      as (c2 & Halloc & Hwf2 & His2 & Enc2 & Esh2 & Ept2 & Hz2); try assumption; try lia.
    exists c2. rewrite replicate_S_end, run_app, Hrun. cbn [mbind outcome_bind run exec].
    rewrite Halloc. cbn [mbind outcome_bind]. rewrite seqZ_S.
    split; [reflexivity|]. split; [exact Hwf2|]. split.
    { replace (1 + Z.of_nat (S k)) with (1 + Z.of_nat k + 1) by lia. exact His2. }
    split; [congruence|]. split; [congruence|]. split; [congruence|].
    intros _. replace (Z.of_nat (S k)) with (1 + Z.of_nat k) by lia. exact Hz2.
Qed.

End Exhaustion.

(** ** The scenario on any number of thread slots *)

Lemma private_total_unpublished n cntid : private_total (replicate n None) cntid = 0.
Proof. induction n as [|n IH]; [reflexivity|exact IH]. Qed.

Lemma with_threads_wf n a b f :
  length f = 6%nat → Forall word64 f → slot_ok a → slot_ok b →
  wf_cntdomain (S (S n)) (with_threads n a b f).
Proof.
  intros Hlen Hf Ha Hb. constructor; simpl.
  - lia.
  - reflexivity.
  - rewrite Hlen. reflexivity.
  - exact Hf.
  - now rewrite length_replicate.
  - intros [|[|t]] c; simpl.
    + intros [= ->]. destruct (Ha c eq_refl) as [-> Hw]. now split.
    + intros [= ->]. destruct (Hb c eq_refl) as [-> Hw]. now split.
    + intros [[=] _]%lookup_replicate.
Qed.


Lemma with_threads_total n a b f :
  total (with_threads n a b f) 1
    = u64 (default 0 (f !! 2%nat) + (stash_at a + stash_at b)).
Proof.
  unfold total, shared_at, stash_at. simpl.
  change (Z.to_nat (1 + 1)) with 2%nat. change (Z.to_nat 1) with 1%nat.
  destruct a, b; simpl; rewrite private_total_unpublished; f_equal; lia.
Qed.

Lemma with_threads_read n a b f g fuel :
  length f = 6%nat → Forall word64 f → slot_ok a → slot_ok b →
  p64_counter_read (S (S n)) (S fuel) 1 (with_threads n a b f) g
    = Ok (u64 (default 0 (f !! 2%nat) + (stash_at a + stash_at b)), g).
Proof.
  intros Hlen Hf Ha Hb.
  rewrite p64_counter_read_spec; [|now apply with_threads_wf|simpl; lia].
  now rewrite with_threads_total.
Qed.

Lemma with_threads_reset n a b f g fuel :
  length f = 6%nat → Forall word64 f → slot_ok a → slot_ok b →
  p64_counter_reset (S (S n)) (S fuel) 1 (with_threads n a b f) g
    = Ok (with_threads n a b
            (<[2%nat := u64 (default 0 (f !! 2%nat)
                             - u64 (default 0 (f !! 2%nat) + (stash_at a + stash_at b)))]> f),
          g).
Proof.
  intros Hlen Hf Ha Hb.
  rewrite p64_counter_reset_spec; [|now apply with_threads_wf|simpl; lia].
  rewrite with_threads_total. reflexivity.
Qed.

Lemma run_fresh_app MAXTHREADS fuel F capacity flags cs1 cs2 :
  run_fresh MAXTHREADS fuel F capacity flags (cs1 ++ cs2)
    = '(vs1, s1) ← run_fresh MAXTHREADS fuel F capacity flags cs1;
      '(vs2, s2) ← run MAXTHREADS fuel cs2 s1;
      Ok (vs1 ++ vs2, s2).
Proof.
  unfold run_fresh.
  destruct (p64_cntdomain_alloc _ _ _ _ _ _ _) as [[[cntd|] g]| |]; try reflexivity.
  cbn [mbind outcome_bind]. apply run_app.
Qed.

Ltac slots_ok :=
  repeat match goal with
  | |- length _ = _ => reflexivity
  | |- Forall word64 _ => repeat constructor; unfold word64; lia
  | |- slot_ok None => intros ? [=]
  | |- slot_ok (Some _) =>
      intros ? [= <-]; split; [reflexivity|repeat constructor; unfold word64; lia]
  end.


(** ** The steps of overlapping calls *)

Section Overlap.

Variable MAXTHREADS : nat.

(** The loop over a whole stash leaves it [merged]. *)
Lemma merge_merged sh counters f counters' f' :
  0 ≤ sh →
  sh + Z.of_nat (length counters) ≤ Z.of_nat (length f) →
  merge (length counters) 0 sh counters f = Ok (counters', f') →
  counters' = merged counters.
Proof.
  intros Hsh Hlen Hrun.
  destruct (merge_spec sh (length counters) 0 counters f)
    as (c2 & f2 & Hrun2 & Hl & _ & _ & _ & _ & _ & _ & Hin); try lia.
  rewrite Hrun2 in Hrun. injection Hrun as <- <-.
  apply list_eq. intros k. unfold merged. rewrite list_lookup_fmap.
  destruct (counters !! k) as [c|] eqn:Hc; simpl.
  - apply lookup_lt_Some in Hc as Hk.
    destruct (lookup_lt_is_Some_2 f (Z.to_nat (sh + Z.of_nat k))) as [x Hx]; [lia|].
    destruct (Hin (Z.of_nat k) c x) as [_ Hc2]; [lia|now rewrite Nat2Z.id|exact Hx|].
    now rewrite Nat2Z.id in Hc2.
  - apply lookup_ge_None. rewrite Hl. now apply lookup_ge_None.
Qed.

(** A reset is its read followed at once by its subtraction. *)
Lemma p64_counter_reset_steps fuel cntid cntd g :
  p64_counter_reset MAXTHREADS fuel cntid cntd g
    = if invalid_cntid cntd cntid then Ok (cntd, report_invalid_counter cntid g)
      else '(cur, g') ← p64_counter_read MAXTHREADS fuel cntid cntd g;
           cntd' ← fetch_sub_shared cntid cur cntd;
           Ok (cntd', g').
Proof.
  unfold p64_counter_reset, fetch_sub_shared.
  destruct (invalid_cntid cntd cntid); [reflexivity|].
  destruct (p64_counter_read _ _ _ _ _) as [[cur g']| |]; try reflexivity.
  cbn [mbind outcome_bind].
  destruct (load _ _) as [old| |]; try reflexivity. cbn [mbind outcome_bind].
  destruct (store _ _ _) as [f'| |]; reflexivity.
Qed.

(** An unregistration that passes its two checks is the loop from index 0
    on and what follows it. *)
Lemma unregister_from_start self cntd g counters :
  count (get_pth self g) ≠ 0 →
  load (perthread cntd) (tidx (get_pth self g)) = Ok (Some counters) →
  p64_cntdomain_unregister self cntd g = unregister_from self 0 cntd g.
Proof.
  intros Hc Hslot. unfold p64_cntdomain_unregister, unregister_from. cbv zeta.
  destruct (Z.eqb_spec (count (get_pth self g)) 0) as [|_]; [contradiction|].
  rewrite Hslot. cbn [mbind outcome_bind]. now rewrite Z.sub_0_r.
Qed.

(** One iteration of the loop is the zeroing of the entry followed, if the
    value was not 0, by the addition to the shared word; with no access of
    another thread in between, the rest of the call goes on as before. *)
Lemma unregister_from_step self i cntd g :
  0 ≤ i < ncounters cntd →
  unregister_from self i cntd g
    = '(val, cntd1) ← unregister_zero self i cntd g;
      cntd2 ← (if negb (val =? 0) then fetch_add_shared i val cntd1 else Ok cntd1);
      unregister_from self (i + 1) cntd2 g.
Proof.
  intros Hi. unfold unregister_from at 1, unregister_zero. cbv zeta.
  destruct (load (perthread cntd) (tidx (get_pth self g))) as [[counters|]| |] eqn:Hslot;
    try reflexivity.
  cbn [mbind outcome_bind].
  replace (Z.to_nat (ncounters cntd - i)) with (S (Z.to_nat (ncounters cntd - (i + 1))))
    by lia.
  cbn [merge].
  destruct (load counters i) as [c| |] eqn:Hc; try reflexivity.
  cbn [mbind outcome_bind].
  destruct (u32 c =? 0) eqn:Hval; cbn [negb].
  - cbn [mbind outcome_bind]. cbv beta iota zeta. rewrite Hval. cbn [negb mbind outcome_bind].
    unfold unregister_from. cbv zeta. rewrite Hslot. reflexivity.
  - apply load_Ok in Hc as [Hci _]. apply load_Ok in Hslot as [Hti Hslot].
    rewrite (store_in_range counters) by exact Hci.
    cbn [mbind outcome_bind].
    rewrite (store_in_range (perthread cntd) _ None) by exact Hti.
    rewrite (store_in_range (perthread cntd) _ (Some _)) by exact Hti.
    cbn [mbind outcome_bind]. cbv beta iota zeta. rewrite Hval. cbn [negb].
    unfold fetch_add_shared. cbn [free shared set_perthread].
    destruct (load (free cntd) (shared cntd + i)) as [old| |]; try reflexivity.
    cbn [mbind outcome_bind].
    destruct (store (free cntd) (shared cntd + i) _) as [f1| |]; try reflexivity.
    cbn [mbind outcome_bind].
    unfold unregister_from. cbv zeta.
    cbn [perthread ncounters shared free use_hp set_free set_perthread].
    assert (load (<[Z.to_nat (tidx (get_pth self g)) := Some (<[Z.to_nat i := 0]> counters)]>
                    (perthread cntd)) (tidx (get_pth self g))
            = Ok (Some (<[Z.to_nat i := 0]> counters))) as ->.
    { apply load_Ok. rewrite length_insert. split; [exact Hti|].
      apply list_lookup_insert_eq. lia. }
    cbn [mbind outcome_bind].
    destruct (merge _ _ _ _ _) as [[c2 f2]| |]; try reflexivity.
    cbn [mbind outcome_bind].
    rewrite store_in_range by (rewrite length_insert; exact Hti).
    rewrite list_insert_insert_eq. reflexivity.
Qed.

End Overlap.

(** * The specified properties *)

Section Properties.

Variable MAXTHREADS : nat.
Variable P64_COUNTER_F_HP : Z.

(** C5.  On the domain that creation with capacity [capacity] returns,
    [capacity + 1] calls of [p64_counter_alloc] return [capacity] pairwise
    distinct identifiers, each from 1 to [capacity], and then the invalid
    sentinel; after the call that returns an identifier, that identifier's
    word of the shared accumulator is zero.  The word is reset, not found
    zero: whatever calls have run on the domain and whatever they have left
    in the shared accumulator, an allocation that returns an identifier
    leaves that identifier's word at zero and the words of all other
    identifiers as they were. *)
Theorem alloc_until_exhausted fuel fuel' capacity flags g cntd g' :
  0 ≤ capacity < 2 ^ 32 →
  p64_cntdomain_alloc MAXTHREADS P64_COUNTER_F_HP fuel capacity flags true g
    = Ok (Some cntd, g') →
  (∃ ids cntd',
     run MAXTHREADS (S fuel') (replicate (S (Z.to_nat capacity)) CAlloc) (cntd, g')
       = Ok (ids ++ [P64_COUNTER_INVALID], (cntd', g')) ∧
     length ids = Z.to_nat capacity ∧
     NoDup ids ∧
     Forall (λ cntid, 1 ≤ cntid ≤ capacity) ids ∧
     ∀ (k : nat) cntid, ids !! k = Some cntid →
       ∃ vs cntd_k,
         run MAXTHREADS (S fuel') (replicate (S k) CAlloc) (cntd, g')
           = Ok (vs ++ [cntid], (cntd_k, g')) ∧
         load (free cntd_k) (shared cntd_k + cntid) = Ok 0) ∧
  ∀ fuel1 fuel2 cs vs cntd1 g1 cntid cntd2,
    Forall call_ok cs →
    run MAXTHREADS fuel1 cs (cntd, g') = Ok (vs, (cntd1, g1)) →
    p64_counter_alloc fuel2 cntd1 = Ok (cntid, cntd2) →
    cntid ≠ P64_COUNTER_INVALID →
    1 ≤ cntid ≤ capacity ∧
    load (free cntd2) (shared cntd2 + cntid) = Ok 0 ∧
    ∀ j, 0 ≤ j ≤ capacity → j ≠ cntid →
      load (free cntd2) (shared cntd2 + j) = load (free cntd1) (shared cntd1 + j).
Proof.
  intros Hcap Hcreate.
  apply p64_cntdomain_alloc_Some in Hcreate as (Hwf & Hnc & His & _ & _); [|exact Hcap].
  assert (capacity < ncounters cntd) as Hhi by lia.
  split.
  { destruct (run_allocs MAXTHREADS fuel' cntd g' capacity Hwf His Hhi (Z.to_nat capacity))
      as (c1 & Hrun & Hwf1 & His1 & Enc1 & _); [lia|].
    rewrite Z2Nat.id in Hrun, His1 by lia.
    exists (seqZ 1 capacity), c1. split.
    { rewrite replicate_S_end, run_app, Hrun. cbn [mbind outcome_bind run exec].
      rewrite (p64_counter_alloc_exhausted MAXTHREADS fuel' c1 (1 + capacity) capacity);
        try assumption; try lia. reflexivity. }
    split; [apply length_seqZ|]. split; [apply NoDup_seqZ|]. split.
    { apply Forall_seqZ. intros x Hx. lia. }
    intros k cntid [-> Hk]%lookup_seqZ.
    destruct (run_allocs MAXTHREADS fuel' cntd g' capacity Hwf His Hhi (S k))
      as (ck & Hrunk & _ & _ & _ & _ & _ & Hz); [lia|].
    exists (seqZ 1 (Z.of_nat k)), ck. rewrite Hrunk, seqZ_S.
    split; [reflexivity|].
    replace (1 + Z.of_nat k) with (Z.of_nat (S k)) by lia. apply Hz. lia. }
  intros fuel1 fuel2 cs vs cntd1 g1 cntid cntd2 Hcs Hrun Halloc Hne.
  assert (invariant MAXTHREADS (cntd, g')) as Hinv.
  { split; [exact Hwf|]. simpl. apply (bitmap_is_ok _ 1 capacity); [lia|lia|exact His]. }
  assert (ncounters cntd1 = ncounters cntd) as Enc1.
  { exact (run_ncounters MAXTHREADS fuel1 cs (cntd, g') vs (cntd1, g1) Hcs Hinv Hrun). }
  destruct (run_invariant MAXTHREADS fuel1 cs _ _ _ Hcs Hinv Hrun) as [Hwf1 Hok1].
  simpl in Hwf1, Hok1.
  destruct (p64_counter_alloc_Ok MAXTHREADS fuel2 cntd1 cntid cntd2 Hwf1 Hok1 Halloc)
    as [(-> & _)|Hcl]; [contradiction|].
  pose proof (claims_wf MAXTHREADS _ _ _ Hwf1 Hcl) as Hwf2.
  destruct Hcl as (Hid & _ & _ & Enc2 & _ & Esh2 & _ & _ & _ & _ & Hzero & Hrest).
  split; [lia|]. split.
  { destruct (wf_shared_at MAXTHREADS cntd2 cntid Hwf2) as [-> _]; [lia|].
    now rewrite Hzero. }
  intros j Hj Hjne.
  destruct (wf_shared_at MAXTHREADS cntd2 j Hwf2) as [-> _]; [lia|].
  destruct (wf_shared_at MAXTHREADS cntd1 j Hwf1) as [-> _]; [lia|].
  rewrite Hrest by lia. reflexivity.
Qed.

(** C6.  In every domain reached from creation by calls of
    [p64_counter_alloc] and [p64_counter_free], bit 0 of the bitmap is clear
    and no bit from [ncounters] (the number of identifiers, the reserved one
    included) on is set.  So a call of [p64_counter_alloc] returns, and it
    returns the invalid sentinel with the domain unchanged, or an identifier
    from 1 to [ncounters - 1] that was free and is now in use; and as long as
    the calls that follow do not free that identifier, no allocation among
    them returns it. *)
Theorem bitmap_reserved_and_bounded cntd :
  reachable MAXTHREADS P64_COUNTER_F_HP cntd →
  freebit (free cntd) 0 = false ∧
  (∀ p, ncounters cntd ≤ p < BITSPERWORD * shared cntd →
        freebit (free cntd) p = false) ∧
  (∀ fuel, ∃ r, p64_counter_alloc (S fuel) cntd = Ok r) ∧
  ∀ fuel cntid cntd',
    p64_counter_alloc fuel cntd = Ok (cntid, cntd') →
    (cntid = P64_COUNTER_INVALID ∧ cntd' = cntd) ∨
    (1 ≤ cntid < ncounters cntd ∧
     freebit (free cntd) cntid = true ∧
     freebit (free cntd') cntid = false ∧
     ∀ fuel' calls g vs s',
       Forall (keeps_claimed cntid) calls →
       run MAXTHREADS fuel' calls (cntd', g) = Ok (vs, s') →
       ∀ k, calls !! k = Some CAlloc → vs !! k ≠ Some cntid).
Proof.
  intros [Hwf Hok]%reachable_wf.
  pose proof (wf_shared_bounds _ _ Hwf) as (Hsh0 & Hcover & _).
  pose proof (wf_ncounters _ _ Hwf) as Hnc.
  split.
  { destruct (freebit (free cntd) 0) eqn:Hbit; [|reflexivity].
    exfalso. apply Hok in Hbit; unfold BITSPERWORD in *; lia. }
  split.
  { intros p Hp. destruct (freebit (free cntd) p) eqn:Hbit; [|reflexivity].
    exfalso. apply Hok in Hbit; unfold BITSPERWORD in *; lia. }
  split.
  { intros fuel.
    destruct (p64_counter_alloc_spec MAXTHREADS fuel cntd Hwf Hok)
      as [[Hrun _]|(id & c' & Hrun & _)]; eauto. }
  intros fuel cntid cntd' Hrun.
  apply (p64_counter_alloc_Ok MAXTHREADS) in Hrun as [(-> & -> & _)|Hcl];
    try assumption; [now left|right].
  pose proof (claims_taken MAXTHREADS _ _ _ Hwf Hcl) as Htaken.
  pose proof Hcl as (Hid & Hfree & _ & Enc & _).
  do 3 (split; [assumption|]).
  intros fuel' calls g vs s' Hcalls Hruns.
  apply (run_keeps_claimed MAXTHREADS fuel' cntid calls cntd' g vs s');
    try assumption.
  - eapply claims_wf; eassumption.
  - eapply claims_bitmap_ok; eassumption.
  - now rewrite Enc.
Qed.


(** C9.  With the calls executed one after the other, a read of a
    well-formed domain returns whatever the fuel of its loop beyond the first
    unit: for a valid identifier the first traversal ends with [sh1] equal to
    [sh0], and the loop leaves with that traversal's sum. *)
Theorem read_one_traversal cntid cntd g :
  wf_cntdomain MAXTHREADS cntd →
  0 ≤ cntid →
  ∃ v g',
    (∀ fuel, p64_counter_read MAXTHREADS (S fuel) cntid cntd g = Ok (v, g')) ∧
    (invalid_cntid cntd cntid = false →
     ∃ sh, read_pass MAXTHREADS cntd cntid = Ok (sh, v, sh) ∧
           ∀ fuel, read_loop MAXTHREADS (S fuel) cntd cntid = Ok v).
Proof.
  intros Hwf Hnn. destruct (invalid_cntid cntd cntid) eqn:Hinv.
  - exists 0, (report_invalid_counter cntid g). split; [|discriminate].
    intros fuel. unfold p64_counter_read. now rewrite Hinv.
  - assert (1 ≤ cntid < ncounters cntd) as Hid.
    { unfold invalid_cntid, P64_COUNTER_INVALID in Hinv.
      apply orb_false_elim in Hinv as [Hne%Z.eqb_neq Hlt%Z.leb_gt]. lia. }
    exists (total cntd cntid), g. split.
    + intros fuel. now apply p64_counter_read_spec.
    + intros _. exists (shared_at cntd cntid).
      split; [apply read_pass_spec; [exact Hwf|lia]|].
      intros fuel. cbn [read_loop].
      rewrite read_pass_spec by (try assumption; lia). simpl.
      now rewrite Z.eqb_refl.
Qed.

(** C2, as amended.  While the stash of a thread is published and its
    reference count is at least 1, additions by the thread and reads are
    served.  Every unregistration that finds the stash published, at
    whatever depth, moves the entries below [2^32] to the shared accumulator,
    leaves the bitmap alone, empties the thread's slot, hands the stash as
    the loop has left it (the entries with non-zero low 32 bits zeroed, so
    all zero if every entry is below [2^32]) to the reclamation engine of
    the domain, to that engine only, and decrements the reference count;
    the thread index is released only when the count reaches 0. *)
Theorem unregister_at_depth self cntd g counters :
  wf_cntdomain MAXTHREADS cntd →
  1 ≤ count (get_pth self g) < 2 ^ 32 →
  0 ≤ tidx (get_pth self g) →
  perthread cntd !! Z.to_nat (tidx (get_pth self g)) = Some (Some counters) →
  (∀ cntid val, 1 ≤ cntid < ncounters cntd →
     ∃ cntd1, p64_counter_add self cntid val cntd g = Ok (cntd1, g)) ∧
  (∀ cntid, 0 ≤ cntid →
     ∃ v g1, ∀ fuel, p64_counter_read MAXTHREADS (S fuel) cntid cntd g = Ok (v, g1)) ∧
  ∃ cntd' g',
    p64_cntdomain_unregister self cntd g = Ok (cntd', g') ∧
    perthread cntd' = <[Z.to_nat (tidx (get_pth self g)) := None]> (perthread cntd) ∧
    (if use_hp cntd
     then hazptr_retired g' = merged counters :: hazptr_retired g ∧
          qsbr_retired g' = qsbr_retired g
     else qsbr_retired g' = merged counters :: qsbr_retired g ∧
          hazptr_retired g' = hazptr_retired g) ∧
    (Forall (λ c, c < 2 ^ 32) counters →
     merged counters = replicate (Z.to_nat (ncounters cntd)) 0) ∧
    (∀ i c, 0 ≤ i < ncounters cntd → counters !! Z.to_nat i = Some c → c < 2 ^ 32 →
       shared_at cntd' i = u64 (shared_at cntd i + c)) ∧
    (∀ p, 0 ≤ p < BITSPERWORD * shared cntd →
       freebit (free cntd') p = freebit (free cntd) p) ∧
    count (get_pth self g') = count (get_pth self g) - 1 ∧
    (if count (get_pth self g) =? 1
     then tidx (get_pth self g') = -1 ∧
          thr_idx g' = <[Z.to_nat (tidx (get_pth self g)) := false]> (thr_idx g)
     else tidx (get_pth self g') = tidx (get_pth self g) ∧
          thr_idx g' = thr_idx g).
Proof.
  intros Hwf Hcount Hidx Hslot. split; [|split].
  { intros cntid val Hid.
    destruct (p64_counter_add_published MAXTHREADS self cntid val cntd g counters)
      as (old & _ & Hadd); try assumption; [lia|]. eauto. }
  { intros cntid Hnn. now apply p64_counter_read_total. }
  destruct (p64_cntdomain_unregister_published MAXTHREADS self cntd g counters)
    as (c' & f' & Hmerge & Hrun); try assumption; [lia|].
  destruct (wf_stash _ _ Hwf _ _ Hslot) as [Hl Hw].
  pose proof (wf_shared_bounds _ _ Hwf) as (Hsh0 & _ & _).
  pose proof (wf_length _ _ Hwf) as Hlen.
  pose proof (wf_ncounters _ _ Hwf) as Hnc.
  assert (c' = merged counters) as ->.
  { apply (merge_merged (shared cntd) counters (free cntd) _ f'); [lia|lia|].
    rewrite <- Hmerge. f_equal. lia. }
  destruct (merge_spec (shared cntd) (Z.to_nat (ncounters cntd)) 0 counters (free cntd))
    as (c2 & f2 & Hrun2 & _ & _ & _ & _ & _ & Hlo & _ & Hin); try lia.
  rewrite Hrun2 in Hmerge. injection Hmerge as -> <-. cbv zeta in Hrun.
  eexists _, _. split; [exact Hrun|]. split; [reflexivity|].
  assert (u32 (count (get_pth self g) - 1) = count (get_pth self g) - 1) as Hwrap
    by (unfold u32; apply Z.mod_small; lia).
  rewrite Hwrap. split.
  { destruct (count (get_pth self g) - 1 =? 0), (use_hp cntd); simpl; auto. }
  split.
  { intros Hsmall. apply list_eq. intros k. unfold merged.
    rewrite list_lookup_fmap.
    destruct (counters !! k) as [c|] eqn:Hc; simpl.
    - apply lookup_lt_Some in Hc as Hk.
      rewrite lookup_replicate_2 by lia. f_equal.
      rewrite Forall_lookup in Hsmall. rewrite Forall_lookup in Hw.
      pose proof (Hsmall _ _ Hc) as H1. pose proof (Hw _ _ Hc) as H2.
      unfold word64 in H2. simpl in H1.
      destruct (Z.eqb_spec (u32 c) 0) as [H0|]; [|reflexivity].
      unfold u32 in H0. rewrite Z.mod_small in H0 by lia. exact H0.
    - symmetry. apply lookup_replicate_None. apply lookup_ge_None in Hc. lia. }
  split.
  { intros i c Hi Hc Hsmall. unfold shared_at. simpl.
    destruct (lookup_lt_is_Some_2 (free cntd) (Z.to_nat (shared cntd + i)))
      as [x Hx]; [lia|].
    destruct (Hin i c x) as [-> _]; [lia|exact Hc|exact Hx|].
    rewrite Hx. simpl.
    assert (word64 c) as Hwc by (rewrite Forall_lookup in Hw; exact (Hw _ _ Hc)).
    assert (u32 c = c) as -> by (unfold u32, word64 in *; apply Z.mod_small; lia).
    destruct (Z.eqb_spec c 0) as [->|]; [|reflexivity].
    rewrite Z.add_0_r, u64_word64; [reflexivity|exact (wf_word _ _ _ _ Hwf Hx)]. }
  split.
  { intros p Hp. simpl. unfold freebit.
    rewrite Hlo by (unfold BITSPERWORD in *; lia). reflexivity. }
  destruct (Z.eqb_spec (count (get_pth self g)) 1) as [H1|Hn1].
  - rewrite H1. simpl. rewrite get_set_pth. simpl.
    destruct (use_hp cntd); auto.
  - destruct (Z.eqb_spec (count (get_pth self g) - 1) 0); [lia|].
    rewrite get_set_pth. simpl. destruct (use_hp cntd); auto.
Qed.

End Properties.

(** * The properties on concrete domains

    Where nothing else is said: four thread slots, hazard-pointer flag 1,
    fuel 8 and no flags. *)

Lemma fresh4_created :
  p64_cntdomain_alloc 4 1 8 4 0 true (globals_init 4) = Ok (Some fresh4, globals_init 4).
Proof. vm_compute. reflexivity. Qed.

Lemma two_threads_reached :
  run_fresh 4 8 1 4 0
    [CAlloc; CRegister tA true; CAdd tA 1 5; CRegister tB true; CAdd tB 1 7]
    = Ok ([1; 0; 0; 0; 0], two_threads).
Proof. vm_compute. reflexivity. Qed.

Lemma nested_reached :
  run_fresh 4 8 1 4 0 [CAlloc; CRegister tA true; CRegister tA true; CAdd tA 1 5]
    = Ok ([1; 0; 0; 0], nested).
Proof. vm_compute. reflexivity. Qed.

Lemma two_threads_wf : wf_cntdomain 4 two_threads.1.
Proof.
  refine (proj1 (run_fresh_invariant 4 8 1 4 0 _ _ _ _ _ two_threads_reached)).
  - lia.
  - repeat constructor; simpl; lia.
Qed.

Lemma nested_wf : wf_cntdomain 4 nested.1.
Proof.
  refine (proj1 (run_fresh_invariant 4 8 1 4 0 _ _ _ _ _ nested_reached)).
  - lia.
  - repeat constructor; simpl; lia.
Qed.

(** C1, at the failing input.  A thread adds [2^32] to counter 1 and
    [2^32 + 5] to counter 2 and unregisters: the shared word of counter 1
    stays 0 and its stash entry is retired unzeroed, the shared word of
    counter 2 grows by 5 only. *)
Theorem unregister_truncates_stash :
  ∃ cntd g,
    run_fresh 4 8 1 4 0
      [CAlloc; CAlloc; CRegister tA true; CAdd tA 1 (2 ^ 32); CAdd tA 2 (2 ^ 32 + 5);
       CUnregister tA]
      = Ok ([1; 2; 0; 0; 0; 0], (cntd, g)) ∧
    load (free cntd) (shared cntd + 1) = Ok 0 ∧
    load (free cntd) (shared cntd + 2) = Ok 5 ∧
    qsbr_retired g = [[0; 2 ^ 32; 0; 0; 0]].
Proof.
  do 2 eexists. split; [vm_compute; reflexivity|].
  vm_compute. repeat split; reflexivity.
Qed.

(** C2, the counterexample.  With thread A registered twice, its first
    unregistration does not leave the stash in place: it is merged,
    unpublished and retired, and the addition that follows is not served. *)
Lemma nested_unregister_counterexample :
  ∃ cntd' g',
    count (get_pth tA nested.2) = 2 ∧
    perthread nested.1 !! 0%nat = Some (Some [0; 5; 0; 0; 0]) ∧
    p64_cntdomain_unregister tA nested.1 nested.2 = Ok (cntd', g') ∧
    count (get_pth tA g') = 1 ∧
    perthread cntd' !! 0%nat = Some None ∧
    qsbr_retired nested.2 = [] ∧ qsbr_retired g' = [[0; 0; 0; 0; 0]] ∧
    load (free nested.1) (shared nested.1 + 1) = Ok 0 ∧
    load (free cntd') (shared cntd' + 1) = Ok 5 ∧
    p64_counter_add tA 1 1 cntd' g' = Fault ∧
    ¬ (perthread cntd' = perthread nested.1 ∧
       free cntd' = free nested.1 ∧
       qsbr_retired g' = qsbr_retired nested.2 ∧
       ∃ s, p64_counter_add tA 1 1 cntd' g' = Ok s).
Proof.
  do 2 eexists. split; [reflexivity|]. split; [reflexivity|].
  split; [vm_compute; reflexivity|].
  do 7 (split; [vm_compute; reflexivity|]).
  intros (H & _). vm_compute in H. discriminate H.
Qed.

(** C3, at the failing input.  The stash allocation of thread A's first
    registration fails: the reference count has gone from 0 to 1, a thread
    index is held, and the addition that follows dereferences the empty
    slot. *)
Theorem failed_register_leaves_refcount :
  ∃ cntd g,
    run_fresh 4 8 1 4 0 [CAlloc; CRegister tA false] = Ok ([1; 0], (cntd, g)) ∧
    count (get_pth tA (globals_init 4)) = 0 ∧
    count (get_pth tA g) = 1 ∧
    thr_idx g = [true; false; false; false] ∧
    errors g = [mk_error "counter" "failed to allocate private stash" 0] ∧
    p64_counter_add tA 1 5 cntd g = Fault.
Proof.
  do 2 eexists. split; [vm_compute; reflexivity|].
  vm_compute. repeat split; reflexivity.
Qed.

(** C4, the counterexample.  The scenario does not end with a read of 0. *)
Lemma scenario_reuse_counterexample :
  ¬ ∃ s, run_fresh 4 8 1 4 0 scenario
           = Ok ([1; 0; 0; 0; 0; 12; 0; 12; 0; 0; 0; 1; 0], s).
Proof. intros [s H]. vm_compute in H. discriminate H. Qed.

(** C4, as amended.  The scenario on a fresh domain of capacity 4, with
    whatever number of thread slots from two on: the allocation yields 1, the
    reads give 12, 12 after A has unregistered and 0 after the reset; the
    identifier is freed and allocated again, and the read of the reused
    identifier gives the 7 that B's stash still holds. *)
Theorem scenario_reuse n P64_COUNTER_F_HP fuel :
  ∃ s, run_fresh (S (S n)) (6 + fuel) P64_COUNTER_F_HP 4 0 scenario
         = Ok ([1; 0; 0; 0; 0; 12; 0; 12; 0; 0; 0; 1; 7], s).
Proof.
  pose (sA := Some [0; 5; 0; 0; 0]). pose (sB := Some [0; 7; 0; 0; 0]).
  set (pA := mk_pth 0 1). set (pB := mk_pth 1 1).
  assert (run_fresh (S (S n)) (6 + fuel) P64_COUNTER_F_HP 4 0
            [CAlloc; CRegister tA true; CAdd tA 1 5; CRegister tB true; CAdd tB 1 7]
          = Ok ([1; 0; 0; 0; 0],
                (with_threads n sA sB [28; 0; 0; 0; 0; 0],
                 globals_of n (<[tB := pB]> (<[tA := pA]> ∅)) true true [])))
    as Hregistered by (vm_compute; reflexivity).
  assert (p64_cntdomain_unregister tA (with_threads n sA sB [28; 0; 0; 0; 0; 0])
            (globals_of n (<[tB := pB]> (<[tA := pA]> ∅)) true true [])
          = Ok (with_threads n None sB [28; 0; 5; 0; 0; 0],
                globals_of n (<[tA := mk_pth (-1) 0]> (<[tB := pB]> (<[tA := pA]> ∅)))
                  false true [[0; 0; 0; 0; 0]]))
    as Hunregistered by (vm_compute; reflexivity).
  set (g2 := globals_of n (<[tA := mk_pth (-1) 0]> (<[tB := pB]> (<[tA := pA]> ∅)))
               false true [[0; 0; 0; 0; 0]]) in *.
  assert (p64_counter_free 1 (with_threads n None sB [28; 0; 2 ^ 64 - 7; 0; 0; 0]) g2
          = Ok (with_threads n None sB [30; 0; 2 ^ 64 - 7; 0; 0; 0], g2))
    as Hfreed by (vm_compute; reflexivity).
  assert (p64_counter_alloc (6 + fuel) (with_threads n None sB [30; 0; 2 ^ 64 - 7; 0; 0; 0])
          = Ok (1, with_threads n None sB [28; 0; 0; 0; 0; 0]))
    as Hreused by (vm_compute; reflexivity).
  eexists. subst sA sB.
  change scenario with
    ([CAlloc; CRegister tA true; CAdd tA 1 5; CRegister tB true; CAdd tB 1 7]
     ++ [CRead 1; CUnregister tA; CRead 1; CReset 1; CRead 1; CFree 1; CAlloc; CRead 1]).
  rewrite run_fresh_app, Hregistered. cbn [mbind outcome_bind run exec].
  change (6 + fuel)%nat with (S (5 + fuel)) in *.
  rewrite with_threads_read by slots_ok. cbn [mbind outcome_bind exec].
  rewrite Hunregistered. cbn [mbind outcome_bind exec].
  rewrite with_threads_read by slots_ok. cbn [mbind outcome_bind exec].
  rewrite with_threads_reset by slots_ok. cbn [mbind outcome_bind exec].
  change (<[2%nat := _]> [28; 0; 5; 0; 0; 0]) with [28; 0; 2 ^ 64 - 7; 0; 0; 0].
  rewrite with_threads_read by slots_ok. cbn [mbind outcome_bind exec].
  rewrite Hfreed. cbn [mbind outcome_bind exec].
  rewrite Hreused. cbn [mbind outcome_bind exec].
  rewrite with_threads_read by slots_ok. cbn [mbind outcome_bind].
  reflexivity.
Qed.

(** C8, at the failing inputs.  After a registration whose stash allocation
    failed, and after the first unregistration of a thread registered twice,
    the reference count is not zero, identifier 1 passes validation, the
    thread's slot is empty, and the addition dereferences it. *)
Theorem add_reaches_absent_stash :
  (∃ cntd g,
     run_fresh 4 8 1 4 0 [CAlloc; CRegister tA false] = Ok ([1; 0], (cntd, g)) ∧
     (count (get_pth tA g) =? 0) = false ∧
     invalid_cntid cntd 1 = false ∧
     perthread cntd !! Z.to_nat (tidx (get_pth tA g)) = Some None ∧
     p64_counter_add tA 1 5 cntd g = Fault) ∧
  (∃ cntd g,
     run_fresh 4 8 1 4 0 [CAlloc; CRegister tA true; CRegister tA true; CUnregister tA]
       = Ok ([1; 0; 0; 0], (cntd, g)) ∧
     (count (get_pth tA g) =? 0) = false ∧
     invalid_cntid cntd 1 = false ∧
     perthread cntd !! Z.to_nat (tidx (get_pth tA g)) = Some None ∧
     p64_counter_add tA 1 5 cntd g = Fault).
Proof.
  split; do 2 eexists; (split; [vm_compute; reflexivity|]);
    vm_compute; repeat split; reflexivity.
Qed.

(** C10, at the failing input.  For capacity [2^32 - 1] the identifier
    count wraps to 0 and the bitmap has no word; no error is reported, and
    the reservation of identifier 0 accesses [free[0]] outside the block. *)
Theorem create_full_range_faults MAXTHREADS P64_COUNTER_F_HP fuel g :
  u32 (2 ^ 32 - 1 + 1) = 0 ∧
  nwords_of 0 = 0 ∧
  p64_cntdomain_alloc MAXTHREADS P64_COUNTER_F_HP (S fuel) (2 ^ 32 - 1) 0 true g = Fault ∧
  p64_cntdomain_alloc MAXTHREADS P64_COUNTER_F_HP O (2 ^ 32 - 1) 0 true g = NoFuel.
Proof. repeat split; reflexivity. Qed.


(** ** Witnesses *)

Lemma alloc_until_exhausted_witness :
  0 ≤ 4 < 2 ^ 32 ∧
  p64_cntdomain_alloc 4 1 8 4 0 true (globals_init 4)
    = Ok (Some fresh4, globals_init 4) ∧
  (∃ ids cntd',
     run 4 1 (replicate (S (Z.to_nat 4)) CAlloc) (fresh4, globals_init 4)
       = Ok (ids ++ [P64_COUNTER_INVALID], (cntd', globals_init 4)) ∧
     length ids = Z.to_nat 4 ∧
     NoDup ids ∧
     Forall (λ cntid, 1 ≤ cntid ≤ 4) ids ∧
     ∀ (k : nat) cntid, ids !! k = Some cntid →
       ∃ vs cntd_k,
         run 4 1 (replicate (S k) CAlloc) (fresh4, globals_init 4)
           = Ok (vs ++ [cntid], (cntd_k, globals_init 4)) ∧
         load (free cntd_k) (shared cntd_k + cntid) = Ok 0) ∧
  ∃ cntd1 g1 cntd2,
    Forall call_ok [CAlloc; CRegister tA true; CAdd tA 1 5; CReset 1; CFree 1] ∧
    run 4 1 [CAlloc; CRegister tA true; CAdd tA 1 5; CReset 1; CFree 1]
      (fresh4, globals_init 4) = Ok ([1; 0; 0; 0; 0], (cntd1, g1)) ∧
    load (free cntd1) (shared cntd1 + 1) = Ok (2 ^ 64 - 5) ∧
    p64_counter_alloc 1 cntd1 = Ok (1, cntd2) ∧
    1 ≠ P64_COUNTER_INVALID ∧
    load (free cntd2) (shared cntd2 + 1) = Ok 0.
Proof.
  assert (0 ≤ 4 < 2 ^ 32) as Hcap by lia.
  assert (Forall call_ok [CAlloc; CRegister tA true; CAdd tA 1 5; CReset 1; CFree 1])
    as Hcs by (repeat constructor; simpl; lia).
  assert (1 ≠ P64_COUNTER_INVALID) as Hne by discriminate.
  split; [exact Hcap|]. split; [exact fresh4_created|].
  destruct (alloc_until_exhausted 4 1 8 0 4 0 (globals_init 4) fresh4 (globals_init 4)
              Hcap fresh4_created) as [Hfirst Hreset].
  split; [exact Hfirst|].
  do 3 eexists. split; [exact Hcs|].
  split; [vm_compute; reflexivity|]. split; [vm_compute; reflexivity|].
  split; [vm_compute; reflexivity|]. split; [exact Hne|].
  refine (proj1 (proj2 (Hreset 1%nat 1%nat _ _ _ _ 1 _ Hcs _ _ Hne))).
  - vm_compute. reflexivity.
  - vm_compute. reflexivity.
Defined.

Lemma bitmap_reserved_and_bounded_witness :
  reachable 4 1 fresh4 ∧
  freebit (free fresh4) 0 = false ∧
  (∀ p, ncounters fresh4 ≤ p < BITSPERWORD * shared fresh4 →
        freebit (free fresh4) p = false) ∧
  (∀ fuel, ∃ r, p64_counter_alloc (S fuel) fresh4 = Ok r) ∧
  ∀ fuel cntid cntd',
    p64_counter_alloc fuel fresh4 = Ok (cntid, cntd') →
    (cntid = P64_COUNTER_INVALID ∧ cntd' = fresh4) ∨
    (1 ≤ cntid < ncounters fresh4 ∧
     freebit (free fresh4) cntid = true ∧
     freebit (free cntd') cntid = false ∧
     ∀ fuel' calls g vs s',
       Forall (keeps_claimed cntid) calls →
       run 4 fuel' calls (cntd', g) = Ok (vs, s') →
       ∀ k, calls !! k = Some CAlloc → vs !! k ≠ Some cntid).
Proof.
  assert (reachable 4 1 fresh4) as Hreach.
  { apply (reach_create 4 1 8%nat 4 0 (globals_init 4) fresh4 (globals_init 4));
      [lia|vm_compute; reflexivity]. }
  split; [exact Hreach|]. exact (bitmap_reserved_and_bounded 4 1 fresh4 Hreach).
Defined.


Lemma read_one_traversal_witness :
  wf_cntdomain 4 two_threads.1 ∧
  0 ≤ 1 ∧
  ∃ v g',
    (∀ fuel, p64_counter_read 4 (S fuel) 1 two_threads.1 two_threads.2 = Ok (v, g')) ∧
    (invalid_cntid two_threads.1 1 = false →
     ∃ sh, read_pass 4 two_threads.1 1 = Ok (sh, v, sh) ∧
           ∀ fuel, read_loop 4 (S fuel) two_threads.1 1 = Ok v).
Proof.
  split; [exact two_threads_wf|]. split; [lia|].
  apply (read_one_traversal 4 1 two_threads.1 two_threads.2 two_threads_wf). lia.
Defined.

Lemma unregister_at_depth_witness :
  wf_cntdomain 4 nested.1 ∧
  1 ≤ count (get_pth tA nested.2) < 2 ^ 32 ∧
  0 ≤ tidx (get_pth tA nested.2) ∧
  perthread nested.1 !! Z.to_nat (tidx (get_pth tA nested.2))
    = Some (Some [0; 5; 0; 0; 0]) ∧
  ∃ cntd' g',
    p64_cntdomain_unregister tA nested.1 nested.2 = Ok (cntd', g') ∧
    perthread cntd' = <[Z.to_nat (tidx (get_pth tA nested.2)) := None]> (perthread nested.1) ∧
    qsbr_retired g' = [0; 0; 0; 0; 0] :: qsbr_retired nested.2 ∧
    hazptr_retired g' = hazptr_retired nested.2 ∧
    shared_at cntd' 1 = u64 (shared_at nested.1 1 + 5) ∧
    count (get_pth tA g') = count (get_pth tA nested.2) - 1 ∧
    thr_idx g' = thr_idx nested.2.
Proof.
  assert (count (get_pth tA nested.2) = 2) as Hc by (vm_compute; reflexivity).
  assert (tidx (get_pth tA nested.2) = 0) as Ht by (vm_compute; reflexivity).
  split; [exact nested_wf|]. split; [rewrite Hc; lia|].
  split; [rewrite Ht; lia|]. split; [rewrite Ht; reflexivity|].
  destruct (unregister_at_depth 4 tA nested.1 nested.2 [0; 5; 0; 0; 0] nested_wf)
    as (_ & _ & cntd' & g' & Hrun & Hpt & Hret & _ & Hsh & _ & Hcount & Hidx).
  - rewrite Hc. lia.
  - rewrite Ht. lia.
  - rewrite Ht. reflexivity.
  - exists cntd', g'. rewrite Hc in Hidx. simpl in Hret, Hidx.
    destruct Hret as [Hret Hhp]. destruct Hidx as [_ Hidx].
    split; [exact Hrun|]. split; [exact Hpt|]. split; [exact Hret|].
    split; [exact Hhp|]. split.
    { apply (Hsh 1 5); [simpl; lia|reflexivity|lia]. }
    split; assumption.
Defined.

(** * Further properties of the code *)

Section Further.

Variable MAXTHREADS : nat.
Variable P64_COUNTER_F_HP : Z.

(** ** Creation and destruction *)

Lemma mark_free_length fuel nc : ∀ b f f',
  mark_free fuel nc b f = Ok f' → length f' = length f.
Proof.
  induction fuel as [|fuel IH]; intros b f f' Hrun; [discriminate|].
  cbn [mark_free] in Hrun. destruct (b <? nc); [|now injection Hrun as <-].
  destruct (_ <=? nc).
  - apply bind_Ok in Hrun as (f1 & [_ ->]%store_Ok & Hrun).
    apply IH in Hrun. now rewrite length_insert in Hrun.
  - apply bind_Ok in Hrun as (w & _ & Hrun).
    apply bind_Ok in Hrun as (f1 & [_ ->]%store_Ok & Hrun).
    apply IH in Hrun. now rewrite length_insert in Hrun.
Qed.

(** The block of a created domain has fewer than [2^32] words after the
    header. *)
Lemma p64_cntdomain_alloc_length fuel capacity flags ok g cntd g' :
  p64_cntdomain_alloc MAXTHREADS P64_COUNTER_F_HP fuel capacity flags ok g
    = Ok (Some cntd, g') →
  Z.of_nat (length (free cntd)) < 2 ^ 32.
Proof.
  unfold p64_cntdomain_alloc. destruct (negb _); [discriminate|].
  destruct ok; [|discriminate]. intros H.
  apply bind_Ok in H as (f1 & Hmark%mark_free_length & H).
  apply bind_Ok in H as (w & _ & H).
  apply bind_Ok in H as (f2 & [_ ->]%store_Ok & [= <- _]).
  simpl. rewrite length_insert, Hmark, length_replicate. unfold u32. lia.
Qed.

(** The shared accumulator of a created domain is zero. *)
Lemma p64_cntdomain_alloc_zeroed fuel capacity flags ok g cntd g' :
  0 ≤ capacity < 2 ^ 32 →
  p64_cntdomain_alloc MAXTHREADS P64_COUNTER_F_HP fuel capacity flags ok g
    = Ok (Some cntd, g') →
  ∀ i, 0 ≤ i → shared_at cntd i = 0.
Proof.
  intros Hcap Hrun i Hi.
  pose proof (p64_cntdomain_alloc_Some _ _ _ _ _ _ _ _ _ Hcap Hrun)
    as (Hwf & Hnc & His & _ & _).
  pose proof (wf_shared_bounds _ _ Hwf) as (Hsh0 & Hcover & _).
  unfold shared_at.
  destruct (free cntd !! Z.to_nat (shared cntd + i)) as [w|] eqn:Hw; [|reflexivity].
  simpl. apply word64_zero_bits; [exact (wf_word _ _ _ _ Hwf Hw)|].
  intros j Hj.
  (* bit j of that word is bit 64 * (shared + i) + j of the block *)
  revert Hrun. unfold p64_cntdomain_alloc. destruct (negb _); [discriminate|].
  destruct ok; [|discriminate]. intros H.
  apply bind_Ok in H as (f1 & Hmark & H).
  apply bind_Ok in H as (w0 & _ & H).
  apply bind_Ok in H as (f2 & [_ ->]%store_Ok & [= <-]).
  simpl in *.
  set (nc := u32 (capacity + 1)) in *.
  set (len := u32 (u32 (nc + BITSPERWORD - 1) / BITSPERWORD + nc)) in *.
  assert (0 ≤ nc ≤ 2 ^ 32 - 64) as Hncr by (pose proof (wf_ncounters _ _ Hwf); simpl in *; lia).
  assert (0 ≤ len) as Hlen by (unfold len, u32; lia).
  eapply mark_free_marked in Hmark as (_ & _ & _ & _ & Hbits & _);
    [|lia|apply marked_cleared; lia].
  rewrite list_lookup_insert_ne in Hw by lia.
  set (k := u32 (nc + BITSPERWORD - 1) / BITSPERWORD + i) in *.
  specialize (Hbits (64 * k + j)).
  rewrite (freebit_lookup f1 _ w) in Hbits
    by (unfold BITSPERWORD; replace ((64 * k + j) / 64) with k by lia; exact Hw).
  unfold BITSPERWORD in Hbits. replace ((64 * k + j) mod 64) with j in Hbits by lia.
  rewrite Hbits by lia. apply Z.ltb_ge. unfold BITSPERWORD in *. lia.
Qed.


Lemma any_registered_spec pt : ∀ n t,
  0 ≤ t → (Z.to_nat t + n)%nat = length pt →
  (Forall (λ s, s = None) (drop (Z.to_nat t) pt) → any_registered n t pt = Ok false) ∧
  (Exists is_Some (drop (Z.to_nat t) pt) → any_registered n t pt = Ok true).
Proof.
  induction n as [|n IH]; intros t Ht Hlen.
  - rewrite drop_ge by lia. split; [reflexivity|]. intros H. inversion H.
  - destruct (load_in_range pt t) as (slot & Hld & Hslot); [lia|].
    cbn [any_registered]. rewrite Hld. cbn [mbind outcome_bind].
    rewrite (drop_S _ _ _ Hslot).
    replace (S (Z.to_nat t)) with (Z.to_nat (t + 1)) by lia.
    destruct (IH (t + 1)) as [IHnone IHsome]; [lia|lia|].
    destruct slot as [c|].
    + split; [|reflexivity]. intros [[=] _]%Forall_cons.
    + split.
      * intros [_ H]%Forall_cons. now apply IHnone.
      * intros [[x [=]]|H]%Exists_cons. now apply IHsome.
Qed.

(** X1.  Creation returns a domain exactly when the flags are valid, the
    allocation succeeds and the words of bitmap and shared accumulator
    together are fewer than [2^32]; whatever it returns, it reports an error
    for invalid flags only and changes nothing else. *)
Theorem create_succeeds_exactly capacity flags ok g :
  0 ≤ capacity < 2 ^ 32 →
  ((∃ fuel cntd g',
      p64_cntdomain_alloc MAXTHREADS P64_COUNTER_F_HP fuel capacity flags ok g
        = Ok (Some cntd, g')) ↔
   (Z.land flags (Z.lnot P64_COUNTER_F_HP) = 0 ∧ ok = true ∧
    capacity + 1 + (capacity + 64) / 64 < 2 ^ 32)) ∧
  (∀ fuel h g',
     p64_cntdomain_alloc MAXTHREADS P64_COUNTER_F_HP fuel capacity flags ok g
       = Ok (h, g') →
     g' = if Z.land flags (Z.lnot P64_COUNTER_F_HP) =? 0 then g
          else report_error "counter" "invalid flags" flags g).
Proof.
  intros Hcap. split; [split|].
  - intros (fuel & cntd & g' & Hrun).
    pose proof (p64_cntdomain_alloc_length _ _ _ _ _ _ _ Hrun) as Hlen.
    pose proof (p64_cntdomain_alloc_Some _ _ _ _ _ _ _ _ _ Hcap Hrun)
      as (Hwf & Hnc & _).
    pose proof (wf_ncounters _ _ Hwf) as Hncr.
    rewrite (wf_length _ _ Hwf), (wf_shared _ _ Hwf), Hnc in Hlen.
    unfold nwords_of, u32, BITSPERWORD in Hlen.
    revert Hrun. unfold p64_cntdomain_alloc, VALID_FLAGS.
    destruct (Z.eqb_spec (Z.land flags (Z.lnot P64_COUNTER_F_HP)) 0) as [Hfl|];
      [|discriminate].
    destruct ok; [|discriminate]. intros _.
    split; [exact Hfl|]. split; [reflexivity|]. lia.
  - intros (Hfl & -> & Hroom).
    destruct (p64_cntdomain_alloc_total MAXTHREADS P64_COUNTER_F_HP capacity flags g)
      as (cntd & Hrun); [lia|exact Hroom|exact Hfl|]. eauto.
  - intros fuel h g'. unfold p64_cntdomain_alloc, VALID_FLAGS.
    destruct (Z.eqb_spec (Z.land flags (Z.lnot P64_COUNTER_F_HP)) 0) as [Hfl|];
      cbn [negb]; [|now intros [= _ <-]].
    destruct ok; [|now intros [= _ <-]]. intros H.
    apply bind_Ok in H as (f1 & _ & H). apply bind_Ok in H as (w & _ & H).
    apply bind_Ok in H as (f2 & _ & [= _ <-]). reflexivity.
Qed.

(** X2.  On the domain that creation returns, the strategy is the one the
    flags select, every valid identifier reads 0, and the domain can be
    destroyed at once. *)
Theorem fresh_domain_reads_zero fuel capacity flags g cntd g' :
  0 ≤ capacity < 2 ^ 32 →
  p64_cntdomain_alloc MAXTHREADS P64_COUNTER_F_HP fuel capacity flags true g
    = Ok (Some cntd, g') →
  use_hp cntd = negb (Z.land flags P64_COUNTER_F_HP =? 0) ∧
  (∀ cntid fuel' g0, 1 ≤ cntid ≤ capacity →
     p64_counter_read MAXTHREADS (S fuel') cntid cntd g0 = Ok (0, g0)) ∧
  (∀ g0, p64_cntdomain_free MAXTHREADS cntd g0 = Ok (None, g0)).
Proof.
  intros Hcap Hrun.
  pose proof (p64_cntdomain_alloc_Some _ _ _ _ _ _ _ _ _ Hcap Hrun)
    as (Hwf & Hnc & _ & Hpt & _).
  pose proof (p64_cntdomain_alloc_zeroed _ _ _ _ _ _ _ Hcap Hrun) as Hzero.
  split; [|split].
  - revert Hrun. unfold p64_cntdomain_alloc. destruct (negb _); [discriminate|].
    intros H. apply bind_Ok in H as (f1 & _ & H). apply bind_Ok in H as (w & _ & H).
    apply bind_Ok in H as (f2 & _ & [= <- _]). reflexivity.
  - intros cntid fuel' g0 Hid.
    rewrite p64_counter_read_spec; [|exact Hwf|lia].
    unfold total. rewrite Hzero, Hpt, private_total_unpublished by lia. reflexivity.
  - intros g0. unfold p64_cntdomain_free.
    destruct (any_registered_spec (perthread cntd) MAXTHREADS 0) as [Hnone _];
      [lia|now rewrite (wf_table _ _ Hwf)|].
    rewrite Hnone; [reflexivity|]. rewrite Hpt. simpl. apply Forall_replicate. reflexivity.
Qed.

(** X3.  Destruction of a domain with a full-sized table: with every slot
    empty the domain is released and nothing is reported; with a slot
    occupied the domain is left as it is and "threads still registered" is
    reported. *)
Theorem destroy_only_when_unregistered cntd g :
  length (perthread cntd) = MAXTHREADS →
  (Forall (λ s, s = None) (perthread cntd) →
   p64_cntdomain_free MAXTHREADS cntd g = Ok (None, g)) ∧
  (Exists is_Some (perthread cntd) →
   p64_cntdomain_free MAXTHREADS cntd g
     = Ok (Some cntd, report_error "counter" "threads still registered" 0 g)).
Proof.
  intros Hlen. unfold p64_cntdomain_free.
  destruct (any_registered_spec (perthread cntd) MAXTHREADS 0) as [Hnone Hsome];
    [lia|now rewrite Hlen|].
  split; intros H; [rewrite Hnone|rewrite Hsome]; auto.
Qed.

(** ** Error reports, reads and the layout *)

Lemma p64_idx_alloc_errors g : errors (p64_idx_alloc g).2 = errors g.
Proof. unfold p64_idx_alloc. now destruct (_ <? 0). Qed.

(** X4.  A call reports at most one error, and a call that reports one
    leaves the domain object as it was. *)
Theorem error_leaves_domain fuel c s v s' :
  exec MAXTHREADS fuel c s = Ok (v, s') →
  errors s'.2 = errors s.2 ∨
  (∃ e, errors s'.2 = e :: errors s.2) ∧ s'.1 = s.1.
Proof.
  destruct s as [cntd g]. destruct c; cbn [exec]; intros H.
  - apply bind_Ok in H as ([c1 g1] & Hrun & [= _ <-]). simpl.
    revert Hrun. unfold p64_cntdomain_register.
    set (g2 := if count (get_pth self g) =? 0 then _ else _).
    assert (errors g2 = errors g) as Hg2.
    { unfold g2. destruct (_ =? 0); [|reflexivity].
      destruct (p64_idx_alloc _) as [i g0] eqn:Hi. simpl.
      change g0 with ((i, g0).2). rewrite <- Hi. now rewrite p64_idx_alloc_errors. }
    intros H. apply bind_Ok in H as (slot & _ & H).
    destruct slot as [x|].
    + injection H as <- <-. right. simpl. rewrite Hg2. eauto.
    + destruct malloc_ok.
      * apply bind_Ok in H as (pt & _ & [= _ <-]). now left.
      * injection H as <- <-. right. simpl. rewrite Hg2. eauto.
  - apply bind_Ok in H as ([c1 g1] & Hrun & [= _ <-]). simpl.
    revert Hrun. unfold p64_cntdomain_unregister.
    destruct (_ =? 0); [intros [= <- <-]; right; simpl; eauto|].
    intros H. apply bind_Ok in H as (slot & _ & H).
    destruct slot as [x|]; [|injection H as <- <-; right; simpl; eauto].
    apply bind_Ok in H as ([c' f'] & _ & H).
    apply bind_Ok in H as (pt & _ & H).
    rewrite retire_until_accepted_spec in H. cbn [mbind outcome_bind] in H.
    injection H as _ <-. left.
    destruct (_ =? 0); reflexivity.
  - apply bind_Ok in H as ([x c1] & _ & [= _ <-]). now left.
  - apply bind_Ok in H as ([c1 g1] & Hrun & [= _ <-]). simpl.
    revert Hrun. unfold p64_counter_free.
    destruct (invalid_cntid _ _); [intros [= <- <-]; right; simpl; eauto|].
    intros H. apply bind_Ok in H as (w & _ & H).
    destruct (negb _); [injection H as <- <-; right; simpl; eauto|].
    apply bind_Ok in H as (f' & _ & [= _ <-]). now left.
  - apply bind_Ok in H as ([c1 g1] & Hrun & [= _ <-]). simpl.
    revert Hrun. unfold p64_counter_add.
    destruct (_ =? 0); [intros [= <- <-]; right; simpl; eauto|].
    destruct (invalid_cntid _ _); [intros [= <- <-]; right; simpl; eauto|].
    intros H. apply bind_Ok in H as (slot & _ & H).
    destruct slot as [x|]; [|discriminate].
    apply bind_Ok in H as (old & _ & H). apply bind_Ok in H as (x' & _ & H).
    apply bind_Ok in H as (pt & _ & [= _ <-]). now left.
  - apply bind_Ok in H as ([x g1] & Hrun & [= _ <-]). simpl.
    revert Hrun. unfold p64_counter_read.
    destruct (invalid_cntid _ _); [intros [= _ <-]; right; simpl; eauto|].
    intros H. apply bind_Ok in H as (sum & _ & [= _ <-]). now left.
  - apply bind_Ok in H as ([c1 g1] & Hrun & [= _ <-]). simpl.
    revert Hrun. unfold p64_counter_reset, p64_counter_read.
    destruct (invalid_cntid _ _); [intros [= <- <-]; right; simpl; eauto|].
    intros H. apply bind_Ok in H as ([cur g0] & Hread & H).
    apply bind_Ok in Hread as (sum & _ & [= _ <-]).
    apply bind_Ok in H as (old & _ & H).
    apply bind_Ok in H as (f' & _ & [= _ <-]). now left.
Qed.


(** X5.  On a well-formed domain a read of a valid identifier returns the
    shared word plus what every published stash holds for the identifier,
    modulo [2^64], and reports nothing; a read of the sentinel or of an
    identifier out of range returns 0 and reports "invalid counter". *)
Theorem read_is_shared_plus_private fuel cntid cntd g :
  wf_cntdomain MAXTHREADS cntd →
  0 ≤ cntid < 2 ^ 32 →
  p64_counter_read MAXTHREADS (S fuel) cntid cntd g
    = if (cntid =? 0) || (ncounters cntd <=? cntid)
      then Ok (0, report_error "counter" "invalid counter" cntid g)
      else Ok (u64 (shared_at cntd cntid + private_total (perthread cntd) cntid), g).
Proof.
  intros Hwf Hid.
  destruct ((cntid =? 0) || (ncounters cntd <=? cntid)) eqn:Hinv.
  - unfold p64_counter_read, invalid_cntid, P64_COUNTER_INVALID. now rewrite Hinv.
  - apply orb_false_elim in Hinv as [Hne%Z.eqb_neq Hlt%Z.leb_gt].
    apply p64_counter_read_spec; [exact Hwf|lia].
Qed.

(** X6.  On a domain with the layout and the bitmap bounds that every call
    keeps, allocation, release, read and reset return for every identifier
    of their argument type: none of them leaves the block or runs out of
    fuel. *)
Theorem allocator_and_reads_return fuel cntid cntd g :
  invariant MAXTHREADS (cntd, g) →
  0 ≤ cntid < 2 ^ 32 →
  (∃ r, p64_counter_alloc (S fuel) cntd = Ok r) ∧
  (∃ r, p64_counter_free cntid cntd g = Ok r) ∧
  (∃ r, p64_counter_read MAXTHREADS (S fuel) cntid cntd g = Ok r) ∧
  (∃ r, p64_counter_reset MAXTHREADS (S fuel) cntid cntd g = Ok r).
Proof.
  intros [Hwf Hok] Hid. simpl in Hwf, Hok. split; [|split; [|split]].
  - destruct (p64_counter_alloc_spec MAXTHREADS fuel cntd Hwf Hok)
      as [[Hrun _]|(id & c' & Hrun & _)]; eauto.
  - destruct (p64_counter_free_total MAXTHREADS cntid cntd g Hwf) as (c' & g' & Hrun);
      [lia|eauto].
  - destruct (p64_counter_read_total MAXTHREADS cntid cntd g Hwf) as (v & g' & Hrun);
      [lia|eauto].
  - destruct (invalid_cntid cntd cntid) eqn:Hinv.
    + unfold p64_counter_reset. rewrite Hinv. eauto.
    + unfold invalid_cntid, P64_COUNTER_INVALID in Hinv.
      apply orb_false_elim in Hinv as [Hne%Z.eqb_neq Hlt%Z.leb_gt].
      rewrite p64_counter_reset_spec; [eauto|exact Hwf|lia].
Qed.

(** X7.  Whatever calls with arguments of their C types follow creation
    with capacity [capacity], the domain keeps its size: the identifier
    count stays [capacity + 1], the block and the table keep their lengths,
    every published stash has one word per identifier, bit 0 of the bitmap
    stays clear and no bit beyond [capacity] is set. *)
Theorem layout_kept_by_all_calls fuel capacity flags cs vs cntd g :
  0 ≤ capacity < 2 ^ 32 →
  Forall call_ok cs →
  run_fresh MAXTHREADS fuel P64_COUNTER_F_HP capacity flags cs = Ok (vs, (cntd, g)) →
  ncounters cntd = capacity + 1 ∧
  Z.of_nat (length (free cntd)) = (capacity + 64) / 64 + (capacity + 1) ∧
  Forall word64 (free cntd) ∧
  length (perthread cntd) = MAXTHREADS ∧
  (∀ t c, perthread cntd !! t = Some (Some c) →
          Z.of_nat (length c) = capacity + 1 ∧ Forall word64 c) ∧
  freebit (free cntd) 0 = false ∧
  (∀ p, capacity < p < BITSPERWORD * ((capacity + 64) / 64) →
        freebit (free cntd) p = false).
Proof.
  intros Hcap Hcs Hrun.
  pose proof (run_fresh_invariant _ _ _ _ _ _ _ _ Hcap Hcs Hrun) as [Hwf Hok].
  simpl in Hwf, Hok.
  assert (ncounters cntd = capacity + 1) as Hnc.
  { unfold run_fresh in Hrun. apply bind_Ok in Hrun as ([h g0] & Hcreate & Hrun).
    destruct h as [c0|]; [|discriminate].
    apply p64_cntdomain_alloc_Some in Hcreate as (Hwf0 & Hnc0 & His & _); [|exact Hcap].
    rewrite <- Hnc0. apply (run_ncounters _ _ _ _ _ _ Hcs) in Hrun; [exact Hrun|].
    split; [exact Hwf0|]. simpl.
    apply (bitmap_is_ok _ 1 capacity); [lia|lia|exact His]. }
  pose proof (wf_ncounters _ _ Hwf) as Hncr.
  assert (shared cntd = (capacity + 64) / 64) as Hsh.
  { rewrite (wf_shared _ _ Hwf), Hnc. unfold nwords_of, u32, BITSPERWORD.
    rewrite Z.mod_small; [f_equal|]; lia. }
  split; [exact Hnc|]. split; [rewrite (wf_length _ _ Hwf), Hsh, Hnc; reflexivity|].
  split; [exact (wf_words _ _ Hwf)|]. split; [exact (wf_table _ _ Hwf)|].
  split; [intros t c Hc; rewrite <- Hnc; exact (wf_stash _ _ Hwf t c Hc)|].
  split.
  - destruct (freebit (free cntd) 0) eqn:Hbit; [|reflexivity].
    exfalso. apply Hok in Hbit; unfold BITSPERWORD in *; lia.
  - intros p Hp. destruct (freebit (free cntd) p) eqn:Hbit; [|reflexivity].
    exfalso. apply Hok in Hbit; rewrite ?Hsh; unfold BITSPERWORD in *; lia.
Qed.

(** ** Additions, merge and reset *)

Lemma private_total_insert cntid s' : ∀ pt (i : nat) s,
  pt !! i = Some s →
  private_total (<[i := s']> pt) cntid
    = private_total pt cntid - slot_value s cntid + slot_value s' cntid.
Proof.
  induction pt as [|x pt IH]; intros i s Hs; [discriminate|].
  destruct i as [|i].
  - injection Hs as ->. destruct s as [c|], s' as [c'|]; simpl; lia.
  - simpl in Hs. change (<[S i := s']> (x :: pt)) with (x :: <[i := s']> pt).
    destruct x as [c|]; cbn [private_total]; rewrite (IH i s Hs); lia.
Qed.

Lemma read_value fuel cntid cntd g :
  wf_cntdomain MAXTHREADS cntd → 1 ≤ cntid < ncounters cntd →
  p64_counter_read MAXTHREADS (S fuel) cntid cntd g
    = Ok (u64 (shared_at cntd cntid + private_total (perthread cntd) cntid), g).
Proof. apply p64_counter_read_spec. Qed.

(** X8.  An addition by a thread whose stash is published raises what a
    read of the identifier returns by the amount, modulo [2^64]; the shared
    accumulator, the bitmap, the slots of the other threads and the reads of
    the other identifiers stay as they are. *)
Theorem add_then_read fuel self cntid val cntd g counters :
  wf_cntdomain MAXTHREADS cntd →
  count (get_pth self g) ≠ 0 →
  0 ≤ tidx (get_pth self g) →
  perthread cntd !! Z.to_nat (tidx (get_pth self g)) = Some (Some counters) →
  1 ≤ cntid < ncounters cntd →
  ∃ cntd' v,
    p64_counter_read MAXTHREADS (S fuel) cntid cntd g = Ok (v, g) ∧
    p64_counter_add self cntid val cntd g = Ok (cntd', g) ∧
    free cntd' = free cntd ∧
    (∀ t, t ≠ Z.to_nat (tidx (get_pth self g)) →
       perthread cntd' !! t = perthread cntd !! t) ∧
    p64_counter_read MAXTHREADS (S fuel) cntid cntd' g = Ok (u64 (v + val), g) ∧
    ∀ j, 1 ≤ j < ncounters cntd → j ≠ cntid →
      p64_counter_read MAXTHREADS (S fuel) j cntd' g
        = p64_counter_read MAXTHREADS (S fuel) j cntd g.
Proof.
  intros Hwf Hcount Hidx Hslot Hid.
  destruct (p64_counter_add_published MAXTHREADS self cntid val cntd g counters)
    as (old & Hold & Hadd); try assumption.
  pose proof (p64_counter_add_Ok MAXTHREADS _ _ _ _ _ _ _ Hwf Hadd)
    as (Hwf' & Hfree & Hsh & Hnc).
  eexists _, _. split; [now apply read_value|]. split; [exact Hadd|].
  split; [exact Hfree|].
  assert (∀ j, shared_at
            (set_perthread
               (<[Z.to_nat (tidx (get_pth self g)) :=
                    Some (<[Z.to_nat cntid := u64 (old + val)]> counters)]>
                  (perthread cntd)) cntd) j = shared_at cntd j) as Hshared
    by reflexivity.
  apply lookup_lt_Some in Hold as Hlt.
  split; [intros t Ht; simpl; now rewrite list_lookup_insert_ne|].
  split.
  - rewrite read_value by (rewrite ?Hnc; assumption).
    rewrite Hshared. simpl perthread.
    rewrite (private_total_insert _ _ _ _ _ Hslot). unfold slot_value. simpl.
    rewrite Hold, list_lookup_insert_eq by exact Hlt. simpl.
    do 2 f_equal. unfold u64. lia.
  - intros j Hj Hne. rewrite !read_value by (rewrite ?Hnc; assumption).
    rewrite Hshared. simpl perthread.
    rewrite (private_total_insert _ _ _ _ _ Hslot). unfold slot_value. simpl.
    rewrite list_lookup_insert_ne by lia. do 3 f_equal. lia.
Qed.

(** X9.  An unregistration that finds the stash published, with every
    entry below [2^32], changes no read: what the stash held is in the shared
    accumulator afterwards. *)
Theorem unregister_keeps_reads self cntd g counters :
  wf_cntdomain MAXTHREADS cntd →
  count (get_pth self g) ≠ 0 →
  0 ≤ tidx (get_pth self g) →
  perthread cntd !! Z.to_nat (tidx (get_pth self g)) = Some (Some counters) →
  Forall (λ c, c < 2 ^ 32) counters →
  ∃ cntd' g',
    p64_cntdomain_unregister self cntd g = Ok (cntd', g') ∧
    perthread cntd' !! Z.to_nat (tidx (get_pth self g)) = Some None ∧
    ∀ fuel cntid, 1 ≤ cntid < ncounters cntd →
      ∃ v, p64_counter_read MAXTHREADS (S fuel) cntid cntd g = Ok (v, g) ∧
           p64_counter_read MAXTHREADS (S fuel) cntid cntd' g' = Ok (v, g') ∧
           shared_at cntd' cntid = u64 (shared_at cntd cntid + slot_value (Some counters) cntid).
Proof.
  intros Hwf Hcount Hidx Hslot Hsmall.
  destruct (p64_cntdomain_unregister_published MAXTHREADS self cntd g counters)
    as (c' & f' & Hmerge & Hrun); try assumption.
  pose proof (p64_cntdomain_unregister_Ok MAXTHREADS _ _ _ _ _ Hwf Hrun)
    as (Hwf' & _ & Hsh & Hnc).
  destruct (wf_stash _ _ Hwf _ _ Hslot) as [Hl Hw].
  pose proof (wf_shared_bounds _ _ Hwf) as (Hsh0 & _ & _).
  pose proof (wf_length _ _ Hwf) as Hlen.
  pose proof (wf_ncounters _ _ Hwf) as Hncr.
  destruct (merge_spec (shared cntd) (Z.to_nat (ncounters cntd)) 0 counters (free cntd))
    as (c2 & f2 & Hrun2 & _ & _ & _ & _ & _ & _ & _ & Hin); try lia.
  rewrite Hrun2 in Hmerge. injection Hmerge as <- <-.
  eexists _, _. split; [exact Hrun|].
  apply lookup_lt_Some in Hslot as Hlt.
  split; [simpl; now rewrite list_lookup_insert_eq|].
  intros fuel cntid Hid.
  assert (shared_at
            (set_perthread (<[Z.to_nat (tidx (get_pth self g)) := None]> (perthread cntd))
                           (set_free f2 cntd)) cntid
          = u64 (shared_at cntd cntid + slot_value (Some counters) cntid)) as Hshared.
  { unfold shared_at, slot_value. simpl.
    destruct (lookup_lt_is_Some_2 (free cntd) (Z.to_nat (shared cntd + cntid)))
      as [x Hx]; [lia|].
    destruct (lookup_lt_is_Some_2 counters (Z.to_nat cntid)) as [c Hc]; [lia|].
    destruct (Hin cntid c x) as [-> _]; [lia|exact Hc|exact Hx|].
    rewrite Hx, Hc. simpl.
    assert (word64 c) as Hwc by (rewrite Forall_lookup in Hw; exact (Hw _ _ Hc)).
    assert (c < 2 ^ 32) as Hc32 by (rewrite Forall_lookup in Hsmall; exact (Hsmall _ _ Hc)).
    assert (u32 c = c) as -> by (unfold u32, word64 in *; apply Z.mod_small; lia).
    destruct (Z.eqb_spec c 0) as [->|]; [|reflexivity].
    rewrite Z.add_0_r, u64_word64; [reflexivity|exact (wf_word _ _ _ _ Hwf Hx)]. }
  eexists. split; [now apply read_value|]. split; [|exact Hshared].
  rewrite read_value by (rewrite ?Hnc; assumption).
  rewrite Hshared. simpl perthread.
  rewrite (private_total_insert _ _ _ _ _ Hslot).
  f_equal. f_equal. unfold slot_value at 3. simpl. unfold u64. lia.
Qed.


(** X15.  A reset of a valid identifier on a well-formed domain touches
    that identifier's shared word only: the bitmap, the stashes and the
    reads of all other identifiers stay as they are, and nothing is
    reported. *)
Theorem reset_touches_one_word fuel cntid cntd g :
  wf_cntdomain MAXTHREADS cntd →
  1 ≤ cntid < ncounters cntd →
  ∃ cntd',
    p64_counter_reset MAXTHREADS (S fuel) cntid cntd g = Ok (cntd', g) ∧
    perthread cntd' = perthread cntd ∧
    (∀ k, k ≠ Z.to_nat (shared cntd + cntid) → free cntd' !! k = free cntd !! k) ∧
    (∀ p, 0 ≤ p < BITSPERWORD * shared cntd →
       freebit (free cntd') p = freebit (free cntd) p) ∧
    ∀ j, 1 ≤ j < ncounters cntd → j ≠ cntid →
      p64_counter_read MAXTHREADS (S fuel) j cntd' g
        = p64_counter_read MAXTHREADS (S fuel) j cntd g.
Proof.
  intros Hwf Hid.
  pose proof (p64_counter_reset_spec MAXTHREADS fuel cntid cntd g Hwf Hid) as Hrun.
  assert (0 ≤ cntid) as Hnn by lia.
  pose proof (p64_counter_reset_Ok MAXTHREADS _ _ _ _ _ _ Hwf Hnn Hrun)
    as (Hwf' & _ & _ & Hnc).
  pose proof (wf_shared_bounds _ _ Hwf) as (Hsh0 & _ & _).
  eexists. split; [exact Hrun|]. split; [reflexivity|]. split.
  { intros k Hk. simpl. now rewrite list_lookup_insert_ne. }
  split.
  { intros p Hp. simpl. unfold freebit.
    rewrite list_lookup_insert_ne by (unfold BITSPERWORD in *; lia). reflexivity. }
  intros j Hj Hne. rewrite !read_value by (rewrite ?Hnc; assumption).
  unfold shared_at. simpl. rewrite list_lookup_insert_ne by lia. reflexivity.
Qed.

(** ** Registration *)

Lemma first_free_spec : ∀ live k i,
  first_free live k = i → 0 ≤ k → 0 ≤ i →
  k ≤ i ∧ live !! Z.to_nat (i - k) = Some false.
Proof.
  induction live as [|b live IH]; intros k i Hi Hk Hnn; simpl in Hi; [lia|].
  destruct b.
  - destruct (IH _ _ Hi) as [Hle Hl]; [lia|lia|]. split; [lia|].
    replace (Z.to_nat (i - k)) with (S (Z.to_nat (i - (k + 1)))) by lia. exact Hl.
  - subst i. split; [lia|]. now rewrite Z.sub_diag.
Qed.

(** The first registration of a thread whose index comes out with an empty
    slot. *)
Lemma p64_cntdomain_register_fresh self cntd g i :
  count (get_pth self g) = 0 →
  first_free (thr_idx g) 0 = i → 0 ≤ i →
  perthread cntd !! Z.to_nat i = Some None →
  p64_cntdomain_register self true cntd g
    = Ok (set_perthread
            (<[Z.to_nat i := Some (replicate (Z.to_nat (ncounters cntd)) 0)]>
               (perthread cntd)) cntd,
          set_pth self (mk_pth i 1)
            (set_thr_idx (<[Z.to_nat i := true]> (thr_idx g))
               (set_pth self (mk_pth (tidx (get_pth self g)) 1) g))).
Proof.
  intros Hcount Hfirst Hi Hslot. unfold p64_cntdomain_register.
  rewrite Hcount. cbn [Z.eqb]. change (u32 (0 + 1)) with 1.
  unfold p64_idx_alloc. cbn [thr_idx set_pth]. rewrite Hfirst.
  destruct (Z.ltb_spec i 0) as [|_]; [lia|].
  set (g1 := set_thr_idx _ _).
  assert (count (get_pth self g1) = 1) as ->.
  { unfold g1, get_pth, set_thr_idx. simpl. now rewrite lookup_insert_eq. }
  rewrite get_set_pth. cbn [tidx].
  assert (load (perthread cntd) i = Ok None) as ->
    by (apply load_Ok; split; [apply lookup_lt_Some in Hslot; lia|exact Hslot]).
  cbn [mbind outcome_bind].
  rewrite store_in_range by (apply lookup_lt_Some in Hslot; lia).
  reflexivity.
Qed.

(** X10.  The first registration of a thread, with the stash allocated and
    the thread's index on an empty slot, publishes a stash of zeros there,
    takes the index, sets the reference count to 1, and changes no read. *)
Theorem register_keeps_reads self cntd g i :
  wf_cntdomain MAXTHREADS cntd →
  count (get_pth self g) = 0 →
  first_free (thr_idx g) 0 = i → 0 ≤ i →
  perthread cntd !! Z.to_nat i = Some None →
  ∃ cntd' g',
    p64_cntdomain_register self true cntd g = Ok (cntd', g') ∧
    get_pth self g' = mk_pth i 1 ∧
    thr_idx g' = <[Z.to_nat i := true]> (thr_idx g) ∧
    errors g' = errors g ∧
    perthread cntd'
      = <[Z.to_nat i := Some (replicate (Z.to_nat (ncounters cntd)) 0)]> (perthread cntd) ∧
    free cntd' = free cntd ∧
    ∀ fuel cntid, 1 ≤ cntid < ncounters cntd →
      ∃ v, p64_counter_read MAXTHREADS (S fuel) cntid cntd g = Ok (v, g) ∧
           p64_counter_read MAXTHREADS (S fuel) cntid cntd' g' = Ok (v, g').
Proof.
  intros Hwf Hcount Hfirst Hi Hslot.
  pose proof (p64_cntdomain_register_fresh self cntd g i Hcount Hfirst Hi Hslot) as Hrun.
  pose proof (p64_cntdomain_register_Ok MAXTHREADS _ _ _ _ _ _ Hwf Hrun)
    as (Hwf' & _ & _ & Hnc).
  eexists _, _. split; [exact Hrun|].
  split; [apply get_set_pth|]. do 4 (split; [reflexivity|]).
  intros fuel cntid Hid. eexists. split; [now apply read_value|].
  rewrite read_value by (rewrite ?Hnc; assumption).
  f_equal. f_equal. f_equal. unfold shared_at. simpl. f_equal.
  rewrite (private_total_insert _ _ _ _ _ Hslot). unfold slot_value. simpl.
  destruct (replicate _ _ !! _) as [x|] eqn:Hx; simpl; [|lia].
  apply lookup_replicate in Hx as [-> _]. lia.
Qed.

Lemma merge_zeros sh n f :
  0 ≤ sh → sh + Z.of_nat n ≤ Z.of_nat (length f) →
  merge n 0 sh (replicate n 0) f = Ok (replicate n 0, f).
Proof.
  intros Hsh Hlen.
  destruct (merge_spec sh n 0 (replicate n 0) f)
    as (c' & f' & Hrun & Hlc & Hlf & _ & _ & _ & Hlo & Hhi & Hin);
    rewrite ?length_replicate; try lia.
  rewrite Hrun. f_equal. f_equal.
  - apply list_eq. intros k. destruct (decide (k < n)%nat) as [Hk|Hk].
    + destruct (lookup_lt_is_Some_2 f (Z.to_nat (sh + Z.of_nat k))) as [x Hx]; [lia|].
      destruct (Hin (Z.of_nat k) 0 x) as [_ Hc]; [lia| |exact Hx|].
      { rewrite Nat2Z.id. now apply lookup_replicate_2. }
      rewrite Nat2Z.id in Hc. rewrite Hc. simpl. symmetry. now apply lookup_replicate_2.
    + rewrite !lookup_ge_None_2; rewrite ?length_replicate in *; try lia. reflexivity.
  - apply list_eq. intros k.
    destruct (decide (k < Z.to_nat sh)%nat); [apply Hlo; lia|].
    destruct (decide (Z.to_nat sh + n ≤ k)%nat); [apply Hhi; lia|].
    destruct (lookup_lt_is_Some_2 f k) as [x Hx]; [lia|].
    destruct (Hin (Z.of_nat k - sh) 0 x) as [Hf _]; [lia| | |].
    + apply lookup_replicate_2. lia.
    + replace (Z.to_nat (sh + (Z.of_nat k - sh))) with k by lia. exact Hx.
    + replace (Z.to_nat (sh + (Z.of_nat k - sh))) with k in Hf by lia.
      rewrite Hf, Hx. reflexivity.
Qed.

(** X11.  A first registration followed at once by the unregistration of
    the same thread gives the domain back as it was; the thread's reference
    count is 0 and its index -1 again, the index is free again, nothing is
    reported, and the stash of zeros has gone to the reclamation engine the
    domain uses. *)
Theorem register_unregister_round_trip self cntd g i :
  wf_cntdomain MAXTHREADS cntd →
  count (get_pth self g) = 0 →
  first_free (thr_idx g) 0 = i → 0 ≤ i →
  perthread cntd !! Z.to_nat i = Some None →
  ∃ cntd1 g1 g2,
    p64_cntdomain_register self true cntd g = Ok (cntd1, g1) ∧
    p64_cntdomain_unregister self cntd1 g1 = Ok (cntd, g2) ∧
    get_pth self g2 = mk_pth (-1) 0 ∧
    thr_idx g2 = thr_idx g ∧
    errors g2 = errors g ∧
    (if use_hp cntd
     then hazptr_retired g2 = replicate (Z.to_nat (ncounters cntd)) 0 :: hazptr_retired g ∧
          qsbr_retired g2 = qsbr_retired g
     else qsbr_retired g2 = replicate (Z.to_nat (ncounters cntd)) 0 :: qsbr_retired g ∧
          hazptr_retired g2 = hazptr_retired g).
Proof.
  intros Hwf Hcount Hfirst Hi Hslot.
  pose proof (p64_cntdomain_register_fresh self cntd g i Hcount Hfirst Hi Hslot) as Hreg.
  pose proof (p64_cntdomain_register_Ok MAXTHREADS _ _ _ _ _ _ Hwf Hreg)
    as (Hwf1 & _ & _ & _).
  set (zeros := replicate (Z.to_nat (ncounters cntd)) 0) in *.
  set (cntd1 := set_perthread _ cntd) in *. set (g1 := set_pth self (mk_pth i 1) _) in *.
  assert (get_pth self g1 = mk_pth i 1) as Hp by apply get_set_pth.
  apply lookup_lt_Some in Hslot as Hlt.
  pose proof (wf_shared_bounds _ _ Hwf) as (Hsh0 & _ & _).
  pose proof (wf_length _ _ Hwf) as Hlen.
  pose proof (wf_ncounters _ _ Hwf) as Hncr.
  destruct (p64_cntdomain_unregister_published MAXTHREADS self cntd1 g1 zeros)
    as (c' & f' & Hmerge & Hrun); try assumption.
  { rewrite Hp. discriminate. }
  { rewrite Hp. exact Hi. }
  { rewrite Hp. simpl. now rewrite list_lookup_insert_eq. }
  simpl in Hmerge. unfold zeros in Hmerge.
  rewrite merge_zeros in Hmerge by lia. injection Hmerge as <- <-.
  rewrite Hp in Hrun. cbv zeta in Hrun. cbn [tidx count] in Hrun.
  change (u32 (1 - 1) =? 0) with true in Hrun. cbn iota in Hrun.
  destruct (first_free_spec _ _ _ Hfirst) as [_ Hfree]; [lia|lia|].
  rewrite Z.sub_0_r in Hfree.
  eexists cntd1, g1, _. split; [exact Hreg|]. split.
  { rewrite Hrun. f_equal. f_equal. unfold cntd1. simpl.
    rewrite list_insert_insert_eq, list_insert_id by exact Hslot.
    now destruct cntd. }
  split; [apply get_set_pth|]. split.
  { simpl. now rewrite list_insert_insert_eq, list_insert_id. }
  split; [reflexivity|].
  simpl. destruct (use_hp cntd); split; reflexivity.
Qed.

(** ** Allocation and release *)

Lemma claims_reads fuel cntd cntid cntd' g :
  wf_cntdomain MAXTHREADS cntd → claims cntd cntid cntd' →
  p64_counter_read MAXTHREADS (S fuel) cntid cntd' g
    = Ok (u64 (private_total (perthread cntd) cntid), g) ∧
  ∀ j, 1 ≤ j < ncounters cntd → j ≠ cntid →
    p64_counter_read MAXTHREADS (S fuel) j cntd' g
      = p64_counter_read MAXTHREADS (S fuel) j cntd g.
Proof.
  intros Hwf Hcl. pose proof (claims_wf MAXTHREADS _ _ _ Hwf Hcl) as Hwf'.
  destruct Hcl as (Hid & _ & _ & Enc & _ & _ & Ept & _ & _ & _ & Hz & Hsame).
  split.
  - rewrite read_value by (rewrite ?Enc; assumption). now rewrite Hz, Ept.
  - intros j Hj Hne. rewrite !read_value by (rewrite ?Enc; assumption).
    rewrite Hsame, Ept by lia. reflexivity.
Qed.

(** X12.  On a domain with the layout and the bitmap bounds that every call
    keeps, an allocation returns the sentinel and leaves the domain as it is
    exactly when no identifier is free; otherwise it returns the lowest free
    identifier, marks only that one as used, and leaves the reads of all
    other identifiers as they were, while the claimed identifier reads what
    the published stashes hold for it. *)
Theorem alloc_takes_lowest_free fuel cntd g :
  invariant MAXTHREADS (cntd, g) →
  ∃ cntid cntd',
    p64_counter_alloc (S fuel) cntd = Ok (cntid, cntd') ∧
    ((cntid = P64_COUNTER_INVALID ∧ cntd' = cntd ∧
      ∀ p, 1 ≤ p < ncounters cntd → freebit (free cntd) p = false) ∨
     (1 ≤ cntid < ncounters cntd ∧
      freebit (free cntd) cntid = true ∧
      (∀ p, 1 ≤ p < cntid → freebit (free cntd) p = false) ∧
      freebit (free cntd') cntid = false ∧
      (∀ p, 1 ≤ p < ncounters cntd → p ≠ cntid →
         freebit (free cntd') p = freebit (free cntd) p) ∧
      p64_counter_read MAXTHREADS (S fuel) cntid cntd' g
        = Ok (u64 (private_total (perthread cntd) cntid), g) ∧
      ∀ j, 1 ≤ j < ncounters cntd → j ≠ cntid →
        p64_counter_read MAXTHREADS (S fuel) j cntd' g
          = p64_counter_read MAXTHREADS (S fuel) j cntd g)).
Proof.
  intros [Hwf Hok]. simpl in Hwf, Hok.
  pose proof (wf_shared_bounds _ _ Hwf) as (Hsh0 & Hcover & _).
  destruct (p64_counter_alloc_spec MAXTHREADS fuel cntd Hwf Hok)
    as [[Hrun Hnone]|(cntid & cntd' & Hrun & Hcl)].
  - exists P64_COUNTER_INVALID, cntd. split; [exact Hrun|]. left.
    do 2 (split; [reflexivity|]). intros p Hp. apply Hnone. lia.
  - exists cntid, cntd'. split; [exact Hrun|]. right.
    destruct (claims_reads fuel cntd cntid cntd' g Hwf Hcl) as [Hread Hothers].
    pose proof (claims_taken MAXTHREADS _ _ _ Hwf Hcl) as Htaken.
    destruct Hcl as (Hid & Hfree & Hlowest & _ & _ & _ & _ & _ & _ & Hbits & _).
    split; [exact Hid|]. split; [exact Hfree|].
    split; [intros p Hp; apply Hlowest; lia|]. split; [exact Htaken|].
    split; [|split; assumption].
    intros p Hp Hne. rewrite Hbits by lia.
    destruct (Z.eqb_spec p cntid); [contradiction|apply andb_true_r].
Qed.

(** The release of an identifier in use. *)
Lemma p64_counter_free_in_use cntid cntd g :
  wf_cntdomain MAXTHREADS cntd →
  1 ≤ cntid < ncounters cntd →
  freebit (free cntd) cntid = false →
  ∃ cntd', p64_counter_free cntid cntd g = Ok (cntd', g) ∧ releases cntd cntid cntd'.
Proof.
  intros Hwf Hid Hbit.
  pose proof (wf_shared_bounds _ _ Hwf) as (Hsh0 & Hcover & _).
  pose proof (wf_length _ _ Hwf) as Hlen. unfold BITSPERWORD in *.
  destruct (load_in_range (free cntd) (cntid / 64)) as (w & Hld & Hw); [lia|].
  assert (Z.testbit w (cntid mod 64) = false) as Hwbit.
  { rewrite <- Hbit. symmetry. now apply freebit_lookup. }
  assert (p64_counter_free cntid cntd g
          = Ok (set_free (<[Z.to_nat (cntid / 64) :=
                              Z.lor w (u64 (Z.shiftl 1 (cntid mod 64)))]> (free cntd)) cntd,
                g)) as Hrun.
  { unfold p64_counter_free, invalid_cntid, P64_COUNTER_INVALID, BITSPERWORD.
    destruct (Z.eqb_spec cntid 0); [lia|].
    destruct (Z.leb_spec (ncounters cntd) cntid); [lia|]. cbn [orb].
    rewrite Hld. cbn [mbind outcome_bind].
    rewrite land_bit64_zero, Hwbit by lia. cbn [negb].
    rewrite store_in_range by lia. reflexivity. }
  eexists. split; [exact Hrun|].
  apply (p64_counter_free_Ok MAXTHREADS) in Hrun as [Heq|[Hrel _]];
    [|exact Hrel|exact Hwf].
  exfalso. apply (f_equal free) in Heq. simpl in Heq.
  apply (f_equal (λ l, l !! Z.to_nat (cntid / 64))) in Heq.
  rewrite list_lookup_insert_eq, Hw in Heq by lia. injection Heq as Heq.
  apply (f_equal (λ x, Z.testbit x (cntid mod 64))) in Heq.
  rewrite Z.lor_spec, testbit_bit64, Z.eqb_refl, Hwbit in Heq by lia. discriminate.
Qed.

(** The release of an identifier that is free already. *)
Lemma p64_counter_free_twice cntid cntd g :
  wf_cntdomain MAXTHREADS cntd →
  1 ≤ cntid < ncounters cntd →
  freebit (free cntd) cntid = true →
  p64_counter_free cntid cntd g
    = Ok (cntd, report_error "counter" "counter already free" cntid g).
Proof.
  intros Hwf Hid Hbit.
  pose proof (wf_shared_bounds _ _ Hwf) as (Hsh0 & Hcover & _).
  pose proof (wf_length _ _ Hwf) as Hlen. unfold BITSPERWORD in *.
  destruct (load_in_range (free cntd) (cntid / 64)) as (w & Hld & Hw); [lia|].
  assert (Z.testbit w (cntid mod 64) = true) as Hwbit.
  { rewrite <- Hbit. symmetry. now apply freebit_lookup. }
  unfold p64_counter_free, invalid_cntid, P64_COUNTER_INVALID, BITSPERWORD.
  destruct (Z.eqb_spec cntid 0); [lia|].
  destruct (Z.leb_spec (ncounters cntd) cntid); [lia|]. cbn [orb].
  rewrite Hld. cbn [mbind outcome_bind].
  rewrite land_bit64_zero, Hwbit by lia. reflexivity.
Qed.

Lemma releases_reads fuel cntd cntid cntd' g :
  wf_cntdomain MAXTHREADS cntd → releases cntd cntid cntd' →
  ∀ j, 1 ≤ j < ncounters cntd →
    p64_counter_read MAXTHREADS (S fuel) j cntd' g
      = p64_counter_read MAXTHREADS (S fuel) j cntd g.
Proof.
  intros Hwf Hrel. pose proof (releases_wf MAXTHREADS _ _ _ Hwf Hrel) as Hwf'.
  destruct Hrel as (_ & _ & Enc & _ & _ & Ept & _ & _ & _ & Hsame).
  intros j Hj. rewrite !read_value by (rewrite ?Enc; assumption).
  rewrite Hsame, Ept by lia. reflexivity.
Qed.

(** X13.  The release of an identifier in use marks it, and only it, as
    free, reports nothing and changes no read; releasing it a second time
    reports "counter already free" and changes nothing.  The release of the
    sentinel or of an identifier out of range reports "invalid counter" and
    changes nothing. *)
Theorem free_marks_once fuel cntid cntd g :
  wf_cntdomain MAXTHREADS cntd →
  0 ≤ cntid < 2 ^ 32 →
  if (cntid =? 0) || (ncounters cntd <=? cntid) then
    p64_counter_free cntid cntd g
      = Ok (cntd, report_error "counter" "invalid counter" cntid g)
  else if freebit (free cntd) cntid then
    p64_counter_free cntid cntd g
      = Ok (cntd, report_error "counter" "counter already free" cntid g)
  else
    ∃ cntd',
      p64_counter_free cntid cntd g = Ok (cntd', g) ∧
      freebit (free cntd') cntid = true ∧
      (∀ p, 0 ≤ p < BITSPERWORD * shared cntd → p ≠ cntid →
         freebit (free cntd') p = freebit (free cntd) p) ∧
      (∀ j, 1 ≤ j < ncounters cntd →
         p64_counter_read MAXTHREADS (S fuel) j cntd' g
           = p64_counter_read MAXTHREADS (S fuel) j cntd g) ∧
      ∀ g', p64_counter_free cntid cntd' g'
              = Ok (cntd', report_error "counter" "counter already free" cntid g').
Proof.
  intros Hwf Hid.
  destruct ((cntid =? 0) || (ncounters cntd <=? cntid)) eqn:Hinv.
  { unfold p64_counter_free, invalid_cntid, P64_COUNTER_INVALID. now rewrite Hinv. }
  apply orb_false_elim in Hinv as [Hne%Z.eqb_neq Hlt%Z.leb_gt].
  destruct (freebit (free cntd) cntid) eqn:Hbit.
  { apply p64_counter_free_twice; [exact Hwf|lia|exact Hbit]. }
  destruct (p64_counter_free_in_use cntid cntd g Hwf) as (cntd' & Hrun & Hrel);
    [lia|exact Hbit|].
  pose proof (wf_shared_bounds _ _ Hwf) as (Hsh0 & Hcover & _).
  pose proof (releases_wf MAXTHREADS _ _ _ Hwf Hrel) as Hwf'.
  pose proof (releases_reads fuel _ _ _ g Hwf Hrel) as Hreads.
  destruct Hrel as (_ & _ & Enc & _ & _ & _ & _ & _ & Hbits & _).
  assert (freebit (free cntd') cntid = true) as Hset.
  { rewrite Hbits by lia. rewrite Z.eqb_refl. apply orb_true_r. }
  exists cntd'. split; [exact Hrun|]. split; [exact Hset|]. split.
  { intros p Hp Hpne. rewrite Hbits by exact Hp.
    destruct (Z.eqb_spec p cntid); [contradiction|apply orb_false_r]. }
  split; [exact Hreads|].
  intros g'. apply p64_counter_free_twice; [exact Hwf'|rewrite Enc; lia|exact Hset].
Qed.

(** X14.  An identifier that an allocation has just returned can be
    released at once: the bitmap is then as before the allocation, and the
    next allocation returns the same identifier again. *)
Theorem alloc_free_round_trip fuel cntd g cntid cntd1 :
  invariant MAXTHREADS (cntd, g) →
  p64_counter_alloc (S fuel) cntd = Ok (cntid, cntd1) →
  cntid ≠ P64_COUNTER_INVALID →
  ∃ cntd2 cntd3,
    p64_counter_free cntid cntd1 g = Ok (cntd2, g) ∧
    (∀ p, 0 ≤ p < BITSPERWORD * shared cntd →
       freebit (free cntd2) p = freebit (free cntd) p) ∧
    p64_counter_alloc (S fuel) cntd2 = Ok (cntid, cntd3).
Proof.
  intros [Hwf Hok] Hrun Hne. simpl in Hwf, Hok.
  pose proof (wf_shared_bounds _ _ Hwf) as (Hsh0 & Hcover & _).
  apply (p64_counter_alloc_Ok MAXTHREADS) in Hrun as [(-> & _)|Hcl];
    try assumption; [contradiction|].
  pose proof (claims_wf MAXTHREADS _ _ _ Hwf Hcl) as Hwf1.
  pose proof (claims_bitmap_ok _ _ _ Hok Hcl) as Hok1.
  pose proof (claims_taken MAXTHREADS _ _ _ Hwf Hcl) as Htaken.
  destruct Hcl as (Hid & Hfree & Hlowest & Enc & _ & Esh & _ & _ & _ & Hbits & _).
  destruct (p64_counter_free_in_use cntid cntd1 g Hwf1) as (cntd2 & Hfreed & Hrel);
    [rewrite Enc; exact Hid|exact Htaken|].
  pose proof (releases_wf MAXTHREADS _ _ _ Hwf1 Hrel) as Hwf2.
  pose proof (releases_bitmap_ok _ _ _ Hok1 Hrel) as Hok2.
  destruct Hrel as (_ & _ & Enc2 & _ & Esh2 & _ & _ & _ & Hbits2 & _).
  assert (∀ p, 0 ≤ p < BITSPERWORD * shared cntd →
            freebit (free cntd2) p = freebit (free cntd) p) as Hsame.
  { intros p Hp. rewrite Hbits2, Hbits by (rewrite ?Esh; exact Hp).
    destruct (Z.eqb_spec p cntid) as [->|]; simpl.
    - rewrite Hfree. reflexivity.
    - now rewrite andb_true_r, orb_false_r. }
  destruct (p64_counter_alloc_spec MAXTHREADS fuel cntd2 Hwf2 Hok2)
    as [[_ Hnone]|(id & cntd3 & Hrun3 & Hcl3)].
  - exfalso. rewrite Esh2, Esh in Hnone.
    specialize (Hnone cntid). rewrite Hsame, Hfree in Hnone by lia.
    discriminate Hnone. lia.
  - exists cntd2, cntd3. split; [exact Hfreed|]. split; [exact Hsame|].
    destruct Hcl3 as (Hid3 & Hfree3 & Hlowest3 & _).
    rewrite Enc2, Enc in Hid3.
    assert (id = cntid) as ->; [|exact Hrun3].
    destruct (Z.lt_trichotomy id cntid) as [Hlt|[Heq|Hgt]]; [|exact Heq|].
    + rewrite Hsame, Hlowest in Hfree3 by lia. discriminate.
    + specialize (Hlowest3 cntid). rewrite Hsame, Hfree in Hlowest3 by lia.
      discriminate Hlowest3. lia.
Qed.

End Further.

(** ** Witnesses of the further properties *)

Lemma two_threads_invariant : invariant 4 (two_threads.1, two_threads.2).
Proof.
  refine (run_fresh_invariant 4 8 1 4 0 _ _ _ _ _ two_threads_reached).
  - lia.
  - repeat constructor; simpl; lia.
Qed.

Lemma fresh4_invariant : invariant 4 (fresh4, globals_init 4).
Proof.
  refine (run_fresh_invariant 4 8 1 4 0 [] [] _ _ _ _).
  - lia.
  - constructor.
  - vm_compute. reflexivity.
Qed.

Lemma create_succeeds_exactly_witness :
  0 ≤ 4 < 2 ^ 32 ∧
  ((∃ fuel cntd g',
      p64_cntdomain_alloc 4 1 fuel 4 0 true (globals_init 4) = Ok (Some cntd, g')) ↔
   (Z.land 0 (Z.lnot 1) = 0 ∧ true = true ∧ 4 + 1 + (4 + 64) / 64 < 2 ^ 32)) ∧
  (∀ fuel h g',
     p64_cntdomain_alloc 4 1 fuel 4 0 true (globals_init 4) = Ok (h, g') →
     g' = if Z.land 0 (Z.lnot 1) =? 0 then globals_init 4
          else report_error "counter" "invalid flags" 0 (globals_init 4)).
Proof.
  assert (0 ≤ 4 < 2 ^ 32) as Hcap by lia.
  split; [exact Hcap|].
  exact (create_succeeds_exactly 4 1 4 0 true (globals_init 4) Hcap).
Defined.

Lemma fresh_domain_reads_zero_witness :
  0 ≤ 4 < 2 ^ 32 ∧
  p64_cntdomain_alloc 4 1 8 4 0 true (globals_init 4) = Ok (Some fresh4, globals_init 4) ∧
  use_hp fresh4 = negb (Z.land 0 1 =? 0) ∧
  (∀ cntid fuel' g0, 1 ≤ cntid ≤ 4 →
     p64_counter_read 4 (S fuel') cntid fresh4 g0 = Ok (0, g0)) ∧
  (∀ g0, p64_cntdomain_free 4 fresh4 g0 = Ok (None, g0)).
Proof.
  assert (0 ≤ 4 < 2 ^ 32) as Hcap by lia.
  split; [exact Hcap|]. split; [vm_compute; reflexivity|].
  apply (fresh_domain_reads_zero 4 1 8 4 0 (globals_init 4) fresh4 (globals_init 4) Hcap).
  vm_compute. reflexivity.
Defined.

Lemma destroy_only_when_unregistered_witness :
  length (perthread two_threads.1) = 4%nat ∧
  Exists is_Some (perthread two_threads.1) ∧
  p64_cntdomain_free 4 two_threads.1 two_threads.2
    = Ok (Some two_threads.1,
          report_error "counter" "threads still registered" 0 two_threads.2).
Proof.
  split; [reflexivity|].
  assert (Exists is_Some (perthread two_threads.1)) as Hbusy
    by (apply Exists_cons_hd; eexists; reflexivity).
  split; [exact Hbusy|].
  exact (proj2 (destroy_only_when_unregistered 4 two_threads.1 two_threads.2 eq_refl) Hbusy).
Defined.

Lemma error_leaves_domain_witness :
  exec 4 1 (CFree 0) (fresh4, globals_init 4)
    = Ok (0, (fresh4, report_invalid_counter 0 (globals_init 4))) ∧
  (errors (report_invalid_counter 0 (globals_init 4)) = errors (globals_init 4) ∨
   (∃ e, errors (report_invalid_counter 0 (globals_init 4)) = e :: errors (globals_init 4)) ∧
   fresh4 = fresh4).
Proof.
  split; [reflexivity|].
  exact (error_leaves_domain 4 1 (CFree 0) (fresh4, globals_init 4) 0
           (fresh4, report_invalid_counter 0 (globals_init 4)) eq_refl).
Defined.

Lemma read_is_shared_plus_private_witness :
  wf_cntdomain 4 two_threads.1 ∧
  0 ≤ 1 < 2 ^ 32 ∧
  p64_counter_read 4 1 1 two_threads.1 two_threads.2
    = if (1 =? 0) || (ncounters two_threads.1 <=? 1)
      then Ok (0, report_error "counter" "invalid counter" 1 two_threads.2)
      else Ok (u64 (shared_at two_threads.1 1 + private_total (perthread two_threads.1) 1),
               two_threads.2).
Proof.
  assert (0 ≤ 1 < 2 ^ 32) as Hid by lia.
  split; [exact two_threads_wf|]. split; [exact Hid|].
  exact (read_is_shared_plus_private 4 0 1 two_threads.1 two_threads.2 two_threads_wf Hid).
Defined.

Lemma allocator_and_reads_return_witness :
  invariant 4 (two_threads.1, two_threads.2) ∧
  0 ≤ 1 < 2 ^ 32 ∧
  (∃ r, p64_counter_alloc 1 two_threads.1 = Ok r) ∧
  (∃ r, p64_counter_free 1 two_threads.1 two_threads.2 = Ok r) ∧
  (∃ r, p64_counter_read 4 1 1 two_threads.1 two_threads.2 = Ok r) ∧
  (∃ r, p64_counter_reset 4 1 1 two_threads.1 two_threads.2 = Ok r).
Proof.
  assert (0 ≤ 1 < 2 ^ 32) as Hid by lia.
  split; [exact two_threads_invariant|]. split; [exact Hid|].
  exact (allocator_and_reads_return 4 0 1 two_threads.1 two_threads.2
           two_threads_invariant Hid).
Defined.

Lemma layout_kept_by_all_calls_witness :
  0 ≤ 4 < 2 ^ 32 ∧
  Forall call_ok
    [CAlloc; CRegister tA true; CAdd tA 1 5; CRegister tB true; CAdd tB 1 7] ∧
  run_fresh 4 8 1 4 0
    [CAlloc; CRegister tA true; CAdd tA 1 5; CRegister tB true; CAdd tB 1 7]
    = Ok ([1; 0; 0; 0; 0], (two_threads.1, two_threads.2)) ∧
  ncounters two_threads.1 = 4 + 1 ∧
  Z.of_nat (length (free two_threads.1)) = (4 + 64) / 64 + (4 + 1) ∧
  Forall word64 (free two_threads.1) ∧
  length (perthread two_threads.1) = 4%nat ∧
  (∀ t c, perthread two_threads.1 !! t = Some (Some c) →
          Z.of_nat (length c) = 4 + 1 ∧ Forall word64 c) ∧
  freebit (free two_threads.1) 0 = false ∧
  (∀ p, 4 < p < BITSPERWORD * ((4 + 64) / 64) →
        freebit (free two_threads.1) p = false).
Proof.
  assert (0 ≤ 4 < 2 ^ 32) as Hcap by lia.
  assert (Forall call_ok
            [CAlloc; CRegister tA true; CAdd tA 1 5; CRegister tB true; CAdd tB 1 7])
    as Hcs by (repeat constructor; simpl; lia).
  split; [exact Hcap|]. split; [exact Hcs|]. split; [exact two_threads_reached|].
  exact (layout_kept_by_all_calls 4 1 8 4 0 _ _ _ _ Hcap Hcs two_threads_reached).
Defined.

Lemma add_then_read_witness :
  wf_cntdomain 4 two_threads.1 ∧
  count (get_pth tA two_threads.2) ≠ 0 ∧
  0 ≤ tidx (get_pth tA two_threads.2) ∧
  perthread two_threads.1 !! Z.to_nat (tidx (get_pth tA two_threads.2))
    = Some (Some [0; 5; 0; 0; 0]) ∧
  1 ≤ 1 < ncounters two_threads.1 ∧
  ∃ cntd' v,
    p64_counter_read 4 1 1 two_threads.1 two_threads.2 = Ok (v, two_threads.2) ∧
    p64_counter_add tA 1 3 two_threads.1 two_threads.2 = Ok (cntd', two_threads.2) ∧
    p64_counter_read 4 1 1 cntd' two_threads.2 = Ok (u64 (v + 3), two_threads.2).
Proof.
  assert (count (get_pth tA two_threads.2) ≠ 0) as Hc by (vm_compute; discriminate).
  assert (0 ≤ tidx (get_pth tA two_threads.2)) as Ht by (vm_compute; discriminate).
  assert (1 ≤ 1 < ncounters two_threads.1) as Hid by (simpl; lia).
  split; [exact two_threads_wf|]. split; [exact Hc|]. split; [exact Ht|].
  split; [reflexivity|]. split; [exact Hid|].
  destruct (add_then_read 4 0 tA 1 3 two_threads.1 two_threads.2 [0; 5; 0; 0; 0]
              two_threads_wf Hc Ht eq_refl Hid)
    as (cntd' & v & Hread & Hadd & _ & _ & Hread' & _).
  exists cntd', v. repeat split; assumption.
Defined.

Lemma unregister_keeps_reads_witness :
  wf_cntdomain 4 two_threads.1 ∧
  count (get_pth tA two_threads.2) ≠ 0 ∧
  0 ≤ tidx (get_pth tA two_threads.2) ∧
  perthread two_threads.1 !! Z.to_nat (tidx (get_pth tA two_threads.2))
    = Some (Some [0; 5; 0; 0; 0]) ∧
  Forall (λ c, c < 2 ^ 32) [0; 5; 0; 0; 0] ∧
  ∃ cntd' g',
    p64_cntdomain_unregister tA two_threads.1 two_threads.2 = Ok (cntd', g') ∧
    ∃ v, p64_counter_read 4 1 1 two_threads.1 two_threads.2 = Ok (v, two_threads.2) ∧
         p64_counter_read 4 1 1 cntd' g' = Ok (v, g').
Proof.
  assert (count (get_pth tA two_threads.2) ≠ 0) as Hc by (vm_compute; discriminate).
  assert (0 ≤ tidx (get_pth tA two_threads.2)) as Ht by (vm_compute; discriminate).
  assert (Forall (λ c, c < 2 ^ 32) [0; 5; 0; 0; 0]) as Hsmall by (repeat constructor).
  split; [exact two_threads_wf|]. split; [exact Hc|]. split; [exact Ht|].
  split; [reflexivity|]. split; [exact Hsmall|].
  destruct (unregister_keeps_reads 4 tA two_threads.1 two_threads.2 [0; 5; 0; 0; 0]
              two_threads_wf Hc Ht eq_refl Hsmall)
    as (cntd' & g' & Hrun & _ & Hreads).
  exists cntd', g'. split; [exact Hrun|].
  destruct (Hreads 0%nat 1) as (v & Hv & Hv' & _); [simpl; lia|].
  exists v. split; assumption.
Defined.

Lemma register_keeps_reads_witness :
  wf_cntdomain 4 two_threads.1 ∧
  count (get_pth 2%nat two_threads.2) = 0 ∧
  first_free (thr_idx two_threads.2) 0 = 2 ∧
  0 ≤ 2 ∧
  perthread two_threads.1 !! Z.to_nat 2 = Some None ∧
  ∃ cntd' g',
    p64_cntdomain_register 2%nat true two_threads.1 two_threads.2 = Ok (cntd', g') ∧
    get_pth 2%nat g' = mk_pth 2 1 ∧
    ∃ v, p64_counter_read 4 1 1 two_threads.1 two_threads.2 = Ok (v, two_threads.2) ∧
         p64_counter_read 4 1 1 cntd' g' = Ok (v, g').
Proof.
  assert (0 ≤ 2) as Hi by lia.
  split; [exact two_threads_wf|]. split; [reflexivity|]. split; [reflexivity|].
  split; [exact Hi|]. split; [reflexivity|].
  destruct (register_keeps_reads 4 2%nat two_threads.1 two_threads.2 2
              two_threads_wf eq_refl eq_refl Hi eq_refl)
    as (cntd' & g' & Hrun & Hp & _ & _ & _ & _ & Hreads).
  exists cntd', g'. split; [exact Hrun|]. split; [exact Hp|].
  destruct (Hreads 0%nat 1) as (v & Hv & Hv'); [simpl; lia|].
  exists v. split; assumption.
Defined.

Lemma register_unregister_round_trip_witness :
  wf_cntdomain 4 two_threads.1 ∧
  count (get_pth 2%nat two_threads.2) = 0 ∧
  first_free (thr_idx two_threads.2) 0 = 2 ∧
  0 ≤ 2 ∧
  perthread two_threads.1 !! Z.to_nat 2 = Some None ∧
  ∃ cntd1 g1 g2,
    p64_cntdomain_register 2%nat true two_threads.1 two_threads.2 = Ok (cntd1, g1) ∧
    p64_cntdomain_unregister 2%nat cntd1 g1 = Ok (two_threads.1, g2) ∧
    get_pth 2%nat g2 = mk_pth (-1) 0 ∧
    thr_idx g2 = thr_idx two_threads.2 ∧
    errors g2 = errors two_threads.2.
Proof.
  assert (0 ≤ 2) as Hi by lia.
  split; [exact two_threads_wf|]. split; [reflexivity|]. split; [reflexivity|].
  split; [exact Hi|]. split; [reflexivity|].
  destruct (register_unregister_round_trip 4 2%nat two_threads.1 two_threads.2 2
              two_threads_wf eq_refl eq_refl Hi eq_refl)
    as (cntd1 & g1 & g2 & Hreg & Hunreg & Hp & Hidx & Herr & _).
  exists cntd1, g1, g2. repeat split; assumption.
Defined.

Lemma alloc_takes_lowest_free_witness :
  invariant 4 (two_threads.1, two_threads.2) ∧
  ∃ cntid cntd',
    p64_counter_alloc 1 two_threads.1 = Ok (cntid, cntd') ∧
    ((cntid = P64_COUNTER_INVALID ∧ cntd' = two_threads.1) ∨
     (1 ≤ cntid < ncounters two_threads.1 ∧
      freebit (free two_threads.1) cntid = true ∧
      (∀ p, 1 ≤ p < cntid → freebit (free two_threads.1) p = false))).
Proof.
  split; [exact two_threads_invariant|].
  destruct (alloc_takes_lowest_free 4 0 two_threads.1 two_threads.2 two_threads_invariant)
    as (cntid & cntd' & Hrun & [(H0 & Hsame & _)|(Hid & Hfree & Hlow & _)]);
    exists cntid, cntd'; (split; [exact Hrun|]).
  - left. split; assumption.
  - right. split; [exact Hid|]. split; assumption.
Defined.

Lemma free_marks_once_witness :
  wf_cntdomain 4 two_threads.1 ∧
  0 ≤ 1 < 2 ^ 32 ∧
  ∃ cntd',
    p64_counter_free 1 two_threads.1 two_threads.2 = Ok (cntd', two_threads.2) ∧
    freebit (free cntd') 1 = true ∧
    ∀ g', p64_counter_free 1 cntd' g'
            = Ok (cntd', report_error "counter" "counter already free" 1 g').
Proof.
  assert (0 ≤ 1 < 2 ^ 32) as Hid by lia.
  split; [exact two_threads_wf|]. split; [exact Hid|].
  pose proof (free_marks_once 4 0 1 two_threads.1 two_threads.2 two_threads_wf Hid) as H.
  change ((1 =? 0) || (ncounters two_threads.1 <=? 1)) with false in H.
  change (freebit (free two_threads.1) 1) with false in H.
  cbv iota in H. destruct H as (cntd' & Hrun & Hset & _ & _ & Htwice).
  exists cntd'. repeat split; assumption.
Defined.

Lemma alloc_free_round_trip_witness :
  invariant 4 (fresh4, globals_init 4) ∧
  p64_counter_alloc 1 fresh4
    = Ok (1, mk_cntdomain 5 false 1 [None; None; None; None] [28; 0; 0; 0; 0; 0]) ∧
  1 ≠ P64_COUNTER_INVALID ∧
  ∃ cntd2 cntd3,
    p64_counter_free 1
      (mk_cntdomain 5 false 1 [None; None; None; None] [28; 0; 0; 0; 0; 0])
      (globals_init 4) = Ok (cntd2, globals_init 4) ∧
    (∀ p, 0 ≤ p < BITSPERWORD * shared fresh4 →
       freebit (free cntd2) p = freebit (free fresh4) p) ∧
    p64_counter_alloc 1 cntd2 = Ok (1, cntd3).
Proof.
  assert (1 ≠ P64_COUNTER_INVALID) as Hne by discriminate.
  split; [exact fresh4_invariant|]. split; [reflexivity|]. split; [exact Hne|].
  exact (alloc_free_round_trip 4 0 fresh4 (globals_init 4) 1 _
           fresh4_invariant eq_refl Hne).
Defined.

Lemma reset_touches_one_word_witness :
  wf_cntdomain 4 two_threads.1 ∧
  1 ≤ 1 < ncounters two_threads.1 ∧
  ∃ cntd',
    p64_counter_reset 4 1 1 two_threads.1 two_threads.2 = Ok (cntd', two_threads.2) ∧
    perthread cntd' = perthread two_threads.1 ∧
    (∀ k, k ≠ Z.to_nat (shared two_threads.1 + 1) →
       free cntd' !! k = free two_threads.1 !! k) ∧
    (∀ p, 0 ≤ p < BITSPERWORD * shared two_threads.1 →
       freebit (free cntd') p = freebit (free two_threads.1) p) ∧
    ∀ j, 1 ≤ j < ncounters two_threads.1 → j ≠ 1 →
      p64_counter_read 4 1 j cntd' two_threads.2
        = p64_counter_read 4 1 j two_threads.1 two_threads.2.
Proof.
  assert (1 ≤ 1 < ncounters two_threads.1) as Hid by (simpl; lia).
  split; [exact two_threads_wf|]. split; [exact Hid|].
  exact (reset_touches_one_word 4 0 1 two_threads.1 two_threads.2 two_threads_wf Hid).
Defined.
